(** * rverflow: version algebra, metadata normalisation, provider and resolver

    A shallow embedding of the Python package [rverflow] (modules
    [rversion], [constants], [models], [exceptions], [metadata] and
    [solver]) together with the properties its specification states.

    Conventions of the embedding.
    - Python [str] values are [string]s; the text the program handles
      (version strings, package names, DESCRIPTION files) is ASCII, and the
      character classes of the regular expressions and of [str.strip],
      [str.isdigit], [str.lower] and [str.splitlines] are written out for
      ASCII: a character beyond it belongs to none of them.
    - [Optional[str]] is [option string]; Python truthiness ([if x:],
      [x or y]) is written with [truthy] and [py_or].
    - a [dict] with string keys is a [gmap string _], a [set] of strings a
      [gset string]; where the iteration order of a dict matters an
      association list is used instead.
    - exceptions are values of type [exn]; code that mutates a state and
      may raise returns the state in both cases, as the mutation survives
      the exception.
    - [int(token)] is embedded as a total function on runs of digits.
      CPython converts runs of at most 4300 digits and raises
      [ValueError] beyond; [version_text] and [plain_text] delimit the
      texts on which every conversion of [RVersion.__init__] returns. *)

From Stdlib Require Import ZArith NArith List Ascii String Bool Lia Permutation Sorted.
From stdpp Require Import base option gmap strings list fin_maps.

Import ListNotations.
Local Open Scope string_scope.
Local Open Scope list_scope.

(** ** Characters and strings *)

Module Str.

Definition code (c : ascii) : N := N_of_ascii c.

Definition in_range (lo hi : N) (c : ascii) : bool :=
  (lo <=? code c)%N && (code c <=? hi)%N.

(** [str.isspace] on one character: TAB, LF, VT, FF, CR, the four
    separators FS, GS, RS, US, and the blank. *)
Definition is_space (c : ascii) : bool :=
  in_range 9 13 c || in_range 28 31 c || (code c =? 32)%N.

Definition is_digit (c : ascii) : bool := in_range 48 57 c.
Definition is_upper (c : ascii) : bool := in_range 65 90 c.
Definition is_lower (c : ascii) : bool := in_range 97 122 c.
Definition is_alpha (c : ascii) : bool := is_upper c || is_lower c.
Definition is_alnum (c : ascii) : bool := is_digit c || is_alpha c.

Definition lower_char (c : ascii) : ascii :=
  if is_upper c then ascii_of_N (code c + 32) else c.

(** [str.lower] *)
Fixpoint lower (s : string) : string :=
  match s with
  | EmptyString => EmptyString
  | String c s' => String (lower_char c) (lower s')
  end.

Fixpoint all (p : ascii -> bool) (s : string) : bool :=
  match s with
  | EmptyString => true
  | String c s' => p c && all p s'
  end.

Definition is_empty (s : string) : bool :=
  match s with EmptyString => true | _ => false end.

(** Longest prefix whose characters satisfy [p], and the rest. *)
Fixpoint span (p : ascii -> bool) (s : string) : string * string :=
  match s with
  | EmptyString => (EmptyString, EmptyString)
  | String c s' =>
      if p c then let '(a, b) := span p s' in (String c a, b)
      else (EmptyString, s)
  end.

Fixpoint lstrip (s : string) : string :=
  match s with
  | EmptyString => EmptyString
  | String c s' => if is_space c then lstrip s' else s
  end.

Fixpoint rstrip (s : string) : string :=
  match s with
  | EmptyString => EmptyString
  | String c s' =>
      let r := rstrip s' in
      if is_space c && is_empty r then EmptyString else String c r
  end.

(** [str.strip()] *)
Definition strip (s : string) : string := rstrip (lstrip s).

(** Splitting at every character satisfying [sep]; empty pieces are
    kept, as [str.split(",")] and [re.split] with a one-character class
    do. *)
Fixpoint split (sep : ascii -> bool) (s : string) : list string :=
  match s with
  | EmptyString => [EmptyString]
  | String c s' =>
      if sep c then EmptyString :: split sep s'
      else match split sep s' with
           | [] => [String c EmptyString]
           | p :: ps => String c p :: ps
           end
  end.

Definition is_char (d : ascii) (c : ascii) : bool := (code c =? code d)%N.

(** [str.isdigit()] *)
Definition isdigit (s : string) : bool := negb (is_empty s) && all is_digit s.

Fixpoint int_acc (acc : N) (s : string) : N :=
  match s with
  | EmptyString => acc
  | String c s' => int_acc (10 * acc + (code c - 48)) s'
  end.

(** [int(s)] for a string of decimal digits, of at most 4300 digits as
    far as CPython is concerned *)
Definition int (s : string) : N := int_acc 0 s.

(** [s.startswith(p)] *)
Definition startswith (s p : string) : bool := String.prefix p s.

(** [s[:n]] *)
Definition take (n : nat) (s : string) : string := String.substring 0 n s.

(** [sep.join(parts)] *)
Fixpoint join (sep : string) (parts : list string) : string :=
  match parts with
  | [] => EmptyString
  | [p] => p
  | p :: ps => (p ++ sep ++ join sep ps)%string
  end.

(** [x in l] for a list of strings *)
Definition mem (x : string) (l : list string) : bool :=
  existsb (String.eqb x) l.

End Str.

(** Python truthiness of an optional string, and [x or y]. *)
Definition truthy (o : option string) : bool :=
  match o with
  | Some s => negb (Str.is_empty s)
  | None => false
  end.

Definition py_or (x y : option string) : option string :=
  if truthy x then x else y.

(** ** rversion.py *)

(** [_tokenize]: strip, split on [._-], drop empty chunks. *)
Definition is_version_sep (c : ascii) : bool :=
  Str.is_char "." c || Str.is_char "_" c || Str.is_char "-" c.

Definition _tokenize (version : string) : list string :=
  let version := Str.strip version in
  if Str.is_empty version then ["0"]
  else
    let parts := List.filter (fun chunk => negb (Str.is_empty chunk))
                             (Str.split is_version_sep version) in
    match parts with
    | [] => ["0"]
    | _ => parts
    end.

Definition is_newline (c : ascii) : bool := Str.is_char "010" c.

(** One component: a token of digits is [(int(token), "")]; a token
    made of a run of digits, then a letter, then anything (the pattern of
    [re.match] in [RVersion.__init__]) is split after its digits, the
    suffix running to the first line feed, which the dot of the pattern
    does not match; any other token is [(0, token)]. *)
Definition component_of_token (token : string) : N * string :=
  if Str.isdigit token then (Str.int token, "")
  else
    let '(digits, rest) := Str.span Str.is_digit token in
    match digits, rest with
    | String _ _, String c _ =>
        if Str.is_alpha c
        then (Str.int digits, fst (Str.span (fun x => negb (is_newline x)) rest))
        else (0%N, token)
    | _, _ => (0%N, token)
    end.

Record RVersion := mkRVersion {
  raw : string;
  components : list (N * string)
}.

(** [RVersion.__init__] *)
Definition RVersion_init (raw : string) : RVersion :=
  mkRVersion raw (List.map component_of_token (_tokenize raw)).

(** One step of the loop of [_compare]: decide on this pair of
    components or go on with [k]. *)
Definition compare_step (l r : N * string) (k : Z) : Z :=
  let '(left_num, left_suffix) := l in
  let '(right_num, right_suffix) := r in
  if negb (left_num =? right_num)%N then
    (if (left_num <? right_num)%N then -1 else 1)%Z
  else if negb (String.eqb left_suffix right_suffix) then
    (if String.ltb left_suffix right_suffix then -1 else 1)%Z
  else k.

Definition fillvalue : N * string := (0%N, "").

(** [zip_longest(self.components, other.components, fillvalue=(0, ""))]
    folded with [compare_step]. *)
Fixpoint compare_components (l r : list (N * string)) : Z :=
  match l with
  | [] =>
      (fix right_only (r : list (N * string)) : Z :=
         match r with
         | [] => 0%Z
         | y :: r' => compare_step fillvalue y (right_only r')
         end) r
  | x :: l' =>
      match r with
      | [] => compare_step x fillvalue (compare_components l' [])
      | y :: r' => compare_step x y (compare_components l' r')
      end
  end.

(** [RVersion._compare], [__lt__], [__eq__] *)
Definition _compare (self other : RVersion) : Z :=
  compare_components (components self) (components other).

Definition RVersion_lt (self other : RVersion) : bool :=
  (_compare self other <? 0)%Z.

Definition component_eqb (a b : N * string) : bool :=
  (fst a =? fst b)%N && String.eqb (snd a) (snd b).

Fixpoint components_eqb (l r : list (N * string)) : bool :=
  match l, r with
  | [], [] => true
  | x :: l', y :: r' => component_eqb x y && components_eqb l' r'
  | _, _ => false
  end.

Definition RVersion_eq (self other : RVersion) : bool :=
  components_eqb (components self) (components other).

Definition compare_versions (a b : string) : Z :=
  let left := RVersion_init a in
  let right := RVersion_init b in
  _compare left right.

(** ** exceptions.py *)

Module ResolutionError.
Record t := mk {
  package : string;
  required_by : list string;
  message : string;
  candidates : option (list string)
}.
End ResolutionError.

(** The exceptions the modelled code raises. [KeyError] is what [del d[k]]
    and [set.remove] raise on a missing key, [TypeError] what a call with
    an unexpected keyword raises. *)
Inductive exn :=
| ResolutionErr (e : ResolutionError.t)
| MetadataFetchError (msg : string)
| ValueError (msg : string)
| TypeError (msg : string)
| KeyError (key : string).

Inductive res (A : Type) :=
| Ok (a : A)
| Raise (e : exn).
Arguments Ok {A} a.
Arguments Raise {A} e.

(** ** rversion.py, continued *)

Module VersionConstraint.
Record t := mk {
  operator : string;
  version : string
}.
End VersionConstraint.

Definition is_satisfied_by (self : VersionConstraint.t) (candidate : string) : res bool :=
  let cmp := compare_versions candidate (VersionConstraint.version self) in
  let op := VersionConstraint.operator self in
  if String.eqb op ">" then Ok (cmp >? 0)%Z
  else if String.eqb op ">=" then Ok (cmp >=? 0)%Z
  else if String.eqb op "<" then Ok (cmp <? 0)%Z
  else if String.eqb op "<=" then Ok (cmp <=? 0)%Z
  else if String.eqb op "==" || String.eqb op "=" then Ok (cmp =? 0)%Z
  else if String.eqb op "!=" then Ok (negb (cmp =? 0)%Z)
  else Raise (ValueError ("Unsupported operator: " ++ op)%string).

(** The alternation of [_CONSTRAINT_TOKEN_RE], in the order the pattern
    tries it. *)
Definition constraint_operators : list string :=
  [">="; "<="; "=="; "="; "!="; ">"; "<"].

Definition is_version_char (c : ascii) : bool :=
  Str.is_alnum c || Str.is_char "_" c || Str.is_char "." c || Str.is_char "-" c.

(** The text after the operator: any white space, then the longest
    non-empty run of version characters. *)
Definition match_version_token (s : string) : option string :=
  let '(v, _) := Str.span is_version_char (snd (Str.span Str.is_space s)) in
  if Str.is_empty v then None else Some v.

(** The text [s] minus its prefix [p], when [p] is a prefix. *)
Fixpoint drop_prefix (p s : string) : option string :=
  match p, s with
  | EmptyString, _ => Some s
  | String a p', String b s' => if Ascii.eqb a b then drop_prefix p' s' else None
  | String _ _, EmptyString => None
  end.

(** A match of the pattern anchored at the start of [s]: the first
    alternative for which the whole pattern matches. *)
Fixpoint match_token_with (ops : list string) (s : string) : option (string * string) :=
  match ops with
  | [] => None
  | op :: ops' =>
      match drop_prefix op s with
      | Some rest =>
          match match_version_token rest with
          | Some v => Some (op, v)
          | None => match_token_with ops' s
          end
      | None => match_token_with ops' s
      end
  end.

Definition match_token_at (s : string) : option (string * string) :=
  match_token_with constraint_operators s.

(** [_CONSTRAINT_TOKEN_RE.search]: the leftmost position with a match. *)
Fixpoint search_constraint_token (s : string) : option (string * string) :=
  match match_token_at s with
  | Some m => Some m
  | None =>
      match s with
      | EmptyString => None
      | String _ s' => search_constraint_token s'
      end
  end.

Definition is_comma (c : ascii) : bool := Str.is_char "," c.

Fixpoint parse_fragments (fragments : list string) : list VersionConstraint.t :=
  match fragments with
  | [] => []
  | fragment :: rest =>
      let fragment := Str.strip fragment in
      if Str.is_empty fragment then parse_fragments rest
      else
        match search_constraint_token fragment with
        | None => parse_fragments rest
        | Some (op, version) => VersionConstraint.mk op version :: parse_fragments rest
        end
  end.

Definition parse_constraint_expression (expr : string) : list VersionConstraint.t :=
  parse_fragments (Str.split is_comma expr).

(** [all(c.is_satisfied_by(candidate) for c in constraints)]: stops at the
    first constraint that is not satisfied, raises if one raises before. *)
Fixpoint satisfies_all (candidate : string) (constraints : list VersionConstraint.t) : res bool :=
  match constraints with
  | [] => Ok true
  | c :: cs =>
      match is_satisfied_by c candidate with
      | Raise e => Raise e
      | Ok false => Ok false
      | Ok true => satisfies_all candidate cs
      end
  end.


(** ** constants.py *)

Definition BASE_R_PACKAGES : gset string :=
  {[ "base"; "compiler"; "datasets"; "graphics"; "grDevices"; "grid";
     "methods"; "parallel"; "splines"; "stats"; "stats4"; "tcltk";
     "tools"; "utils" ]}.

Definition SUPPORTED_R_VERSIONS : list string :=
  [ "3.6.0"; "3.6.3"; "4.0.0"; "4.0.2"; "4.0.5"; "4.1.0"; "4.1.2"; "4.1.3";
    "4.2.0"; "4.2.1"; "4.2.2"; "4.2.3"; "4.3.0"; "4.3.1"; "4.3.2"; "4.3.3";
    "4.4.0"; "4.4.1" ].

(** The table is a dict literal; its keys are listed in the order of the
    literal, which is the order Python iterates them in. *)
Definition BIOCONDUCTOR_R_MATRIX : list (string * string) :=
  [ ("3.12", "4.0"); ("3.13", "4.1"); ("3.14", "4.1"); ("3.15", "4.2");
    ("3.16", "4.2"); ("3.17", "4.3"); ("3.18", "4.3"); ("3.19", "4.4") ].

(** ** models.py *)

Module Dependency.
Record t := mk {
  name : string;
  constraints : list VersionConstraint.t;
  kind : string;
  optional : bool;
  source_hint : option string
}.
End Dependency.

Module PackageVersion.
Record t := mk {
  name : string;
  version : string;
  repo : string;
  r_min : option string;
  dependencies : list Dependency.t;
  bioc_release : option string;
  source_url : option string;
  metadata : list (string * string);
  published : option string
}.
End PackageVersion.

Module PackageSelection.
Record t := mk {
  package : string;
  version : string;
  repo : string;
  source_url : option string;
  dependencies : list Dependency.t;
  r_min : option string;
  bioc_release : option string
}.
End PackageSelection.

Module ResolutionPlan.
Record t := mk {
  r_version : string;
  selections : gmap string PackageSelection.t;
  notes : list string
}.
End ResolutionPlan.

Module Conflict.
Record t := mk {
  package : string;
  required_by : list string;
  message : string;
  candidates_considered : list string
}.

(** The names the generated [__init__] of the dataclass accepts. *)
Definition fields : list string :=
  ["package"; "required_by"; "message"; "candidates_considered"].
End Conflict.

(** ** metadata.py: normalisation *)

(** A dependency section of a payload, as [_parse_dep_section] tells the
    cases apart: absent or null, a mapping from names to constraint
    expressions, a comma-separated string, a list of entries (a null
    entry is [None]), or some other value that is neither. *)
Inductive section :=
| SecAbsent
| SecDict (items : list (string * string))
| SecStr (s : string)
| SecList (entries : list (option string))
| SecOther.

(** A raw payload: its four dependency sections and its other,
    string-valued fields. *)
Module Payload.
Record t := mk {
  Depends : section;
  Imports : section;
  LinkingTo : section;
  Suggests : section;
  fields : gmap string string
}.

Definition get (payload : t) (key : string) : option string := fields payload !! key.
End Payload.

Definition is_name_char (c : ascii) : bool :=
  Str.is_alnum c || Str.is_char "." c || Str.is_char "_" c.

Definition is_open_paren (c : ascii) : bool := Str.is_char "(" c.
Definition is_close_paren (c : ascii) : bool := Str.is_char ")" c.

(** [_DEP_PATTERN.match]: a name, then optionally white space and a
    parenthesised, non-empty text without closing parenthesis, then the
    end. The result is the name and the text of the group, if any. *)
Definition match_dep_pattern (s : string) : option (string * option string) :=
  let '(name, rest) := Str.span is_name_char s in
  if Str.is_empty name then None
  else if Str.is_empty rest then Some (name, None)
  else
    match snd (Str.span Str.is_space rest) with
    | String c inner =>
        if is_open_paren c then
          let '(body, closing) := Str.span (fun x => negb (is_close_paren x)) inner in
          if negb (Str.is_empty body) && String.eqb closing ")"
          then Some (name, Some body)
          else None
        else None
    | EmptyString => None
    end.

Definition _parse_dependency_entry (entry : string) : string * list VersionConstraint.t :=
  match match_dep_pattern (Str.strip entry) with
  | None => (Str.strip entry, [])
  | Some (name, group) =>
      let constraints_expr := match group with Some g => g | None => "" end in
      (name, parse_constraint_expression constraints_expr)
  end.

Definition parse_entries (entries : list (option string)) : list (string * list VersionConstraint.t) :=
  flat_map (fun raw => match raw with
                       | None => []
                       | Some r => [_parse_dependency_entry r]
                       end) entries.

Definition _parse_dep_section (sec : section) : list (string * list VersionConstraint.t) :=
  match sec with
  | SecAbsent => []
  | SecDict items =>
      List.map (fun '(name, spec) => (name, parse_constraint_expression spec)) items
  | SecStr s =>
      if Str.is_empty s then []
      else parse_entries (List.map Some (Str.split is_comma s))
  | SecList entries => parse_entries entries
  | SecOther => []
  end.

(** The inner loop of [_split_r_requirement]: the version of the last
    constraint whose operator is [>=] or [>]. *)
Fixpoint last_lower_bound (candidate : option string) (constraints : list VersionConstraint.t) : option string :=
  match constraints with
  | [] => candidate
  | c :: cs =>
      let op := VersionConstraint.operator c in
      if String.eqb op ">=" || String.eqb op ">"
      then last_lower_bound (Some (VersionConstraint.version c)) cs
      else last_lower_bound candidate cs
  end.

Fixpoint split_r_loop (dependencies : list Dependency.t) (r_requirement : option string)
    (remaining : list Dependency.t) : option string * list Dependency.t :=
  match dependencies with
  | [] => (r_requirement, remaining)
  | dep :: deps =>
      if String.eqb (Str.lower (Dependency.name dep)) "r" then
        let candidate := last_lower_bound None (Dependency.constraints dep) in
        let r_requirement' :=
          if truthy candidate then
            match candidate, r_requirement with
            | Some cand, Some req =>
                if negb (truthy r_requirement) || (compare_versions cand req >? 0)%Z
                then candidate else r_requirement
            | _, _ => candidate
            end
          else r_requirement in
        split_r_loop deps r_requirement' remaining
      else split_r_loop deps r_requirement (remaining ++ [dep])
  end.

Definition _split_r_requirement (dependencies : list Dependency.t) : option string * list Dependency.t :=
  split_r_loop dependencies None [].

Definition section_dependencies (sec : section) (kind : string) (optional : bool) : list Dependency.t :=
  List.map (fun '(name, constraints) => Dependency.mk name constraints kind optional None)
           (_parse_dep_section sec).

Definition _build_dependencies (payload : Payload.t) (include_optional : bool)
    : list Dependency.t * option string :=
  let dependencies :=
    section_dependencies (Payload.Depends payload) "Depends" false
    ++ section_dependencies (Payload.Imports payload) "Imports" false
    ++ section_dependencies (Payload.LinkingTo payload) "LinkingTo" false
    ++ (if include_optional
        then section_dependencies (Payload.Suggests payload) "Suggests" true
        else []) in
  let '(r_min, non_r_dependencies) := _split_r_requirement dependencies in
  let filtered :=
    List.filter (fun dep => negb (bool_decide (Str.lower (Dependency.name dep) ∈ BASE_R_PACKAGES)))
                non_r_dependencies in
  (filtered, r_min).

Definition copy_fields (payload : Payload.t) (keys : list string) : list (string * string) :=
  flat_map (fun field => match Payload.get payload field with
                         | Some v => [(field, v)]
                         | None => []
                         end) keys.

Definition _normalize_cran_payload (package : string) (payload : Payload.t) (version : string)
    : PackageVersion.t :=
  let '(dependencies, r_min) := _build_dependencies payload false in
  let metadata := copy_fields payload ["MD5sum"; "NeedsCompilation"; "Repository"] in
  let published := Payload.get payload "Date/Publication" in
  PackageVersion.mk package version "CRAN" r_min dependencies None
    (Some ("https://cran.r-project.org/package=" ++ package)%string) metadata published.

Definition get_default (payload : Payload.t) (key default : string) : string :=
  match Payload.get payload key with Some v => v | None => default end.

Definition _normalize_bioc_payload (package : string) (payload : Payload.t) (release : string)
    : PackageVersion.t :=
  let '(dependencies, r_min) := _build_dependencies payload false in
  let source_url :=
    py_or (Payload.get payload "git_url")
          (Some ("https://bioconductor.org/packages/" ++ release ++ "/bioc/html/" ++ package ++ ".html")%string) in
  let published :=
    py_or (Payload.get payload "Date/Publication") (Payload.get payload "git_last_commit_date") in
  let metadata :=
    [ ("category", get_default payload ".category" "bioc");
      ("git_branch", get_default payload "git_branch" "") ] in
  PackageVersion.mk package (get_default payload "Version" "None") "Bioconductor" r_min
    dependencies (Some release) source_url metadata published.

(** *** DESCRIPTION files *)

(** The line boundaries of [str.splitlines]: LF, VT, FF, CR and the
    separators FS, GS, RS. *)
Definition is_linebreak (c : ascii) : bool :=
  Str.in_range 10 13 c || Str.in_range 28 30 c.

Definition is_cr (c : ascii) : bool := Str.is_char "013" c.

(** [str.splitlines()]: a carriage return followed by a line feed is one
    boundary, and a boundary at the very end opens no further line. *)
Fixpoint splitlines (s : string) : list string :=
  match s with
  | EmptyString => []
  | String c s' =>
      if is_linebreak c then
        match s' with
        | String d s'' =>
            if is_cr c && is_newline d then EmptyString :: splitlines s''
            else EmptyString :: splitlines s'
        | EmptyString => [EmptyString]
        end
      else
        match splitlines s' with
        | [] => [String c EmptyString]
        | l :: ls => String c l :: ls
        end
  end.

Definition is_colon (c : ascii) : bool := Str.is_char ":" c.

(** [line.split(":", 1)] for a line that contains a colon. *)
Definition split_first_colon (line : string) : string * string :=
  let '(key, rest) := Str.span (fun c => negb (is_colon c)) line in
  (key, match rest with String _ value => value | EmptyString => EmptyString end).

(** [" ".join(part.strip() for part in current_value if part)] *)
Definition join_value (current_value : list string) : string :=
  Str.join " " (List.map Str.strip
                  (List.filter (fun part => negb (Str.is_empty part)) current_value)).

Definition flush_field (current_key : option string) (current_value : list string)
    (result : gmap string string) : gmap string string :=
  match current_key with
  | Some key => if truthy current_key then <[key := join_value current_value]> result else result
  | None => result
  end.

Fixpoint parse_description_lines (lines : list string) (current_key : option string)
    (current_value : list string) (result : gmap string string) : gmap string string :=
  match lines with
  | [] => flush_field current_key current_value result
  | line :: rest =>
      if Str.is_empty (Str.strip line) then
        parse_description_lines rest None [] (flush_field current_key current_value result)
      else if negb (Str.startswith line " ") && negb (Str.all (fun c => negb (is_colon c)) line) then
        let '(key, value) := split_first_colon line in
        parse_description_lines rest (Some (Str.strip key)) [Str.strip value]
          (flush_field current_key current_value result)
      else
        parse_description_lines rest current_key (current_value ++ [line]) result
  end.

Definition _parse_description (raw : string) : gmap string string :=
  parse_description_lines (splitlines raw) None [] ∅.

Module GithubMetadata.
Record t := mk {
  owner : string;
  repo : string;
  commit : string;
  description : gmap string string;
  ref : option string;
  url : option string;
  timestamp : option string
}.
End GithubMetadata.

(** A parsed DESCRIPTION used as a payload: every section is the text of
    its field. *)
Definition description_section (desc : gmap string string) (key : string) : section :=
  match desc !! key with
  | Some s => SecStr s
  | None => SecAbsent
  end.

Definition description_payload (desc : gmap string string) : Payload.t :=
  Payload.mk (description_section desc "Depends") (description_section desc "Imports")
             (description_section desc "LinkingTo") (description_section desc "Suggests") desc.

Definition _normalize_github_payload (info : GithubMetadata.t) : res PackageVersion.t :=
  let desc := GithubMetadata.description info in
  match desc !! "Package" with
  | Some package =>
      if Str.is_empty package
      then Raise (MetadataFetchError "GitHub DESCRIPTION missing Package field")
      else
        let version := match desc !! "Version" with Some v => v | None => "0.0.0" end in
        let '(dependencies, r_min) := _build_dependencies (description_payload desc) false in
        let metadata :=
          [ ("commit", GithubMetadata.commit info);
            ("repo", (GithubMetadata.owner info ++ "/" ++ GithubMetadata.repo info)%string);
            ("ref", match py_or (GithubMetadata.ref info) (Some "") with
                    | Some r => r
                    | None => ""
                    end) ] in
        Ok (PackageVersion.mk package version "GitHub" r_min dependencies None
              (GithubMetadata.url info) metadata (GithubMetadata.timestamp info))
  | None => Raise (MetadataFetchError "GitHub DESCRIPTION missing Package field")
  end.

(** ** metadata.py: the provider *)

(** Stable sort, as [list.sort] and [sorted] perform it: [lt a b] is the
    [<] of the keys. An element goes behind the elements of the sorted
    rest that are smaller than it and before all others, so elements that
    compare equal keep their order. *)
Section StableSort.
Context {A : Type} (lt : A -> A -> bool).

Fixpoint insert_sorted (x : A) (l : list A) : list A :=
  match l with
  | [] => [x]
  | y :: l' => if lt y x then y :: insert_sorted x l' else x :: l
  end.

Definition stable_sort (l : list A) : list A :=
  List.fold_right insert_sorted [] l.
End StableSort.

(** Sorting with [reverse=True] keeps the order of equal elements too. *)
Definition stable_sort_reverse {A : Type} (lt : A -> A -> bool) (l : list A) : list A :=
  stable_sort (fun a b => lt b a) l.

Definition version_key_lt (a b : PackageVersion.t) : bool :=
  RVersion_lt (RVersion_init (PackageVersion.version a)) (RVersion_init (PackageVersion.version b)).

(** What the provider reads from the network. *)
Module CranRaw.
(** The JSON object crandb returns: its [versions] member, when there is
    one, and the names of its other members. *)
Record t := mk {
  versions : option (list (string * Payload.t));
  other_keys : list string
}.

(** [not raw] *)
Definition is_empty (raw : t) : bool :=
  match versions raw, other_keys raw with
  | None, [] => true
  | _, _ => false
  end.
End CranRaw.

Module GithubDescriptor.
Record t := mk {
  commit : string;
  ref : option string;
  description : string;
  commit_timestamp : option string;
  url : option string
}.
End GithubDescriptor.

Module GithubCacheEntry.
Record t := mk {
  owner : string;
  repo : string;
  commit : string;
  ref : option string;
  timestamp : option string;
  url : option string;
  description : gmap string string
}.
End GithubCacheEntry.

(** One call of a function of [fetchers.py]. *)
Inductive fetch_call :=
| FetchCran (package : string)
| FetchBioconductor (release : string)
| FetchGithub (owner repo : string) (ref token : option string).

Global Instance fetch_call_eq_dec : EqDecision fetch_call.
Proof. solve_decision. Defined.

(** cache.py: [_sanitize] *)
Fixpoint _sanitize (segment : string) : string :=
  match segment with
  | EmptyString => EmptyString
  | String c s => if Str.is_char "/" c then String "_" (String "_" (_sanitize s))
                  else String c (_sanitize s)
  end.

Module MetadataProvider.

(** The provider: its three memos, the files of its cache by directory
    and sanitised file name, and the calls it has made to the fetchers,
    latest first. *)
Record t := mk {
  _cran : gmap string (list PackageVersion.t);
  _bioc : gmap string (gmap string PackageVersion.t);
  _github : gmap (string * string * string) PackageVersion.t;
  cache_cran : gmap string CranRaw.t;
  cache_bioconductor : gmap string (list (string * Payload.t));
  cache_github : gmap string GithubCacheEntry.t;
  fetched : list fetch_call
}.

Definition init : t := mk ∅ ∅ ∅ ∅ ∅ ∅ [].

Definition set_cran
    (f : gmap string (list PackageVersion.t)
     -> gmap string (list PackageVersion.t))
    (p : t) : t :=
  mk (f (_cran p)) (_bioc p) (_github p) (cache_cran p)
     (cache_bioconductor p) (cache_github p) (fetched p).
Definition set_bioc
    (f : gmap string (gmap string PackageVersion.t)
     -> gmap string (gmap string PackageVersion.t))
    (p : t) : t :=
  mk (_cran p) (f (_bioc p)) (_github p) (cache_cran p)
     (cache_bioconductor p) (cache_github p) (fetched p).
Definition set_github
    (f : gmap (string * string * string) PackageVersion.t
     -> gmap (string * string * string) PackageVersion.t)
    (p : t) : t :=
  mk (_cran p) (_bioc p) (f (_github p)) (cache_cran p)
     (cache_bioconductor p) (cache_github p) (fetched p).
Definition set_cache_cran (f : gmap string CranRaw.t -> gmap string CranRaw.t) (p : t) : t :=
  mk (_cran p) (_bioc p) (_github p) (f (cache_cran p))
     (cache_bioconductor p) (cache_github p) (fetched p).
Definition set_cache_bioconductor
    (f : gmap string (list (string * Payload.t))
     -> gmap string (list (string * Payload.t)))
    (p : t) : t :=
  mk (_cran p) (_bioc p) (_github p) (cache_cran p)
     (f (cache_bioconductor p)) (cache_github p) (fetched p).
Definition set_cache_github
    (f : gmap string GithubCacheEntry.t
     -> gmap string GithubCacheEntry.t)
    (p : t) : t :=
  mk (_cran p) (_bioc p) (_github p) (cache_cran p)
     (cache_bioconductor p) (f (cache_github p)) (fetched p).
Definition log_fetch (c : fetch_call) (p : t) : t :=
  mk (_cran p) (_bioc p) (_github p) (cache_cran p)
     (cache_bioconductor p) (cache_github p) (c :: fetched p).

(** How often a fetcher has been called with these arguments. *)
Definition fetch_count (c : fetch_call) (p : t) : nat :=
  List.length (List.filter (fun c' => bool_decide (c' = c)) (fetched p)).

Section Network.
(** The fetchers of [fetchers.py]. What they answer may depend on the
    calls made before; on an HTTP error they raise. *)
Variable fetch_cran_package : list fetch_call -> string -> res CranRaw.t.
Variable fetch_bioconductor_release : list fetch_call -> string -> res (list (string * Payload.t)).
Variable fetch_github_description :
  list fetch_call -> string -> string -> option string -> option string -> res GithubDescriptor.t.

Definition get_cran_versions (package : string) (self : t) : res (list PackageVersion.t) * t :=
  match _cran self !! package with
  | Some versions => (Ok versions, self)
  | None =>
      let cache_key := _sanitize (package ++ ".json")%string in
      let loaded := cache_cran self !! cache_key in
      let fetching :=
        match loaded with
        | Some raw => if CranRaw.is_empty raw then None else Some raw
        | None => None
        end in
      let step :=
        match fetching with
        | Some raw => (Ok raw, self)
        | None =>
            let self := log_fetch (FetchCran package) self in
            match fetch_cran_package (fetched self) package with
            | Raise e => (Raise e, self)
            | Ok raw => (Ok raw, set_cache_cran (insert cache_key raw) self)
            end
        end in
      match step with
      | (Raise e, self) => (Raise e, self)
      | (Ok raw, self) =>
          let entries := match CranRaw.versions raw with Some vs => vs | None => [] end in
          let versions :=
            List.map (fun '(version, payload) => _normalize_cran_payload package payload version)
                     entries in
          let versions := stable_sort_reverse version_key_lt versions in
          (Ok versions, set_cran (insert package versions) self)
      end
  end.

Definition _load_bioc_release (release : string) (self : t)
    : res (gmap string PackageVersion.t) * t :=
  match _bioc self !! release with
  | Some normalized => (Ok normalized, self)
  | None =>
      let cache_key := _sanitize (release ++ ".json")%string in
      let fetching :=
        match cache_bioconductor self !! cache_key with
        | Some raw => match raw with [] => None | _ => Some raw end
        | None => None
        end in
      let step :=
        match fetching with
        | Some raw => (Ok raw, self)
        | None =>
            let self := log_fetch (FetchBioconductor release) self in
            match fetch_bioconductor_release (fetched self) release with
            | Raise e => (Raise e, self)
            | Ok raw => (Ok raw, set_cache_bioconductor (insert cache_key raw) self)
            end
        end in
      match step with
      | (Raise e, self) => (Raise e, self)
      | (Ok raw, self) =>
          let normalized :=
            List.fold_left
              (fun (acc : gmap string PackageVersion.t) '(name, payload) =>
                 <[name := _normalize_bioc_payload name payload release]> acc)
              raw ∅ in
          (Ok normalized, set_bioc (insert release normalized) self)
      end
  end.

Definition get_bioconductor_versions (package release : string) (self : t)
    : res (list PackageVersion.t) * t :=
  match _load_bioc_release release self with
  | (Raise e, self) => (Raise e, self)
  | (Ok release_data, self) =>
      match release_data !! package with
      | None => (Raise (MetadataFetchError
                          (package ++ " not found in Bioconductor release " ++ release)%string), self)
      | Some version => (Ok [version], self)
      end
  end.

Definition get_github_version (owner repo : string) (ref token : option string) (self : t)
    : res PackageVersion.t * t :=
  let self := log_fetch (FetchGithub owner repo ref token) self in
  match fetch_github_description (fetched self) owner repo ref token with
  | Raise e => (Raise e, self)
  | Ok descriptor =>
      let description := _parse_description (GithubDescriptor.description descriptor) in
      let info :=
        GithubMetadata.mk owner repo (GithubDescriptor.commit descriptor) description
          (GithubDescriptor.ref descriptor) (GithubDescriptor.url descriptor)
          (GithubDescriptor.commit_timestamp descriptor) in
      match _normalize_github_payload info with
      | Raise e => (Raise e, self)
      | Ok package_version =>
          let self :=
            set_github (insert (owner, repo, GithubMetadata.commit info) package_version) self in
          let cache_key :=
            _sanitize (owner ++ "__" ++ repo ++ "__" ++ GithubMetadata.commit info ++ ".json")%string in
          let payload :=
            GithubCacheEntry.mk owner repo (GithubMetadata.commit info) (GithubMetadata.ref info)
              (GithubMetadata.timestamp info) (GithubMetadata.url info) description in
          (Ok package_version, set_cache_github (insert cache_key payload) self)
      end
  end.

(** [package.split("/", 1)] for a package that contains a slash. *)
Definition split_slug (package : string) : string * string :=
  let '(owner, rest) := Str.span (fun c => negb (Str.is_char "/" c)) package in
  (owner, match rest with String _ repo => repo | EmptyString => EmptyString end).

Definition get_versions (package source : string)
    (bioc_release github_ref github_token : option string) (self : t)
    : res (list PackageVersion.t) * t :=
  let source := Str.lower source in
  if String.eqb source "cran" then get_cran_versions package self
  else if String.eqb source "bioc" || String.eqb source "bioconductor" then
    match bioc_release with
    | Some release =>
        if truthy bioc_release then get_bioconductor_versions package release self
        else (Raise (MetadataFetchError
                       "Bioconductor release must be specified for Bioconductor packages"), self)
    | None => (Raise (MetadataFetchError
                        "Bioconductor release must be specified for Bioconductor packages"), self)
    end
  else if String.eqb source "github" then
    if Str.all (fun c => negb (Str.is_char "/" c)) package
    then (Raise (MetadataFetchError "GitHub packages must be provided as owner/repo"), self)
    else
      let '(owner, repo) := split_slug package in
      match get_github_version owner repo github_ref github_token self with
      | (Raise e, self) => (Raise e, self)
      | (Ok version, self) => (Ok [version], self)
      end
  else (Raise (MetadataFetchError ("Unsupported source: " ++ source)%string), self).

End Network.

(** [BIOCONDUCTOR_R_MATRIX.get(release)] *)
Fixpoint lookup_table (table : list (string * string)) (key : string) : option string :=
  match table with
  | [] => None
  | (k, v) :: rest => if String.eqb k key then Some v else lookup_table rest key
  end.

Definition bioconductor_r_version_in (table : list (string * string)) (release : string)
    : option string :=
  lookup_table table release.

Definition bioconductor_r_version (release : string) : option string :=
  bioconductor_r_version_in BIOCONDUCTOR_R_MATRIX release.

(** [sorted(table.keys())[-1]], or [None] for an empty table: the keys
    are sorted as plain strings. *)
Definition latest_bioconductor_release_in (table : list (string * string)) : option string :=
  match table with
  | [] => None
  | _ => List.last (List.map Some (stable_sort String.ltb (List.map fst table))) None
  end.

Definition latest_bioconductor_release : option string :=
  latest_bioconductor_release_in BIOCONDUCTOR_R_MATRIX.

End MetadataProvider.

(** ** solver.py *)

Module TargetContext.
Record t := mk {
  identifier : string;
  package : string;
  source : string;
  constraints : list VersionConstraint.t;
  bioc_release : option string;
  github_ref : option string;
  github_token : option string;
  github_slug : option string
}.

Definition set_bioc_release (release : option string) (target : t) : t :=
  mk (identifier target) (package target) (source target) (constraints target)
     release (github_ref target) (github_token target) (github_slug target).
End TargetContext.

Module PackageRequest.
Record t := mk {
  package : string;
  source : option string;
  constraints : list VersionConstraint.t;
  required_by : list string;
  bioc_release : option string;
  github_ref : option string;
  github_token : option string;
  github_slug : option string
}.
End PackageRequest.

Module ResolutionState.
Record t := mk {
  candidate_r : string;
  include_optional : bool;
  prefer_bioc_release : option string;
  assignments : gmap string PackageSelection.t;
  constraints : gmap string (list VersionConstraint.t);
  visiting : gset string;
  failure_traces : list Conflict.t
}.

Definition set_assignments (f : gmap string PackageSelection.t -> gmap string PackageSelection.t)
    (state : t) : t :=
  mk (candidate_r state) (include_optional state) (prefer_bioc_release state)
     (f (assignments state)) (constraints state) (visiting state) (failure_traces state).

Definition set_constraints
    (f : gmap string (list VersionConstraint.t) -> gmap string (list VersionConstraint.t))
    (state : t) : t :=
  mk (candidate_r state) (include_optional state) (prefer_bioc_release state)
     (assignments state) (f (constraints state)) (visiting state) (failure_traces state).

Definition set_visiting (f : gset string -> gset string) (state : t) : t :=
  mk (candidate_r state) (include_optional state) (prefer_bioc_release state)
     (assignments state) (constraints state) (f (visiting state)) (failure_traces state).
End ResolutionState.

(** What the solver sees of a provider: the answers of
    [metadata.get_versions(package, source, bioc_release, github_ref,
    github_token)]. The provider is frozen during a resolution: the same
    question gets the same answer. *)
Definition provider : Type :=
  string -> string -> option string -> option string -> option string ->
  res (list PackageVersion.t).

Module EnvironmentSolver.
Record t := mk {
  metadata : provider;
  include_optional : bool;
  prefer_bioc_release : option string
}.
End EnvironmentSolver.

(** The result of a computation that recurses: a value, an exception, or
    no answer within the given recursion depth. *)
Inductive outcome (A : Type) :=
| Return (a : A)
| Throw (e : exn)
| OutOfFuel.
Arguments Return {A} a.
Arguments Throw {A} e.
Arguments OutOfFuel {A}.

Definition _infer_source (parent : PackageSelection.t) (dependency : Dependency.t) : option string :=
  if String.eqb (Str.lower (PackageSelection.repo parent)) "bioconductor" then Some "bioc"
  else if String.eqb (Str.lower (PackageSelection.repo parent)) "github" then None
  else None.

Definition _infer_bioc_release (self : EnvironmentSolver.t) (parent : PackageSelection.t)
    (dependency : Dependency.t) (parent_release : option string) : option string :=
  if String.eqb (Str.lower (PackageSelection.repo parent)) "bioconductor" then
    py_or (PackageSelection.bioc_release parent)
          (py_or parent_release (EnvironmentSolver.prefer_bioc_release self))
  else None.

Definition _load_versions_for_source (self : EnvironmentSolver.t) (request : PackageRequest.t)
    (source : string) : res (list PackageVersion.t) :=
  let source := Str.lower source in
  if String.eqb source "cran" then
    EnvironmentSolver.metadata self (PackageRequest.package request) "cran" None None None
  else if String.eqb source "bioc" || String.eqb source "bioconductor" then
    let release :=
      py_or (PackageRequest.bioc_release request)
            (py_or (EnvironmentSolver.prefer_bioc_release self)
                   MetadataProvider.latest_bioconductor_release) in
    if truthy release then
      EnvironmentSolver.metadata self (PackageRequest.package request) "bioc" release None None
    else Raise (MetadataFetchError "No Bioconductor release available")
  else if String.eqb source "github" then
    let slug :=
      match py_or (PackageRequest.github_slug request) (Some (PackageRequest.package request)) with
      | Some s => s
      | None => PackageRequest.package request
      end in
    EnvironmentSolver.metadata self slug "github" None
      (PackageRequest.github_ref request) (PackageRequest.github_token request)
  else Raise (MetadataFetchError ("Unsupported source " ++ source)%string).

Definition source_order_of (request : PackageRequest.t) : list string :=
  let source_order :=
    match PackageRequest.source request with
    | Some s => if truthy (PackageRequest.source request) then [s] else []
    | None => []
    end in
  List.fold_left
    (fun order fallback => if Str.mem fallback order then order else order ++ [fallback])
    ["cran"; "bioc"] source_order.

Definition seen_mem (key : string * string) (seen : list (string * string)) : bool :=
  existsb (fun k => String.eqb (fst k) (fst key) && String.eqb (snd k) (snd key)) seen.

(** The inner loop of [_candidate_versions] over the versions of one
    source. *)
Fixpoint collect_versions (candidate_r : string) (constraints : list VersionConstraint.t)
    (versions : list PackageVersion.t) (seen : list (string * string))
    (results : list PackageVersion.t)
    : res (list (string * string) * list PackageVersion.t) :=
  match versions with
  | [] => Ok (seen, results)
  | version :: rest =>
      let skip_r :=
        match PackageVersion.r_min version with
        | Some r_min =>
            truthy (PackageVersion.r_min version) && (compare_versions candidate_r r_min <? 0)%Z
        | None => false
        end in
      if skip_r then collect_versions candidate_r constraints rest seen results
      else
        let checked :=
          match constraints with
          | [] => Ok true
          | _ => satisfies_all (PackageVersion.version version) constraints
          end in
        match checked with
        | Raise e => Raise e
        | Ok false => collect_versions candidate_r constraints rest seen results
        | Ok true =>
            let key := (PackageVersion.repo version, PackageVersion.version version) in
            if seen_mem key seen then collect_versions candidate_r constraints rest seen results
            else collect_versions candidate_r constraints rest (seen ++ [key]) (results ++ [version])
        end
  end.

(** The outer loop over the sources; a source whose load raises
    [MetadataFetchError] is passed over. *)
Fixpoint collect_sources (self : EnvironmentSolver.t) (request : PackageRequest.t)
    (candidate_r : string) (constraints : list VersionConstraint.t) (sources : list string)
    (seen : list (string * string)) (results : list PackageVersion.t)
    : res (list PackageVersion.t) :=
  match sources with
  | [] => Ok results
  | source :: rest =>
      match _load_versions_for_source self request source with
      | Raise (MetadataFetchError _) =>
          collect_sources self request candidate_r constraints rest seen results
      | Raise e => Raise e
      | Ok versions =>
          match collect_versions candidate_r constraints versions seen results with
          | Raise e => Raise e
          | Ok (seen', results') =>
              collect_sources self request candidate_r constraints rest seen' results'
          end
      end
  end.

Fixpoint source_priority_from (idx : nat) (source_order : list string) (repo : string) : nat :=
  match source_order with
  | [] => idx
  | src :: rest =>
      if Str.startswith repo (Str.take 4 src) then idx
      else source_priority_from (S idx) rest repo
  end.

Definition source_priority (source_order : list string) (version : PackageVersion.t) : nat :=
  source_priority_from 0 source_order (Str.lower (PackageVersion.repo version)).

Definition _candidate_versions (self : EnvironmentSolver.t) (request : PackageRequest.t)
    (state : ResolutionState.t) (constraints : list VersionConstraint.t)
    : res (list PackageVersion.t) :=
  let source_order := source_order_of request in
  match collect_sources self request (ResolutionState.candidate_r state) constraints
          source_order [] [] with
  | Raise e => Raise e
  | Ok results =>
      let results := stable_sort_reverse version_key_lt results in
      let results :=
        stable_sort (fun a b => (source_priority source_order a <? source_priority source_order b)%nat)
                    results in
      Ok results
  end.

Definition selection_of (candidate : PackageVersion.t) : PackageSelection.t :=
  PackageSelection.mk (PackageVersion.name candidate) (PackageVersion.version candidate)
    (PackageVersion.repo candidate) (PackageVersion.source_url candidate)
    (PackageVersion.dependencies candidate) (PackageVersion.r_min candidate)
    (PackageVersion.bioc_release candidate).

(** [repr] of a list of strings that need no escaping. *)
Definition repr_list (l : list string) : string :=
  ("[" ++ Str.join ", " (List.map (fun s => "'" ++ s ++ "'") l) ++ "]")%string.

Fixpoint dedup_strings (l : list string) : list string :=
  match l with
  | [] => []
  | x :: l' => x :: List.filter (fun y => negb (String.eqb x y)) (dedup_strings l')
  end.

(** [", ".join(sorted({f.message for f in failures})) or "Unresolvable
    dependency chain"] *)
Definition failure_message (failures : list ResolutionError.t) : string :=
  let joined :=
    Str.join ", " (stable_sort String.ltb (dedup_strings (List.map ResolutionError.message failures))) in
  if Str.is_empty joined then "Unresolvable dependency chain" else joined.

Section Resolve.
Variable self : EnvironmentSolver.t.

(** The recursive call of [_resolve_package], one level deeper. *)
Variable resolve_package :
  PackageRequest.t -> ResolutionState.t -> outcome PackageSelection.t * ResolutionState.t.

Definition child_request (selection : PackageSelection.t) (request : PackageRequest.t)
    (dependency : Dependency.t) : PackageRequest.t :=
  PackageRequest.mk (Dependency.name dependency)
    (_infer_source selection dependency)
    (Dependency.constraints dependency)
    (PackageRequest.required_by request ++ [PackageSelection.package selection])
    (_infer_bioc_release self selection dependency (PackageRequest.bioc_release request))
    None None None.

(** The loop of [_resolve_dependencies]. *)
Fixpoint resolve_dependency_list (dependencies : list Dependency.t)
    (selection : PackageSelection.t) (request : PackageRequest.t) (state : ResolutionState.t)
    : outcome unit * ResolutionState.t :=
  match dependencies with
  | [] => (Return tt, state)
  | dependency :: rest =>
      if Dependency.optional dependency && negb (ResolutionState.include_optional state)
      then resolve_dependency_list rest selection request state
      else
        match resolve_package (child_request selection request dependency) state with
        | (Return _, state) => resolve_dependency_list rest selection request state
        | (Throw e, state) => (Throw e, state)
        | (OutOfFuel, state) => (OutOfFuel, state)
        end
  end.

Definition resolve_dependencies_with (selection : PackageSelection.t)
    (request : PackageRequest.t) (state : ResolutionState.t)
    : outcome unit * ResolutionState.t :=
  resolve_dependency_list (PackageSelection.dependencies selection) selection request state.

(** [state.visiting.remove(package)] *)
Definition visiting_remove (package : string) (state : ResolutionState.t)
    : res ResolutionState.t :=
  if bool_decide (package ∈ ResolutionState.visiting state)
  then Ok (ResolutionState.set_visiting (fun v => v ∖ {[package]}) state)
  else Raise (KeyError package).

(** [del state.assignments[package]] *)
Definition assignments_del (package : string) (state : ResolutionState.t)
    : res ResolutionState.t :=
  match ResolutionState.assignments state !! package with
  | Some _ => Ok (ResolutionState.set_assignments (delete package) state)
  | None => Raise (KeyError package)
  end.

(** What follows the loop over the candidates once all have failed. *)
Definition exhausted (request : PackageRequest.t)
    (aggregated_constraints previous_constraints : list VersionConstraint.t)
    (candidates : list PackageVersion.t) (failures : list ResolutionError.t)
    (state : ResolutionState.t) : outcome PackageSelection.t * ResolutionState.t :=
  let package := PackageRequest.package request in
  match visiting_remove package state with
  | Raise e => (Throw e, state)
  | Ok state =>
      let state :=
        match previous_constraints with
        | [] => ResolutionState.set_constraints (delete package) state
        | _ => ResolutionState.set_constraints (insert package previous_constraints) state
        end in
      let merged_candidates :=
        List.map (fun cand => (PackageVersion.repo cand ++ " " ++ PackageVersion.version cand)%string)
                 candidates in
      (Throw (ResolutionErr
                (ResolutionError.mk package (PackageRequest.required_by request)
                   (failure_message failures) (Some merged_candidates))), state)
  end.

(** The loop of [_resolve_package] over the candidates. [all_candidates]
    is the whole list, [candidates] what is left of it. *)
Fixpoint try_candidates (request : PackageRequest.t)
    (aggregated_constraints previous_constraints : list VersionConstraint.t)
    (all_candidates candidates : list PackageVersion.t) (failures : list ResolutionError.t)
    (state : ResolutionState.t) : outcome PackageSelection.t * ResolutionState.t :=
  let package := PackageRequest.package request in
  match candidates with
  | [] => exhausted request aggregated_constraints previous_constraints all_candidates failures state
  | candidate :: rest =>
      let selection := selection_of candidate in
      let state := ResolutionState.set_assignments (insert package selection) state in
      let state := ResolutionState.set_constraints (insert package aggregated_constraints) state in
      match resolve_dependencies_with selection request state with
      | (Return _, state) =>
          match visiting_remove package state with
          | Ok state => (Return selection, state)
          | Raise e => (Throw e, state)
          end
      | (Throw (ResolutionErr error), state) =>
          match assignments_del package state with
          | Ok state =>
              try_candidates request aggregated_constraints previous_constraints
                all_candidates rest (failures ++ [error]) state
          | Raise e => (Throw e, state)
          end
      | (Throw e, state) => (Throw e, state)
      | (OutOfFuel, state) => (OutOfFuel, state)
      end
  end.

Definition resolve_package_body (request : PackageRequest.t) (state : ResolutionState.t)
    : outcome PackageSelection.t * ResolutionState.t :=
  let package := PackageRequest.package request in
  if bool_decide (package ∈ ResolutionState.visiting state) then
    match ResolutionState.assignments state !! package with
    | Some selection => (Return selection, state)
    | None =>
        (Throw (ResolutionErr
                  (ResolutionError.mk package (PackageRequest.required_by request)
                     "Dependency cycle detected" None)), state)
    end
  else
    let existing_selection := ResolutionState.assignments state !! package in
    let stored :=
      match ResolutionState.constraints state !! package with
      | Some cs => cs
      | None => []
      end in
    let aggregated_constraints := stored ++ PackageRequest.constraints request in
    match existing_selection with
    | Some existing =>
        match satisfies_all (PackageSelection.version existing) aggregated_constraints with
        | Raise e => (Throw e, state)
        | Ok false =>
            (Throw (ResolutionErr
                      (ResolutionError.mk package (PackageRequest.required_by request)
                         ("Selected version " ++ PackageSelection.version existing
                          ++ " does not satisfy new constraints "
                          ++ repr_list
                               (List.map (fun c => (VersionConstraint.operator c
                                                    ++ VersionConstraint.version c)%string)
                                         (PackageRequest.constraints request)))%string
                         (Some [PackageSelection.version existing]))), state)
        | Ok true =>
            let too_new :=
              match PackageSelection.r_min existing with
              | Some r_min =>
                  truthy (PackageSelection.r_min existing)
                  && (compare_versions (ResolutionState.candidate_r state) r_min <? 0)%Z
              | None => false
              end in
            if too_new then
              (Throw (ResolutionErr
                        (ResolutionError.mk package (PackageRequest.required_by request)
                           ("Selected version " ++ PackageSelection.version existing
                            ++ " requires R>="
                            ++ match PackageSelection.r_min existing with
                               | Some r => r
                               | None => "None"
                               end)%string
                           (Some [PackageSelection.version existing]))), state)
            else
              (Return existing,
               ResolutionState.set_constraints (insert package aggregated_constraints) state)
        end
    | None =>
        match _candidate_versions self request state aggregated_constraints with
        | Raise e => (Throw e, state)
        | Ok [] =>
            (Throw (ResolutionErr
                      (ResolutionError.mk package (PackageRequest.required_by request)
                         "No candidate versions satisfy constraints" (Some ["(none)"]))), state)
        | Ok candidates =>
            let state := ResolutionState.set_visiting (fun v => v ∪ {[package]}) state in
            try_candidates request aggregated_constraints stored candidates candidates [] state
        end
    end.
End Resolve.

(** [EnvironmentSolver._resolve_package]; [fuel] bounds the depth of the
    recursion through [_resolve_dependencies]. *)
Fixpoint _resolve_package (fuel : nat) (self : EnvironmentSolver.t) (request : PackageRequest.t)
    (state : ResolutionState.t) : outcome PackageSelection.t * ResolutionState.t :=
  match fuel with
  | O => (OutOfFuel, state)
  | S fuel' => resolve_package_body self (_resolve_package fuel' self) request state
  end.

Definition _resolve_dependencies (fuel : nat) (self : EnvironmentSolver.t)
    (selection : PackageSelection.t) (request : PackageRequest.t) (state : ResolutionState.t)
    : outcome unit * ResolutionState.t :=
  resolve_dependencies_with self (_resolve_package fuel self) selection request state.

Definition request_of_target (target : TargetContext.t) : PackageRequest.t :=
  PackageRequest.mk (TargetContext.package target) (Some (TargetContext.source target))
    (TargetContext.constraints target) [TargetContext.identifier target]
    (TargetContext.bioc_release target) (TargetContext.github_ref target)
    (TargetContext.github_token target) None.

Fixpoint solve_targets (fuel : nat) (self : EnvironmentSolver.t) (targets : list TargetContext.t)
    (state : ResolutionState.t) : outcome unit * ResolutionState.t :=
  match targets with
  | [] => (Return tt, state)
  | target :: rest =>
      match _resolve_package fuel self (request_of_target target) state with
      | (Return _, state) => solve_targets fuel self rest state
      | (Throw e, state) => (Throw e, state)
      | (OutOfFuel, state) => (OutOfFuel, state)
      end
  end.

Definition initial_state (self : EnvironmentSolver.t) (candidate_r : string) : ResolutionState.t :=
  ResolutionState.mk candidate_r (EnvironmentSolver.include_optional self)
    (EnvironmentSolver.prefer_bioc_release self) ∅ ∅ ∅ [].

(** [EnvironmentSolver.solve] *)
Definition solve (fuel : nat) (self : EnvironmentSolver.t) (targets : list TargetContext.t)
    (candidate_r : string) : outcome ResolutionPlan.t :=
  match solve_targets fuel self targets (initial_state self candidate_r) with
  | (Return _, state) =>
      Return (ResolutionPlan.mk candidate_r (ResolutionState.assignments state) [])
  | (Throw e, _) => Throw e
  | (OutOfFuel, _) => OutOfFuel
  end.

(** *** compute_resolution *)

(** [requirements[release] = required_r] on a dict kept as the list of
    its items in insertion order. *)
Fixpoint dict_set (key value : string) (d : list (string * string)) : list (string * string) :=
  match d with
  | [] => [(key, value)]
  | (k, v) :: rest =>
      if String.eqb k key then (k, value) :: rest else (k, v) :: dict_set key value rest
  end.

(** [_bioc_release_requirements]: the requirements and the targets, whose
    [bioc_release] the loop sets. *)
Fixpoint _bioc_release_requirements_loop (targets : list TargetContext.t)
    (default_release : option string) (requirements : list (string * string))
    : list (string * string) * list TargetContext.t :=
  match targets with
  | [] => (requirements, [])
  | target :: rest =>
      let source := TargetContext.source target in
      if negb (String.eqb source "bioc" || String.eqb source "bioconductor") then
        let '(reqs, rest') := _bioc_release_requirements_loop rest default_release requirements in
        (reqs, target :: rest')
      else
        let release :=
          py_or (TargetContext.bioc_release target)
                (py_or default_release MetadataProvider.latest_bioconductor_release) in
        match release with
        | Some rel =>
            if truthy release then
              let required_r := MetadataProvider.bioconductor_r_version rel in
              match required_r with
              | Some r =>
                  if truthy required_r then
                    let '(reqs, rest') :=
                      _bioc_release_requirements_loop rest default_release
                        (dict_set rel r requirements) in
                    (reqs, TargetContext.set_bioc_release release target :: rest')
                  else
                    let '(reqs, rest') :=
                      _bioc_release_requirements_loop rest default_release requirements in
                    (reqs, target :: rest')
              | None =>
                  let '(reqs, rest') :=
                    _bioc_release_requirements_loop rest default_release requirements in
                  (reqs, target :: rest')
              end
            else
              let '(reqs, rest') :=
                _bioc_release_requirements_loop rest default_release requirements in
              (reqs, target :: rest')
        | None =>
            let '(reqs, rest') :=
              _bioc_release_requirements_loop rest default_release requirements in
            (reqs, target :: rest')
        end
  end.

Definition _bioc_release_requirements (targets : list TargetContext.t)
    (default_release : option string) : list (string * string) * list TargetContext.t :=
  _bioc_release_requirements_loop targets default_release [].

(** A keyword argument of a call. *)
Inductive pyvalue :=
| PyStr (s : string)
| PyList (l : list string).

Fixpoint kwargs_get (name : string) (kwargs : list (string * pyvalue)) : option pyvalue :=
  match kwargs with
  | [] => None
  | (k, v) :: rest => if String.eqb k name then Some v else kwargs_get name rest
  end.

(** The [__init__] that [@dataclass] generates for [Conflict], called with
    keyword arguments only: a keyword that names no field is a
    [TypeError], as is a missing field without default;
    [candidates_considered] defaults to the empty list. The arguments at
    the call sites are strings and lists of strings as the fields expect. *)
Definition Conflict_init (kwargs : list (string * pyvalue)) : res Conflict.t :=
  match List.find (fun kv => negb (Str.mem (fst kv) Conflict.fields)) kwargs with
  | Some (k, _) =>
      Raise (TypeError ("Conflict.__init__() got an unexpected keyword argument '" ++ k ++ "'")%string)
  | None =>
      match kwargs_get "package" kwargs, kwargs_get "required_by" kwargs,
            kwargs_get "message" kwargs with
      | Some (PyStr package), Some (PyList required_by), Some (PyStr message) =>
          match kwargs_get "candidates_considered" kwargs with
          | Some (PyList candidates) => Ok (Conflict.mk package required_by message candidates)
          | Some (PyStr _) => Raise (TypeError "candidates_considered")
          | None => Ok (Conflict.mk package required_by message [])
          end
      | _, _, _ =>
          Raise (TypeError "Conflict.__init__() missing required positional arguments")
      end
  end.

(** The [Conflict(...)] call in both handlers of [compute_resolution]. *)
Definition conflict_of_error (error : ResolutionError.t) : res Conflict.t :=
  Conflict_init
    [ ("package", PyStr (ResolutionError.package error));
      ("required_by", PyList (ResolutionError.required_by error));
      ("message", PyStr (ResolutionError.message error));
      ("candidates", PyList (match ResolutionError.candidates error with
                             | Some l => l
                             | None => []
                             end)) ].

(** Elements of a list of versions that are equal by [__eq__], first
    occurrences kept: the members of the [set] built from the list. *)
Fixpoint dedup_versions (l : list RVersion) : list RVersion :=
  match l with
  | [] => []
  | v :: l' => v :: List.filter (fun w => negb (RVersion_eq v w)) (dedup_versions l')
  end.

Section ComputeResolution.
(** The order in which a [set] of versions built from the given distinct
    members is iterated. It is fixed by the hashes of the members and so
    by the interpreter; the model leaves it open. *)
Variable set_order : list RVersion -> list RVersion.

Definition sorted_set (l : list RVersion) : list RVersion :=
  stable_sort RVersion_lt (set_order (dedup_versions l)).

Definition candidate_r_versions (release_requirements : list (string * string)) : list RVersion :=
  let candidate_versions := sorted_set (List.map RVersion_init SUPPORTED_R_VERSIONS) in
  let candidate_versions :=
    candidate_versions ++ List.map (fun '(_, required_r) => RVersion_init required_r)
                                   release_requirements in
  sorted_set candidate_versions.

Definition incompatible (release_requirements : list (string * string)) (candidate_str : string)
    : bool :=
  existsb (fun '(_, required_r) => (compare_versions candidate_str required_r <? 0)%Z)
          release_requirements.

(** The loop of [compute_resolution] over the candidate R versions. *)
Fixpoint try_r_versions (fuel : nat) (solver : EnvironmentSolver.t)
    (targets : list TargetContext.t) (release_requirements : list (string * string))
    (candidates : list RVersion) (conflicts : list Conflict.t)
    : outcome (option ResolutionPlan.t * list Conflict.t) :=
  match candidates with
  | [] => Return (None, conflicts)
  | candidate :: rest =>
      let candidate_str := raw candidate in
      if incompatible release_requirements candidate_str
      then try_r_versions fuel solver targets release_requirements rest conflicts
      else
        match solve fuel solver targets candidate_str with
        | Return plan => Return (Some plan, conflicts)
        | Throw (ResolutionErr error) =>
            match conflict_of_error error with
            | Ok conflict =>
                try_r_versions fuel solver targets release_requirements rest
                  (conflicts ++ [conflict])
            | Raise e => Throw e
            end
        | Throw e => Throw e
        | OutOfFuel => OutOfFuel
        end
  end.

Definition compute_resolution (fuel : nat) (metadata : provider)
    (targets : list TargetContext.t) (include_optional : bool)
    (prefer_bioc_release : option string) (locked_r : option string)
    : outcome (option ResolutionPlan.t * list Conflict.t) :=
  let solver := EnvironmentSolver.mk metadata include_optional prefer_bioc_release in
  let default_release := py_or prefer_bioc_release MetadataProvider.latest_bioconductor_release in
  let '(release_requirements, cloned_targets) :=
    _bioc_release_requirements targets default_release in
  let conflicts : list Conflict.t := [] in
  match locked_r with
  | Some r =>
      if truthy locked_r then
        match solve fuel solver cloned_targets r with
        | Return plan => Return (Some plan, conflicts)
        | Throw (ResolutionErr error) =>
            match conflict_of_error error with
            | Ok conflict => Return (None, conflicts ++ [conflict])
            | Raise e => Throw e
            end
        | Throw e => Throw e
        | OutOfFuel => OutOfFuel
        end
      else
        try_r_versions fuel solver cloned_targets release_requirements
          (candidate_r_versions release_requirements) conflicts
  | None =>
      try_r_versions fuel solver cloned_targets release_requirements
        (candidate_r_versions release_requirements) conflicts
  end.
End ComputeResolution.

(** *** Providers for the scenarios of the specification *)

Definition table_lookup {V : Type} (key : string) (table : list (string * V)) : option V :=
  match List.find (fun kv => String.eqb (fst kv) key) table with
  | Some (_, v) => Some v
  | None => None
  end.

(** A provider that serves the given CRAN packages and Bioconductor
    releases and nothing else. *)
Definition preloaded (cran : list (string * list PackageVersion.t))
    (bioc : list (string * list (string * PackageVersion.t))) : provider :=
  fun package source bioc_release _ _ =>
    if String.eqb (Str.lower source) "cran" then
      match table_lookup package cran with
      | Some versions => Ok versions
      | None => Raise (MetadataFetchError ("Failed to fetch " ++ package)%string)
      end
    else if String.eqb (Str.lower source) "bioc" || String.eqb (Str.lower source) "bioconductor" then
      match bioc_release with
      | Some release =>
          match table_lookup release bioc with
          | Some packages =>
              match table_lookup package packages with
              | Some version => Ok [version]
              | None => Raise (MetadataFetchError (package ++ " not found in Bioconductor release")%string)
              end
          | None => Raise (MetadataFetchError "No packages found for Bioconductor release")
          end
      | None => Raise (MetadataFetchError "Bioconductor release must be specified")
      end
    else Raise (MetadataFetchError "Unsupported source").

Definition cran_version (name version : string) (r_min : option string)
    (dependencies : list Dependency.t) : PackageVersion.t :=
  PackageVersion.mk name version "CRAN" r_min dependencies None None [] None.

Definition bioc_version (name version release : string) (r_min : option string)
    (dependencies : list Dependency.t) : PackageVersion.t :=
  PackageVersion.mk name version "Bioconductor" r_min dependencies (Some release) None [] None.

Definition depends_on (name : string) (constraints : list VersionConstraint.t) : Dependency.t :=
  Dependency.mk name constraints "Depends" false None.

Definition cran_target (package : string) (constraints : list VersionConstraint.t) : TargetContext.t :=
  TargetContext.mk package package "cran" constraints None None None None.

Definition bioc_target (package release : string) : TargetContext.t :=
  TargetContext.mk package package "bioc" [] (Some release) None None None.

(** One order a set may be iterated in: that of insertion. *)
Definition insertion_order (l : list RVersion) : list RVersion := l.

(** Another: the members in reverse. *)
Definition reverse_order (l : list RVersion) : list RVersion := List.rev l.

(** ** Definitions that follow the words of the specification *)

(** The order on components: numbers numerically, then suffixes as
    strings. *)
Definition component_compare (a b : N * string) : comparison :=
  match N.compare (fst a) (fst b) with
  | Eq => String.compare (snd a) (snd b)
  | c => c
  end.

Definition Z_of_comparison (c : comparison) : Z :=
  match c with
  | Lt => (-1)%Z
  | Eq => 0%Z
  | Gt => 1%Z
  end.

(** The shorter tuple padded by [(0, "")] up to [n] components. *)
Definition pad_components (n : nat) (l : list (N * string)) : list (N * string) :=
  l ++ List.repeat fillvalue (n - List.length l).

(** Plain lexicographic comparison of two tuples of the same length: the
    first pair of components that differ decides. *)
Fixpoint lexicographic (l r : list (N * string)) : comparison :=
  match l, r with
  | x :: l', y :: r' =>
      match component_compare x y with
      | Eq => lexicographic l' r'
      | c => c
      end
  | _, _ => Eq
  end.

(** The comparison [_compare] computes, as a [comparison]. *)
Definition version_compare (a b : RVersion) : comparison :=
  let n := Nat.max (List.length (components a)) (List.length (components b)) in
  lexicographic (pad_components n (components a)) (pad_components n (components b)).

(** One of the operators [>=], [<=], [==], [=], [!=], [>], [<]. *)
Definition is_operator (op : string) : Prop :=
  op = ">=" \/ op = "<=" \/ op = "==" \/ op = "=" \/ op = "!=" \/ op = ">" \/ op = "<".

(** The class [[0-9A-Za-z_.-]] of the characters of a version token. *)
Definition in_token_class (c : ascii) : bool :=
  (Ascii.leb "0" c && Ascii.leb c "9")
  || (Ascii.leb "A" c && Ascii.leb c "Z")
  || (Ascii.leb "a" c && Ascii.leb c "z")
  || Ascii.eqb c "_" || Ascii.eqb c "." || Ascii.eqb c "-".

(** An occurrence at the start of [s]: an operator, white space if any,
    and a version token, a non-empty run of characters of the class that
    no further character of the class follows. *)
Definition token_at (s op v : string) : Prop :=
  exists ws rest : string,
    s = (op ++ ws ++ v ++ rest)%string
    /\ is_operator op
    /\ Str.all Str.is_space ws = true
    /\ v <> EmptyString
    /\ Str.all in_token_class v = true
    /\ match rest with
       | String c _ => in_token_class c = false
       | EmptyString => True
       end.


(** The first occurrence in [s]: no occurrence starts further left. *)
Definition first_token (s op v : string) : Prop :=
  exists pre suf,
    s = (pre ++ suf)%string /\ token_at suf op v
    /\ forall pre' suf' op' v',
         s = (pre' ++ suf')%string -> String.length pre' < String.length pre ->
         ~ token_at suf' op' v'.



(** A comparison that is a total order up to the equivalence [cmp = Eq]. *)
Record preorder_cmp {A : Type} (cmp : A -> A -> comparison) : Prop := {
  cmp_refl : forall a, cmp a a = Eq;
  cmp_antisym : forall a b, cmp a b = CompOpp (cmp b a);
  cmp_lt_trans : forall a b c, cmp a b = Lt -> cmp b c = Lt -> cmp a c = Lt;
  cmp_eq_lt : forall a b c, cmp a b = Eq -> cmp b c = Lt -> cmp a c = Lt;
  cmp_lt_eq : forall a b c, cmp a b = Lt -> cmp b c = Eq -> cmp a c = Lt;
  cmp_eq_trans : forall a b c, cmp a b = Eq -> cmp b c = Eq -> cmp a c = Eq
}.


(** The comparison of [_compare] with its padding, as a [comparison]. *)
Fixpoint padded_compare (l r : list (N * string)) : comparison :=
  match l with
  | [] =>
      (fix right_only (r : list (N * string)) : comparison :=
         match r with
         | [] => Eq
         | y :: r' => match component_compare fillvalue y with
                      | Eq => right_only r'
                      | c => c
                      end
         end) r
  | x :: l' =>
      match r with
      | [] => match component_compare x fillvalue with
              | Eq => padded_compare l' []
              | c => c
              end
      | y :: r' => match component_compare x y with
                   | Eq => padded_compare l' r'
                   | c => c
                   end
      end
  end.


Definition head_or_fill (l : list (N * string)) : N * string :=
  match l with
  | [] => fillvalue
  | x :: _ => x
  end.


(** The [<] a comparison induces. *)
Definition ltb_of {A : Type} (cmp : A -> A -> comparison) (a b : A) : bool :=
  match cmp a b with
  | Lt => true
  | _ => false
  end.

(** [a] is not above [b]: what a sort by [lt] leaves between neighbours. *)
Definition not_above {A : Type} (lt : A -> A -> bool) (a b : A) : Prop := lt b a = false.

(** A version whose [r_min], if any, is not above the candidate R: the
    test of [_candidate_versions]. *)
Definition compatible (candidate_r : string) (version : PackageVersion.t) : bool :=
  negb match PackageVersion.r_min version with
       | Some r_min =>
           truthy (PackageVersion.r_min version) && (compare_versions candidate_r r_min <? 0)%Z
       | None => false
       end.


Definition version_key (v : PackageVersion.t) : string * string :=
  (PackageVersion.repo v, PackageVersion.version v).

(** The order of [version_key_lt] is that of a preorder on package
    versions. *)
Definition package_version_compare (a b : PackageVersion.t) : comparison :=
  padded_compare (components (RVersion_init (PackageVersion.version a)))
                 (components (RVersion_init (PackageVersion.version b))).

(** The order of versions as a [comparison]. *)
Definition RVersion_compare (a b : RVersion) : comparison :=
  padded_compare (components a) (components b).

(** The supported R versions as versions, and with the series that
    Bioconductor 3.17 requires. *)
Definition supported_versions : list RVersion := List.map RVersion_init SUPPORTED_R_VERSIONS.

Definition with_series_4_3 : list RVersion := supported_versions ++ [RVersion_init "4.3"].

(** Strictly ascending, and ascending with ties allowed. *)
Definition strictly_ascending (l : list RVersion) : Prop :=
  StronglySorted (fun a b => RVersion_lt a b = true) l.

Definition ascending (l : list RVersion) : Prop :=
  StronglySorted (not_above RVersion_lt) l.

(** Scenario: limma on Bioconductor 3.17, whose table entry is R 4.3. *)
Definition limma_provider : provider :=
  preloaded [] [("3.17", [("limma", bioc_version "limma" "3.56.2" "3.17" (Some "3.6.0") [])])].

Definition limma_solver : EnvironmentSolver.t := EnvironmentSolver.mk limma_provider false None.

Definition limma_target : TargetContext.t := bioc_target "limma" "3.17".

Definition limma_plan (r_version : string) : ResolutionPlan.t :=
  ResolutionPlan.mk r_version
    (<["limma" := selection_of (bioc_version "limma" "3.56.2" "3.17" (Some "3.6.0") [])]> ∅) [].

(** Scenario: a CRAN package whose only version needs R 4.0. *)
Definition needs_r4_provider : provider :=
  preloaded [("ggplot2", [cran_version "ggplot2" "3.5.0" (Some "4.0") []])] [].

Definition needs_r4_target : TargetContext.t := cran_target "ggplot2" [].

Definition needs_r4_plan : ResolutionPlan.t :=
  ResolutionPlan.mk "4.0.0"
    (<["ggplot2" := selection_of (cran_version "ggplot2" "3.5.0" (Some "4.0") [])]> ∅) [].

(** *** The components of a version, in the words of the specification *)

(** The value of a run of decimal digits: every digit weighs ten times
    the digit after it. *)
Fixpoint decimal_value (digits : string) : N :=
  match digits with
  | EmptyString => 0%N
  | String c rest =>
      ((N_of_ascii c - 48) * 10 ^ N.of_nat (String.length rest) + decimal_value rest)%N
  end.

(** The three separators of a version. *)
Definition is_separator (c : ascii) : bool :=
  Ascii.eqb c "." || Ascii.eqb c "_" || Ascii.eqb c "-".

(** The pieces of a text between its separators, read from the left;
    [current] is the piece that is being read. *)
Fixpoint pieces (current s : string) : list string :=
  match s with
  | EmptyString => [current]
  | String c s' =>
      if is_separator c then current :: pieces EmptyString s'
      else pieces (current ++ String c EmptyString) s'
  end.

(** The leading digit run of a token, and the tail that follows it. *)
Fixpoint digit_run (token : string) : string :=
  match token with
  | String c rest => if Str.is_digit c then String c (digit_run rest) else EmptyString
  | EmptyString => EmptyString
  end.

Fixpoint tail_after_digits (token : string) : string :=
  match token with
  | String c rest => if Str.is_digit c then tail_after_digits rest else token
  | EmptyString => EmptyString
  end.

(** A component [(n, suffix)]: the value of the digit run, 0 if there
    is none, and the remainder, empty for a number. *)
Definition component_of (token : string) : N * string :=
  (decimal_value (digit_run token), tail_after_digits token).

(** The tuple of components of a version; a version without any token
    has the single component [(0, "")]. *)
Definition components_of (version : string) : list (N * string) :=
  match List.filter (fun piece => negb (String.eqb piece "")) (pieces "" version) with
  | [] => [(0%N, "")]
  | tokens => List.map component_of tokens
  end.

(** Lexicographic comparison of two tuples, the shorter one padded by
    [(0, "")]. *)
Definition compare_tuples (l r : list (N * string)) : comparison :=
  let n := Nat.max (List.length l) (List.length r) in
  lexicographic (pad_components n l) (pad_components n r).

(** [int(s)] returns for at most this many digits: the default of
    [sys.get_int_max_str_digits()]. *)
Definition int_max_str_digits : nat := 4300.

Definition within_int_limit (s : string) : bool :=
  (String.length s <=? int_max_str_digits)%nat.

(** Version text: letters, digits and separators, short enough for
    every digit run to be converted. *)
Definition version_text (s : string) : bool :=
  Str.all (fun c => Str.is_alnum c || is_separator c) s && within_int_limit s.

(** ** Scenarios and auxiliary notions of the properties *)

(** The operator [op] matches at the start of [s] and is followed by the
    version [v]. *)
Definition operator_match (op s : string) : option string :=
  match drop_prefix op s with
  | Some rest => match_version_token rest
  | None => None
  end.

Definition payload_with (depends imports : section) : Payload.t :=
  Payload.mk depends imports SecAbsent SecAbsent ∅.

(** The base packages the filter does remove: those whose name is its own
    lower-case form. *)
Definition lowercase_base_packages : list string :=
  [ "base"; "compiler"; "datasets"; "graphics"; "grid"; "methods"; "parallel";
    "splines"; "stats"; "stats4"; "tcltk"; "tools"; "utils" ].

(** A network on which every fetch succeeds: one CRAN package, one
    Bioconductor package per release, one fixed commit per repository. *)
Definition newline : string := String "010" EmptyString.

Definition steady_cran (_ : list fetch_call) (package : string) : res CranRaw.t :=
  Ok (CranRaw.mk (Some [("1.0", payload_with SecAbsent SecAbsent)]) []).

Definition steady_bioc (_ : list fetch_call) (release : string)
    : res (list (string * Payload.t)) :=
  Ok [("limma", payload_with SecAbsent SecAbsent)].

Definition steady_github (_ : list fetch_call) (owner repo : string)
    (ref token : option string) : res GithubDescriptor.t :=
  Ok (GithubDescriptor.mk "0a1b2c" (Some "main")
        ("Package: PrettyName" ++ newline ++ "Version: 1.0" ++ newline)%string None None).

Definition twice_github : res PackageVersion.t * res PackageVersion.t * MetadataProvider.t :=
  let '(first, p1) :=
    MetadataProvider.get_github_version steady_github "user" "MyPkg" None None
      MetadataProvider.init in
  let '(second, p2) :=
    MetadataProvider.get_github_version steady_github "user" "MyPkg" None None p1 in
  (first, second, p2).

Definition pretty_name : PackageVersion.t :=
  PackageVersion.mk "PrettyName" "1.0" "GitHub" None [] None None
    [("commit", "0a1b2c"); ("repo", "user/MyPkg"); ("ref", "main")] None.

(** No call removes a selection that was there when it started: the
    only deletion is that of the tentative assignment of the package the
    call itself is resolving. *)
Definition keeps_assignments
    (rp : PackageRequest.t -> ResolutionState.t -> outcome PackageSelection.t * ResolutionState.t)
    : Prop :=
  forall request state,
    ResolutionState.assignments state ⊆ ResolutionState.assignments (snd (rp request state)).

Definition orphan_provider : provider :=
  preloaded
    [ ("P", [ cran_version "P" "2.0" None
                [ depends_on "X" [];
                  depends_on "Y" [VersionConstraint.mk ">=" "2.0"] ];
              cran_version "P" "1.0" None [] ]);
      ("X", [cran_version "X" "1.0" None []]);
      ("Y", [cran_version "Y" "1.0" None []]) ]
    [].

Definition orphan_solver : EnvironmentSolver.t := EnvironmentSolver.mk orphan_provider false None.

Definition orphan_plan : ResolutionPlan.t :=
  ResolutionPlan.mk "4.0.0"
    (<["P" := selection_of (cran_version "P" "1.0" None [])]>
       (<["X" := selection_of (cran_version "X" "1.0" None [])]> ∅))
    [].

Definition foo_only : provider := preloaded [("foo", [cran_version "foo" "1.0" None []])] [].

Definition foo_target : TargetContext.t := cran_target "foo" [VersionConstraint.mk ">=" "9.9"].

Definition cycle_provider : provider :=
  preloaded
    [ ("A", [ cran_version "A" "1.0" None [depends_on "B" []];
              cran_version "A" "2.0" (Some "4.1") [depends_on "B" []];
              cran_version "A" "1.5" (Some "3.5") [depends_on "B" []] ]);
      ("B", [ cran_version "B" "0.9" None [depends_on "A" []];
              cran_version "B" "1.1" None [depends_on "A" []] ]) ]
    [].

(** ** Further functions of the package *)

From Stdlib Require Import DecimalString.

(** *** rversion.py: [pick_highest_satisfying] *)

(** The list comprehension [[v for v in candidates if satisfies_all(v,
    constraints)]]: it raises where the first evaluation raises. *)
Fixpoint filter_satisfying (candidates : list string) (constraints : list VersionConstraint.t)
    : res (list string) :=
  match candidates with
  | [] => Ok []
  | version :: rest =>
      match satisfies_all version constraints with
      | Raise e => Raise e
      | Ok keep =>
          match filter_satisfying rest constraints with
          | Raise e => Raise e
          | Ok filtered => Ok (if keep then version :: filtered else filtered)
          end
      end
  end.

Definition raw_key_lt (a b : string) : bool := RVersion_lt (RVersion_init a) (RVersion_init b).

Definition pick_highest_satisfying (candidates : list string)
    (constraints : list VersionConstraint.t) : res (option string) :=
  match filter_satisfying candidates constraints with
  | Raise e => Raise e
  | Ok filtered =>
      match stable_sort_reverse raw_key_lt filtered with
      | [] => Ok None
      | highest :: _ => Ok (Some highest)
      end
  end.

(** Text as the program reads it: ASCII, and short enough for [int] to
    convert each of its digit runs. Beyond it [RVersion.__init__] raises
    [ValueError] where a run of more than [int_max_str_digits] digits is
    converted. *)
Definition is_ascii (c : ascii) : bool := (N_of_ascii c <? 128)%N.

Definition plain_text (s : string) : bool := Str.all is_ascii s && within_int_limit s.

(** The operators [is_satisfied_by] knows. *)
Definition known_operators : list string := [">"; ">="; "<"; "<="; "=="; "="; "!="].

(** *** metadata.py: auxiliary notions *)




Definition no_close_paren (s : string) : bool :=
  Str.all (fun c => negb (is_close_paren c)) s.

(** *** metadata.py: what the memos of a provider hold *)

(** Highest version first: no member is below a later one. *)
Definition descending (versions : list PackageVersion.t) : Prop :=
  StronglySorted
    (fun a b =>
       (compare_versions (PackageVersion.version b) (PackageVersion.version a) <= 0)%Z)
    versions.

Definition from_cran (package : string) (v : PackageVersion.t) : Prop :=
  PackageVersion.name v = package /\ PackageVersion.repo v = "CRAN"
  /\ PackageVersion.bioc_release v = None.

Definition from_bioconductor (package release : string) (v : PackageVersion.t) : Prop :=
  PackageVersion.name v = package /\ PackageVersion.repo v = "Bioconductor"
  /\ PackageVersion.bioc_release v = Some release.

Definition cran_memo_ok (p : MetadataProvider.t) : Prop :=
  forall package versions,
    MetadataProvider._cran p !! package = Some versions ->
    descending versions /\ forall v, In v versions -> from_cran package v.

Definition bioc_memo_ok (p : MetadataProvider.t) : Prop :=
  forall release data package v,
    MetadataProvider._bioc p !! release = Some data -> data !! package = Some v ->
    from_bioconductor package release v.

Definition memos_ok (p : MetadataProvider.t) : Prop := cran_memo_ok p /\ bioc_memo_ok p.




Definition no_slash (s : string) : bool := Str.all (fun c => negb (Str.is_char "/" c)) s.

Definition known_sources : list string := ["cran"; "bioc"; "bioconductor"; "github"].

(** *** metadata.py: the text of a DESCRIPTION file *)

(** One field of a DESCRIPTION file: its key, the text after the colon
    and its continuation lines. *)
Module Field.
Record t := mk {
  key : string;
  text : string;
  continuation : list string
}.

Definition lines (f : t) : list string := (key f ++ ":" ++ text f)%string :: continuation f.

(** The parts of the value: the text after the colon, unless it is
    blank, and the continuation lines, each without the white space
    around it. *)
Definition parts (f : t) : list string :=
  (if String.eqb (Str.strip (text f)) "" then [] else [Str.strip (text f)])
  ++ List.map Str.strip (continuation f).

(** The value [_parse_description] keeps for the field: its parts with
    one blank between two of them. *)
Definition value (f : t) : string :=
  match parts f with
  | [] => ""
  | first :: others =>
      List.fold_left (fun read part => (read ++ " " ++ part)%string) others first
  end.
End Field.







(** *** solver.py: auxiliary notions *)

(** A version one of the sources of the request has on offer. *)
Definition offered (self : EnvironmentSolver.t) (request : PackageRequest.t)
    (v : PackageVersion.t) : Prop :=
  exists source versions,
    In source (source_order_of request)
    /\ _load_versions_for_source self request source = Ok versions
    /\ In v versions.

(** Candidates in the order of [_candidate_versions]: by the place of
    their source, and within one source highest version first. *)
Definition by_priority (source_order : list string) (results : list PackageVersion.t) : Prop :=
  StronglySorted
    (fun a b => source_priority source_order a <= source_priority source_order b) results
  /\ forall k,
       descending (List.filter (fun v => Nat.eqb (source_priority source_order v) k) results).

(** The repository of a candidate names a source: in lower case it
    starts with the first four letters of the source. *)
Definition names_source (source : string) (v : PackageVersion.t) : bool :=
  String.prefix (String.substring 0 4 source) (Str.lower (PackageVersion.repo v)).

(** The rank of a candidate among the sources: the place, from 0, of
    the first source its repository names, and the number of sources
    when it names none. *)
Definition has_rank (source_order : list string) (v : PackageVersion.t) (rank : nat) : Prop :=
  (forall i source,
      i < rank -> nth_error source_order i = Some source -> names_source source v = false)
  /\ match nth_error source_order rank with
     | Some source => names_source source v = true
     | None => rank = List.length source_order
     end.

(** [a] may stand before [b]: its rank is lower, or the ranks are equal
    and [b] is not above [a]. *)
Definition may_precede (source_order : list string) (a b : PackageVersion.t) : Prop :=
  forall i j,
    has_rank source_order a i -> has_rank source_order b j ->
    i < j
    \/ (i = j
        /\ (compare_versions (PackageVersion.version b) (PackageVersion.version a) <= 0)%Z).

(** The version was loaded from the source at place [i] of the order. *)
Definition loaded_at (self : EnvironmentSolver.t) (request : PackageRequest.t) (i : nat)
    (v : PackageVersion.t) : Prop :=
  exists source versions,
    nth_error (source_order_of request) i = Some source
    /\ _load_versions_for_source self request source = Ok versions
    /\ In v versions.

(** Scenario: a package that CRAN has in two versions and Bioconductor
    3.17 in one. *)
Definition two_sources : provider :=
  preloaded
    [("P", [cran_version "P" "1.0" None []; cran_version "P" "2.0" None []])]
    [("3.17", [("P", bioc_version "P" "1.5" "3.17" None [])])].

Definition request_from (source : option string) : PackageRequest.t :=
  PackageRequest.mk "P" source [] [] (Some "3.17") None None None.

(** An exception that comes from the provider. *)
Definition provider_raises (self : EnvironmentSolver.t) (e : exn) : Prop :=
  exists package source release ref token,
    EnvironmentSolver.metadata self package source release ref token = Raise e.

(** The test on [r_min] of [_resolve_package], on a selection. *)
Definition selection_compatible (candidate_r : string) (selection : PackageSelection.t) : bool :=
  negb match PackageSelection.r_min selection with
       | Some r_min =>
           truthy (PackageSelection.r_min selection)
           && (compare_versions candidate_r r_min <? 0)%Z
       | None => false
       end.

(** A selection the resolver may hold: compatible with the candidate R,
    satisfying the constraints, and made from a version on offer. *)
Definition sound_selection (self : EnvironmentSolver.t) (candidate_r : string)
    (constraints : list VersionConstraint.t) (selection : PackageSelection.t) : Prop :=
  selection_compatible candidate_r selection = true
  /\ satisfies_all (PackageSelection.version selection) constraints = Ok true
  /\ exists request v, offered self request v /\ selection = selection_of v.

(** [state.constraints.get(package, [])] *)
Definition stored_constraints (state : ResolutionState.t) (package : string)
    : list VersionConstraint.t :=
  default [] (ResolutionState.constraints state !! package).

(** Every assignment of the state is sound for the constraints the
    state has recorded for its package. *)
Definition sound_state (self : EnvironmentSolver.t) (state : ResolutionState.t) : Prop :=
  forall package selection,
    ResolutionState.assignments state !! package = Some selection ->
    sound_selection self (ResolutionState.candidate_r state)
      (stored_constraints state package) selection.

(** How a call of the resolver may end, [visiting] being the packages
    under resolution when it started: with a result or a
    [ResolutionError], and these packages again; or with an exception
    that the provider raised or that is a [ValueError]. *)
Definition outcome_ok {A : Type} (self : EnvironmentSolver.t) (visiting : gset string)
    (o : outcome A) (state' : ResolutionState.t) : Prop :=
  match o with
  | Return _ => ResolutionState.visiting state' = visiting
  | Throw (ResolutionErr _) => ResolutionState.visiting state' = visiting
  | Throw e => provider_raises self e \/ exists msg, e = ValueError msg
  | OutOfFuel => True
  end.

Definition resolve_contract (self : EnvironmentSolver.t)
    (rp : PackageRequest.t -> ResolutionState.t -> outcome PackageSelection.t * ResolutionState.t)
    : Prop :=
  forall request state,
    ResolutionState.candidate_r (snd (rp request state)) = ResolutionState.candidate_r state
    /\ (sound_state self state -> sound_state self (snd (rp request state)))
    /\ outcome_ok self (ResolutionState.visiting state) (fst (rp request state))
         (snd (rp request state))
    /\ forall selection,
         fst (rp request state) = Return selection ->
         ResolutionState.assignments (snd (rp request state)) !! PackageRequest.package request
         = Some selection
         /\ (PackageRequest.package request ∉ ResolutionState.visiting state ->
             satisfies_all (PackageSelection.version selection)
               (PackageRequest.constraints request) = Ok true).

(** The names in [universe] are closed under dependency: whatever a
    version on offer depends on is among them. *)
Definition closed_under_dependencies (self : EnvironmentSolver.t) (universe : gset string)
    : Prop :=
  forall request v dep,
    offered self request v -> In dep (PackageVersion.dependencies v) ->
    Dependency.name dep ∈ universe.

Definition cycle_solver_default : EnvironmentSolver.t :=
  EnvironmentSolver.mk cycle_provider false None.

(** *** compute_resolution: what becomes of one attempt *)

Definition conflict_type_error : exn :=
  TypeError "Conflict.__init__() got an unexpected keyword argument 'candidates'".

(** The result of [compute_resolution] when the [solve] it has just
    attempted ended with [o]. *)
Definition first_attempt (o : outcome ResolutionPlan.t)
    : outcome (option ResolutionPlan.t * list Conflict.t) :=
  match o with
  | Return plan => Return (Some plan, [])
  | Throw (ResolutionErr _) => Throw conflict_type_error
  | Throw e => Throw e
  | OutOfFuel => OutOfFuel
  end.

(** The first candidate R that no Bioconductor requirement rules out. *)
Definition first_compatible (release_requirements : list (string * string))
    (candidates : list RVersion) : option RVersion :=
  List.find (fun c => negb (incompatible release_requirements (raw c))) candidates.

(** *** The Bioconductor requirements of the targets *)

Definition is_bioc_source (target : TargetContext.t) : bool :=
  String.eqb (TargetContext.source target) "bioc"
  || String.eqb (TargetContext.source target) "bioconductor".

(** The release a Bioconductor target is resolved in: its own, else the
    default, else the latest of the table. *)
Definition effective_release (default_release : option string) (target : TargetContext.t)
    : option string :=
  py_or (TargetContext.bioc_release target)
        (py_or default_release MetadataProvider.latest_bioconductor_release).

(** What a target requires of R: the release it is resolved in and the R
    version the table gives for it, for a Bioconductor target whose
    release the table knows. *)
Definition required_of (default_release : option string) (target : TargetContext.t)
    : option (string * string) :=
  if is_bioc_source target then
    match effective_release default_release target with
    | Some release =>
        match MetadataProvider.bioconductor_r_version release with
        | Some r => if Str.is_empty release || Str.is_empty r then None else Some (release, r)
        | None => None
        end
    | None => None
    end
  else None.

(** The target as [compute_resolution] solves for it. *)
Definition with_release (default_release : option string) (target : TargetContext.t)
    : TargetContext.t :=
  match required_of default_release target with
  | Some (release, _) => TargetContext.set_bioc_release (Some release) target
  | None => target
  end.

(** *** config.py: the records of a project configuration *)

Module ResolverOptions.
Record t := mk {
  current_r : option string;
  prefer_bioc_release : option string;
  include_optional : bool;
  github_token : option string
}.
End ResolverOptions.

Module TargetSpec.
Record t := mk {
  package : string;
  source : string;
  constraint : option string;
  alias : option string;
  bioc_release : option string;
  github_ref : option string;
  github_token : option string
}.
End TargetSpec.

Module ProjectConfig.
Record t := mk {
  name : string;
  targets : list TargetSpec.t;
  options : ResolverOptions.t
}.
End ProjectConfig.


(** *** solver.py: [build_target_contexts] *)

Section BuildTargetContexts.
Variable fetch_github_description :
  list fetch_call -> string -> string -> option string -> option string -> res GithubDescriptor.t.



End BuildTargetContexts.











(** A provider that refuses a GitHub package without a slash, as
    [get_versions] does. *)
Definition refuses_plain_github (self : EnvironmentSolver.t) : Prop :=
  forall package release ref token,
    no_slash package = true ->
    exists msg,
      EnvironmentSolver.metadata self package "github" release ref token
      = Raise (MetadataFetchError msg).

Definition github_target (package : string) : TargetContext.t :=
  TargetContext.mk package package "github" [] None None None (Some ("owner/" ++ package)%string).

(** *** solver.py: [build_report] *)

Module ResolutionReport.
Record t := mk {
  minimal_plan : option ResolutionPlan.t;
  locked_plan : option ResolutionPlan.t;
  conflicts : list Conflict.t;
  locked_conflicts : list Conflict.t;
  r_version_locked : option string
}.
End ResolutionReport.

Definition build_report (set_order : list RVersion -> list RVersion) (fuel : nat)
    (metadata : provider) (targets : list TargetContext.t) (include_optional : bool)
    (prefer_bioc_release : option string) (locked_r : option string)
    : outcome ResolutionReport.t :=
  match compute_resolution set_order fuel metadata targets include_optional
          prefer_bioc_release None with
  | Return (minimal_plan, minimal_conflicts) =>
      if truthy locked_r then
        match compute_resolution set_order fuel metadata targets include_optional
                prefer_bioc_release locked_r with
        | Return (locked_plan, locked_conflicts) =>
            Return (ResolutionReport.mk minimal_plan locked_plan minimal_conflicts
                      locked_conflicts locked_r)
        | Throw e => Throw e
        | OutOfFuel => OutOfFuel
        end
      else Return (ResolutionReport.mk minimal_plan None minimal_conflicts [] locked_r)
  | Throw e => Throw e
  | OutOfFuel => OutOfFuel
  end.

(** *** fetchers.py *)

(** What a GET request answers: the status code and the body read as
    JSON, when it is JSON. *)
Module Response.
Record t (A : Type) := mk {
  status_code : N;
  json : option A
}.
Arguments mk {A} status_code json.
Arguments status_code {A} t.
Arguments json {A} t.
End Response.

(** [str(n)] for a natural number *)
Definition str_of_N (n : N) : string := NilEmpty.string_of_uint (N.to_uint n).

Definition _request_json {A : Type} (get : string -> Response.t A) (url : string) : res A :=
  let response := get url in
  if (400 <=? Response.status_code response)%N then
    Raise (MetadataFetchError
             ("Failed to fetch " ++ url ++ ": HTTP "
              ++ str_of_N (Response.status_code response))%string)
  else
    match Response.json response with
    | Some data => Ok data
    | None => Raise (MetadataFetchError ("Invalid JSON from " ++ url)%string)
    end.

Definition fetch_cran_package {A : Type} (get : string -> Response.t A) (package : string)
    : res A :=
  _request_json get ("https://crandb.r-pkg.org/" ++ package ++ "/all")%string.

Definition _BIOC_CATEGORIES : list string :=
  ["bioc"; "data/annotation"; "data/experiment"; "workflows"].

Definition category_url (release category : string) : string :=
  ("https://bioconductor.org/packages/json/" ++ release ++ "/" ++ category
   ++ "/packages.json")%string.

(** [d[key] = value] on a dict kept as the list of its items: a key that
    is there keeps its place. *)
Fixpoint dict_put {V : Type} (key : string) (value : V) (d : list (string * V))
    : list (string * V) :=
  match d with
  | [] => [(key, value)]
  | (k, v) :: rest =>
      if String.eqb k key then (k, value) :: rest else (k, v) :: dict_put key value rest
  end.

(** [d.get(key)] *)
Fixpoint dict_get {V : Type} (key : string) (d : list (string * V)) : option V :=
  match d with
  | [] => None
  | (k, v) :: rest => if String.eqb k key then Some v else dict_get key rest
  end.

(** [payload = dict(payload); payload[".category"] = category] *)
Definition tag_category (category : string) (payload : Payload.t) : Payload.t :=
  Payload.mk (Payload.Depends payload) (Payload.Imports payload) (Payload.LinkingTo payload)
    (Payload.Suggests payload) (<[".category" := category]> (Payload.fields payload)).

(** The inner loop of [fetch_bioconductor_release] over the packages of
    one category. *)
Definition add_category (category : string) (data : list (string * Payload.t))
    (aggregated : list (string * Payload.t)) : list (string * Payload.t) :=
  List.fold_left
    (fun aggregated '(name, payload) => dict_put name (tag_category category payload) aggregated)
    data aggregated.

Section FetchBioconductor.
Variable get : string -> Response.t (list (string * Payload.t)).

(** The loop over the categories; a category whose request raises
    [MetadataFetchError] is passed over. *)
Fixpoint fetch_categories (release : string) (categories : list string)
    (aggregated : list (string * Payload.t)) : res (list (string * Payload.t)) :=
  match categories with
  | [] => Ok aggregated
  | category :: rest =>
      match _request_json get (category_url release category) with
      | Raise (MetadataFetchError _) => fetch_categories release rest aggregated
      | Raise e => Raise e
      | Ok data => fetch_categories release rest (add_category category data aggregated)
      end
  end.

Definition fetch_bioconductor_release (release : string) : res (list (string * Payload.t)) :=
  match fetch_categories release _BIOC_CATEGORIES [] with
  | Raise e => Raise e
  | Ok [] =>
      Raise (MetadataFetchError ("No packages found for Bioconductor release " ++ release)%string)
  | Ok aggregated => Ok aggregated
  end.

(** The packages a category lists, when its request succeeds. *)
Definition listing (release category : string) : option (list (string * Payload.t)) :=
  match _request_json get (category_url release category) with
  | Ok data => Some data
  | Raise _ => None
  end.

(** The payload of a package: that of the first of the given categories
    that lists it, with the category noted in it. Within a listing the
    last entry of a name counts. *)
Fixpoint package_in (release name : string) (categories : list string) : option Payload.t :=
  match categories with
  | [] => None
  | category :: rest =>
      match listing release category with
      | Some data =>
          match dict_get name (List.rev data) with
          | Some payload => Some (tag_category category payload)
          | None => package_in release name rest
          end
      | None => package_in release name rest
      end
  end.
End FetchBioconductor.

Definition two_categories (url : string) : Response.t (list (string * Payload.t)) :=
  if String.eqb url (category_url "3.19" "bioc")
  then Response.mk 200 (Some [("limma", payload_with SecAbsent SecAbsent)])
  else if String.eqb url (category_url "3.19" "workflows")
  then Response.mk 200 (Some [("limma", payload_with SecAbsent (SecStr "methods"))])
  else Response.mk 404 None.

(** *** The option [include_optional] *)

Definition set_include_optional (b : bool) (state : ResolutionState.t) : ResolutionState.t :=
  ResolutionState.mk (ResolutionState.candidate_r state) b
    (ResolutionState.prefer_bioc_release state) (ResolutionState.assignments state)
    (ResolutionState.constraints state) (ResolutionState.visiting state)
    (ResolutionState.failure_traces state).

(** No version on offer has an optional dependency: what the
    normalisers of [metadata.py] guarantee. *)
Definition offers_required_only (metadata : provider) (prefer : option string) : Prop :=
  forall request v dep,
    offered (EnvironmentSolver.mk metadata false prefer) request v ->
    In dep (PackageVersion.dependencies v) ->
    Dependency.optional dep = false.

(** The release [_load_versions_for_source] asks Bioconductor for. *)
Definition lookup_release (self : EnvironmentSolver.t) (request : PackageRequest.t)
    : option string :=
  py_or (PackageRequest.bioc_release request)
        (py_or (EnvironmentSolver.prefer_bioc_release self)
               MetadataProvider.latest_bioconductor_release).

(** * Properties *)

(** ** The order on versions *)

Section StringOrder.

Lemma ascii_compare_refl (a : ascii) : Ascii.compare a a = Eq.
Proof. unfold Ascii.compare. apply N.compare_refl. Qed.

Lemma ascii_compare_trans (a b c : ascii) :
  Ascii.compare a b = Lt -> Ascii.compare b c = Lt -> Ascii.compare a c = Lt.
Proof.
  unfold Ascii.compare. rewrite !N.compare_lt_iff. intros; etransitivity; eauto.
Qed.

Lemma string_compare_refl (s : string) : String.compare s s = Eq.
Proof.
  induction s as [|c s IH]; simpl; [reflexivity|].
  now rewrite ascii_compare_refl.
Qed.

Lemma string_compare_trans (a b c : string) :
  String.compare a b = Lt -> String.compare b c = Lt -> String.compare a c = Lt.
Proof.
  revert b c. induction a as [|x a IH]; intros [|y b] [|z c]; simpl; try congruence.
  destruct (Ascii.compare x y) eqn:Hxy; try congruence;
    destruct (Ascii.compare y z) eqn:Hyz; try congruence; intros H1 H2.
  - apply Ascii.compare_eq_iff in Hxy, Hyz. subst.
    rewrite ascii_compare_refl. eauto.
  - apply Ascii.compare_eq_iff in Hxy. subst. now rewrite Hyz.
  - apply Ascii.compare_eq_iff in Hyz. subst. now rewrite Hxy.
  - now rewrite (ascii_compare_trans _ _ _ Hxy Hyz).
Qed.

Lemma string_eqb_compare (a b : string) :
  String.eqb a b = match String.compare a b with Eq => true | _ => false end.
Proof.
  destruct (String.eqb_spec a b) as [->|Hne].
  - now rewrite string_compare_refl.
  - destruct (String.compare a b) eqn:Hc; try reflexivity.
    apply String.compare_eq_iff in Hc. contradiction.
Qed.

End StringOrder.

Lemma component_compare_eq (a b : N * string) : component_compare a b = Eq -> a = b.
Proof.
  destruct a as [n s], b as [m t]. unfold component_compare. simpl.
  destruct (N.compare n m) eqn:Hn; try discriminate.
  intros Hs. apply N.compare_eq_iff in Hn. apply String.compare_eq_iff in Hs. congruence.
Qed.

Lemma component_compare_refl (a : N * string) : component_compare a a = Eq.
Proof.
  unfold component_compare. now rewrite N.compare_refl, string_compare_refl.
Qed.

Lemma component_compare_antisym (a b : N * string) :
  component_compare a b = CompOpp (component_compare b a).
Proof.
  unfold component_compare. rewrite (N.compare_antisym (fst a) (fst b)).
  destruct (N.compare (fst a) (fst b)); simpl; try reflexivity.
  apply String.compare_antisym.
Qed.

Lemma component_compare_trans (a b c : N * string) :
  component_compare a b = Lt -> component_compare b c = Lt -> component_compare a c = Lt.
Proof.
  unfold component_compare.
  destruct (N.compare (fst a) (fst b)) eqn:Hab; try discriminate;
    destruct (N.compare (fst b) (fst c)) eqn:Hbc; try discriminate; intros H1 H2.
  - apply N.compare_eq_iff in Hab, Hbc. rewrite Hab, Hbc, N.compare_refl.
    eapply string_compare_trans; eauto.
  - apply N.compare_eq_iff in Hab. now rewrite Hab, Hbc.
  - apply N.compare_eq_iff in Hbc. now rewrite <- Hbc, Hab.
  - apply N.compare_lt_iff in Hab, Hbc.
    assert (H : N.compare (fst a) (fst c) = Lt)
      by (apply N.compare_lt_iff; etransitivity; eauto).
    now rewrite H.
Qed.

Lemma component_compare_preorder : preorder_cmp component_compare.
Proof.
  split.
  - apply component_compare_refl.
  - apply component_compare_antisym.
  - apply component_compare_trans.
  - intros a b c H. apply component_compare_eq in H. now subst.
  - intros a b c H1 H2. apply component_compare_eq in H2. now subst.
  - intros a b c H1 H2. apply component_compare_eq in H1. now subst.
Qed.

(** [compare_step] decides by the order on components. *)
Lemma compare_step_spec (a b : N * string) (k : Z) :
  compare_step a b k =
  match component_compare a b with
  | Eq => k
  | c => Z_of_comparison c
  end.
Proof.
  destruct a as [n s], b as [m t]. unfold compare_step, component_compare. simpl.
  rewrite N.eqb_compare, N.ltb_compare.
  destruct (N.compare n m); simpl; try reflexivity.
  rewrite string_eqb_compare. unfold String.ltb.
  destruct (String.compare s t); reflexivity.
Qed.

Arguments compare_step : simpl never.
Arguments component_compare : simpl never.

Lemma compare_components_padded (l r : list (N * string)) :
  compare_components l r = Z_of_comparison (padded_compare l r).
Proof.
  revert r. induction l as [|x l IH]; intros r.
  - induction r as [|y r IHr]; [reflexivity|].
    simpl in *. rewrite compare_step_spec, IHr.
    destruct (component_compare fillvalue y); reflexivity.
  - destruct r as [|y r]; simpl; rewrite compare_step_spec, IH;
      destruct (component_compare x _); reflexivity.
Qed.

(** One unfolding that holds whatever the shapes of the two tuples. *)
Lemma padded_compare_unfold (l r : list (N * string)) :
  padded_compare l r =
  match component_compare (head_or_fill l) (head_or_fill r) with
  | Eq => padded_compare (List.tl l) (List.tl r)
  | c => c
  end.
Proof.
  destruct l as [|x l], r as [|y r]; try reflexivity.
Qed.

Lemma padded_compare_lexicographic (l r : list (N * string)) (n : nat) :
  List.length l <= n -> List.length r <= n ->
  padded_compare l r = lexicographic (pad_components n l) (pad_components n r).
Proof.
  revert l r. induction n as [|n IH]; intros l r Hl Hr.
  - destruct l, r; simpl in *; try lia. reflexivity.
  - rewrite padded_compare_unfold.
    assert (Hpad : forall l : list (N * string), List.length l <= S n ->
              pad_components (S n) l = head_or_fill l :: pad_components n (List.tl l)).
    { intros [|z k] Hk; unfold pad_components; simpl in *.
      - now rewrite Nat.sub_0_r.
      - reflexivity. }
    rewrite (Hpad l Hl), (Hpad r Hr). simpl.
    rewrite (IH (List.tl l) (List.tl r)); [reflexivity| |].
    + destruct l; simpl in *; lia.
    + destruct r; simpl in *; lia.
Qed.

Lemma lexicographic_refl (l : list (N * string)) : lexicographic l l = Eq.
Proof.
  induction l as [|x l IH]; simpl; [reflexivity|].
  now rewrite component_compare_refl.
Qed.

Lemma lexicographic_antisym (l r : list (N * string)) :
  List.length l = List.length r -> lexicographic l r = CompOpp (lexicographic r l).
Proof.
  revert r. induction l as [|x l IH]; intros [|y r] Hlen; simpl in *; try lia; try reflexivity.
  rewrite (component_compare_antisym x y).
  destruct (component_compare y x); simpl; try reflexivity.
  apply IH. lia.
Qed.

(** Transitivity in its four forms, for tuples of one length. *)
Lemma lexicographic_trans (c1 c2 : comparison) (a b c : list (N * string)) :
  List.length a = List.length b -> List.length b = List.length c ->
  lexicographic a b = c1 -> lexicographic b c = c2 ->
  c1 <> Gt -> c2 <> Gt ->
  lexicographic a c = match c1 with Eq => c2 | _ => Lt end.
Proof.
  revert b c. induction a as [|x a IH]; intros [|y b] [|z c] Hab Hbc; simpl in *; try lia.
  - intros <- <- _ _. reflexivity.
  - destruct (component_compare x y) eqn:Hxy.
    + apply component_compare_eq in Hxy. subst y.
      destruct (component_compare x z) eqn:Hxz.
      * intros H1 H2. apply IH with (b := b); auto; lia.
      * intros <- <- _ _. destruct (lexicographic a b); reflexivity.
      * intros _ <- _ Hgt. congruence.
    + intros <- H2 _ Hgt.
      destruct (component_compare y z) eqn:Hyz.
      * apply component_compare_eq in Hyz. subst z. now rewrite Hxy.
      * now rewrite (component_compare_trans _ _ _ Hxy Hyz).
      * congruence.
    + intros <- _ Hgt _. congruence.
Qed.

Lemma padded_compare_preorder : preorder_cmp padded_compare.
Proof.
  assert (T : forall c1 c2 a b c, padded_compare a b = c1 -> padded_compare b c = c2 ->
              c1 <> Gt -> c2 <> Gt ->
              padded_compare a c = match c1 with Eq => c2 | _ => Lt end).
  { intros c1 c2 a b c.
    set (n := Nat.max (List.length a) (Nat.max (List.length b) (List.length c))).
    rewrite (padded_compare_lexicographic a b n), (padded_compare_lexicographic b c n),
      (padded_compare_lexicographic a c n) by lia.
    assert (L : forall l : list (N * string), List.length l <= n ->
              List.length (pad_components n l) = n).
    { intros l Hl. unfold pad_components. rewrite length_app, repeat_length. lia. }
    apply lexicographic_trans; rewrite !L; lia. }
  split.
  - intros a. rewrite (padded_compare_lexicographic a a (List.length a)) by lia.
    apply lexicographic_refl.
  - intros a b. set (n := Nat.max (List.length a) (List.length b)).
    rewrite (padded_compare_lexicographic a b n), (padded_compare_lexicographic b a n) by lia.
    apply lexicographic_antisym. unfold pad_components.
    rewrite !length_app, !repeat_length. lia.
  - intros a b c H1 H2. now rewrite (T Lt Lt a b c H1 H2).
  - intros a b c H1 H2. now rewrite (T Eq Lt a b c H1 H2).
  - intros a b c H1 H2. now rewrite (T Lt Eq a b c H1 H2).
  - intros a b c H1 H2. now rewrite (T Eq Eq a b c H1 H2).
Qed.

(** [_compare] through the order on padded tuples. *)
Lemma _compare_padded (a b : RVersion) :
  _compare a b = Z_of_comparison (padded_compare (components a) (components b)).
Proof. apply compare_components_padded. Qed.

Lemma _compare_version_compare (a b : RVersion) :
  _compare a b = Z_of_comparison (version_compare a b).
Proof.
  rewrite _compare_padded. unfold version_compare.
  rewrite (padded_compare_lexicographic _ _
             (Nat.max (List.length (components a)) (List.length (components b)))) by lia.
  reflexivity.
Qed.

(** ** Stable sorting *)

Section SortFacts.
Context {A : Type} (lt : A -> A -> bool).

Lemma insert_sorted_perm (x : A) (l : list A) :
  Permutation (insert_sorted lt x l) (x :: l).
Proof.
  induction l as [|y l IH]; simpl; [reflexivity|].
  destruct (lt y x); [|reflexivity].
  rewrite IH. apply perm_swap.
Qed.

Lemma stable_sort_perm (l : list A) : Permutation (stable_sort lt l) l.
Proof.
  induction l as [|x l IH]; simpl; [reflexivity|].
  unfold stable_sort in *. rewrite insert_sorted_perm. now constructor.
Qed.

Lemma stable_sort_In (l : list A) (x : A) : In x (stable_sort lt l) <-> In x l.
Proof.
  split; apply Permutation_in; [|symmetry]; apply stable_sort_perm.
Qed.


Hypothesis lt_asym : forall a b, lt a b = true -> lt b a = false.
Hypothesis not_above_trans :
  forall a b c, not_above lt a b -> not_above lt b c -> not_above lt a c.

Lemma insert_sorted_sorted (x : A) (l : list A) :
  StronglySorted (not_above lt) l -> StronglySorted (not_above lt) (insert_sorted lt x l).
Proof.
  induction 1 as [|y l Hl IH Hy]; simpl.
  - repeat constructor.
  - destruct (lt y x) eqn:Hyx.
    + constructor; [exact IH|].
      apply List.Forall_forall. intros z Hz.
      apply (Permutation_in _ (insert_sorted_perm x l)) in Hz. destruct Hz as [<-|Hz].
      * apply lt_asym, Hyx.
      * rewrite List.Forall_forall in Hy. now apply Hy.
    + constructor; [now constructor|].
      constructor; [exact Hyx|].
      eapply List.Forall_impl; [|exact Hy]. intros z Hz.
      eapply not_above_trans; [exact Hyx|exact Hz].
Qed.

Lemma stable_sort_sorted (l : list A) : StronglySorted (not_above lt) (stable_sort lt l).
Proof.
  induction l as [|x l IH]; [constructor|].
  apply insert_sorted_sorted, IH.
Qed.

Lemma not_above_refl (a : A) : not_above lt a a.
Proof.
  unfold not_above. destruct (lt a a) eqn:H; [|reflexivity].
  now rewrite (lt_asym _ _ H) in H.
Qed.

(** The head of the sorted list is not above any member. *)
Lemma stable_sort_head (l : list A) (h : A) (t : list A) :
  stable_sort lt l = h :: t -> forall x, In x l -> not_above lt h x.
Proof.
  intros Hs x Hx. apply stable_sort_In in Hx. rewrite Hs in Hx.
  pose proof (stable_sort_sorted l) as S. rewrite Hs in S.
  apply StronglySorted_inv in S. destruct S as [_ S]. rewrite List.Forall_forall in S.
  destruct Hx as [<-|Hx]; [apply not_above_refl|now apply S].
Qed.

Lemma last_In (l : list A) (y d : A) : In (List.last (y :: l) d) (y :: l).
Proof.
  revert y. induction l as [|w l IH]; intros y; [simpl; auto|].
  right. apply (IH w).
Qed.

Lemma sorted_last (l : list A) (d m : A) :
  StronglySorted (not_above lt) l -> l <> [] -> List.last l d = m ->
  forall x, In x l -> not_above lt x m.
Proof.
  induction 1 as [|y l Hl IH Hy]; intros Hne Hm x Hx; [congruence|].
  destruct l as [|z l].
  - simpl in *. destruct Hx as [<-|[]]. subst. apply not_above_refl.
  - assert (Hlast : List.last (z :: l) d = m) by exact Hm.
    destruct Hx as [<-|Hx].
    + rewrite List.Forall_forall in Hy. apply Hy. rewrite <- Hlast. apply last_In.
    + apply IH; auto; congruence.
Qed.

(** The last member of the sorted list is not below any member. *)
Lemma stable_sort_last (l : list A) (d m : A) :
  l <> [] -> List.last (stable_sort lt l) d = m -> In m l /\ forall x, In x l -> not_above lt x m.
Proof.
  intros Hne Hm.
  assert (Hne' : stable_sort lt l <> []).
  { intros E. apply Hne. apply Permutation_nil. rewrite <- E.
    apply stable_sort_perm. }
  split.
  - apply stable_sort_In. rewrite <- Hm.
    destruct (stable_sort lt l) as [|y k] eqn:E; [congruence|].
    apply last_In.
  - intros x Hx. eapply sorted_last; eauto using stable_sort_sorted.
    now apply stable_sort_In.
Qed.
End SortFacts.

(** The [<] of a preorder and its converse can both drive a sort. *)
Section PreorderSort.
Context {A : Type} (cmp : A -> A -> comparison) (P : preorder_cmp cmp).

Lemma ltb_of_asym (a b : A) : ltb_of cmp a b = true -> ltb_of cmp b a = false.
Proof.
  unfold ltb_of. rewrite (cmp_antisym cmp P b a). destruct (cmp a b); simpl; congruence.
Qed.

Lemma not_above_cmp (a b : A) : not_above (ltb_of cmp) a b <-> cmp a b <> Gt.
Proof.
  unfold not_above, ltb_of. rewrite (cmp_antisym cmp P b a).
  destruct (cmp a b); simpl; split; congruence.
Qed.

Lemma cmp_not_gt_trans (a b c : A) : cmp a b <> Gt -> cmp b c <> Gt -> cmp a c <> Gt.
Proof.
  destruct P as [R S TLt TEqLt TLtEq TEq].
  destruct (cmp a b) eqn:Hab; destruct (cmp b c) eqn:Hbc; try congruence; intros _ _.
  - now rewrite (TEq _ _ _ Hab Hbc).
  - now rewrite (TEqLt _ _ _ Hab Hbc).
  - now rewrite (TLtEq _ _ _ Hab Hbc).
  - now rewrite (TLt _ _ _ Hab Hbc).
Qed.

Lemma ltb_of_not_above_trans (a b c : A) :
  not_above (ltb_of cmp) a b -> not_above (ltb_of cmp) b c -> not_above (ltb_of cmp) a c.
Proof. rewrite !not_above_cmp. apply cmp_not_gt_trans. Qed.

Lemma flip_ltb_of_asym (a b : A) :
  (fun x y => ltb_of cmp y x) a b = true -> (fun x y => ltb_of cmp y x) b a = false.
Proof. apply ltb_of_asym. Qed.

Lemma flip_not_above_trans (a b c : A) :
  not_above (fun x y => ltb_of cmp y x) a b -> not_above (fun x y => ltb_of cmp y x) b c ->
  not_above (fun x y => ltb_of cmp y x) a c.
Proof.
  unfold not_above. intros H1 H2.
  apply (ltb_of_not_above_trans c b a); assumption.
Qed.
End PreorderSort.

Lemma string_compare_preorder : preorder_cmp String.compare.
Proof.
  split.
  - apply string_compare_refl.
  - apply String.compare_antisym.
  - apply string_compare_trans.
  - intros a b c H. apply String.compare_eq_iff in H. now subst.
  - intros a b c H1 H2. apply String.compare_eq_iff in H2. now subst.
  - intros a b c H1 H2. apply String.compare_eq_iff in H1. now subst.
Qed.

Lemma string_ltb_ltb_of : String.ltb = ltb_of String.compare.
Proof. reflexivity. Qed.

Lemma RVersion_lt_ltb_of (a b : RVersion) :
  RVersion_lt a b = ltb_of padded_compare (components a) (components b).
Proof.
  unfold RVersion_lt, ltb_of. rewrite _compare_padded.
  destruct (padded_compare (components a) (components b)); reflexivity.
Qed.

(** A list in strictly ascending order is the only sorted arrangement of
    its members. *)
Lemma sorted_unique {A : Type} (lt : A -> A -> bool) (l l' : list A) :
  (forall a b, lt a b = true -> lt b a = false) ->
  StronglySorted (fun a b => lt a b = true) l ->
  StronglySorted (not_above lt) l' ->
  Permutation l' l -> l' = l.
Proof.
  intros asym Hl. revert l'. induction Hl as [|a l Hl IH Ha]; intros l' Hl' Hp.
  - now apply Permutation_nil.
  - destruct l' as [|h t]; [now apply Permutation_nil in Hp|].
    apply StronglySorted_inv in Hl'. destruct Hl' as [Ht Hh].
    rewrite List.Forall_forall in Ha, Hh.
    assert (Hha : h = a).
    { assert (Hin : In h (a :: l)) by (apply (Permutation_in _ Hp); now left).
      destruct Hin as [E|Hin]; [now symmetry|]. exfalso.
      assert (Hlt : lt a h = true) by now apply Ha.
      assert (Hin' : In a (h :: t))
        by (apply (Permutation_in _ (Permutation_sym Hp)); now left).
      destruct Hin' as [E|Hin'].
      - subst. rewrite (asym _ _ Hlt) in Hlt. discriminate.
      - specialize (Hh a Hin'). unfold not_above in Hh. congruence. }
    subst h. f_equal. apply IH; [exact Ht|]. now apply Permutation_cons_inv in Hp.
Qed.


Lemma RVersion_compare_preorder : preorder_cmp RVersion_compare.
Proof.
  destruct padded_compare_preorder as [R S T1 T2 T3 T4].
  split; unfold RVersion_compare; eauto.
Qed.

Lemma RVersion_lt_asym (a b : RVersion) : RVersion_lt a b = true -> RVersion_lt b a = false.
Proof.
  rewrite !RVersion_lt_ltb_of. apply (ltb_of_asym RVersion_compare RVersion_compare_preorder).
Qed.

Lemma RVersion_not_above_trans (a b c : RVersion) :
  not_above RVersion_lt a b -> not_above RVersion_lt b c -> not_above RVersion_lt a c.
Proof.
  unfold not_above. rewrite !RVersion_lt_ltb_of.
  apply (ltb_of_not_above_trans RVersion_compare RVersion_compare_preorder).
Qed.
(** ** Facts on strings *)


Arguments String.append : simpl nomatch.

Section StringFacts.

Lemma append_nil_r (s : string) : (s ++ "")%string = s.
Proof. induction s as [|c s IH]; simpl; congruence. Qed.

Lemma append_assoc (a b c : string) : ((a ++ b) ++ c)%string = (a ++ (b ++ c))%string.
Proof. induction a as [|x a IH]; simpl; congruence. Qed.

Lemma length_append (a b : string) :
  String.length (a ++ b)%string = String.length a + String.length b.
Proof. induction a as [|x a IH]; simpl; congruence. Qed.

Lemma append_inv_head (a b c : string) : (a ++ b)%string = (a ++ c)%string -> b = c.
Proof. induction a as [|x a IH]; simpl; [auto|]. intros [= H]. auto. Qed.

(** [span] cuts the text in two: a prefix within the class and a rest
    that does not start in it. *)
Lemma span_spec (p : ascii -> bool) (s a b : string) :
  Str.span p s = (a, b) ->
  s = (a ++ b)%string /\ Str.all p a = true
  /\ match b with String c _ => p c = false | EmptyString => True end.
Proof.
  revert a b. induction s as [|c s IH]; simpl; intros a b.
  - intros [= <- <-]. auto.
  - destruct (p c) eqn:Hc.
    + destruct (Str.span p s) as [a' b'] eqn:E. intros [= <- <-].
      destruct (IH _ _ eq_refl) as (-> & Ha & Hb). simpl. rewrite Hc. auto.
    + intros [= <- <-]. simpl. rewrite Hc. auto.
Qed.

Lemma span_append (p : ascii -> bool) (a b : string) :
  Str.all p a = true ->
  match b with String c _ => p c = false | EmptyString => True end ->
  Str.span p (a ++ b)%string = (a, b).
Proof.
  induction a as [|x a IH]; simpl.
  - intros _ Hb. destruct b as [|c b]; simpl; [reflexivity|now rewrite Hb].
  - intros [Hx Ha]%andb_prop Hb. rewrite Hx, IH; auto.
Qed.

Lemma drop_prefix_spec (p s r : string) :
  drop_prefix p s = Some r <-> s = (p ++ r)%string.
Proof.
  revert s. induction p as [|a p IH]; intros s; simpl.
  - split; [intros [= ->]|intros ->]; reflexivity.
  - destruct s as [|b s]; [split; discriminate|].
    destruct (Ascii.eqb_spec a b) as [->|Hne].
    + rewrite IH. split; [intros ->; reflexivity|intros [= ->]; reflexivity].
    + split; [discriminate|]. intros [= Hab _]. congruence.
Qed.

End StringFacts.

Lemma strip_no_space (s : string) :
  Str.all (fun c => negb (Str.is_space c)) s = true -> Str.strip s = s.
Proof.
  intros H. unfold Str.strip.
  assert (Hl : Str.lstrip s = s).
  { destruct s as [|c s]; [reflexivity|]. simpl in *.
    apply andb_prop in H. destruct H as [Hc _]. apply negb_true_iff in Hc. now rewrite Hc. }
  rewrite Hl. clear Hl. induction s as [|c s IH]; [reflexivity|]. simpl in *.
  apply andb_prop in H. destruct H as [Hc Hs]. apply negb_true_iff in Hc.
  rewrite Hc, (IH Hs). reflexivity.
Qed.

Lemma split_nonempty (sep : ascii -> bool) (s : string) : Str.split sep s <> [].
Proof.
  induction s as [|c s IH]; simpl; [discriminate|].
  destruct (sep c); [discriminate|]. destruct (Str.split sep s); [congruence|discriminate].
Qed.

Lemma all_impl (p q : ascii -> bool) (s : string) :
  (forall c, p c = true -> q c = true) -> Str.all p s = true -> Str.all q s = true.
Proof.
  intros Hpq. induction s as [|c s IH]; simpl; [reflexivity|].
  intros [Hc Hs]%andb_prop. rewrite (Hpq c Hc). auto.
Qed.

(** ** Version comparison *)

(** [int] reads a run of digits as the specification values it. *)
Lemma int_acc_decimal_value (digits : string) (acc : N) :
  Str.int_acc acc digits
  = (acc * 10 ^ N.of_nat (String.length digits) + decimal_value digits)%N.
Proof.
  revert acc. induction digits as [|c rest IH]; intros acc.
  - simpl. lia.
  - cbn [Str.int_acc decimal_value String.length]. rewrite IH.
    rewrite Nat2N.inj_succ, N.pow_succ_r'. unfold Str.code. ring.
Qed.

Lemma int_decimal_value (digits : string) : Str.int digits = decimal_value digits.
Proof. unfold Str.int. rewrite int_acc_decimal_value. lia. Qed.

Lemma is_separator_version_sep (c : ascii) : is_separator c = is_version_sep c.
Proof. destruct c as [[] [] [] [] [] [] [] []]; reflexivity. Qed.

(** Reading the pieces from the left gives the chunks of the split. *)
Lemma pieces_split (current s : string) :
  pieces current s
  = match Str.split is_version_sep s with
    | [] => [current]
    | p :: ps => (current ++ p)%string :: ps
    end.
Proof.
  revert current. induction s as [|c s IH]; intros current.
  - simpl. now rewrite append_nil_r.
  - cbn [pieces Str.split]. rewrite is_separator_version_sep.
    destruct (is_version_sep c).
    + rewrite append_nil_r, IH. pose proof (split_nonempty is_version_sep s) as Hne.
      destruct (Str.split is_version_sep s); [congruence|reflexivity].
    + rewrite IH. destruct (Str.split is_version_sep s) as [|p ps].
      * reflexivity.
      * now rewrite append_assoc.
Qed.

Lemma span_digit_run (token : string) :
  Str.span Str.is_digit token = (digit_run token, tail_after_digits token).
Proof.
  induction token as [|c rest IH]; [reflexivity|]. simpl.
  destruct (Str.is_digit c); [now rewrite IH|reflexivity].
Qed.

Lemma digit_run_all_digits (token : string) :
  Str.all Str.is_digit token = true ->
  digit_run token = token /\ tail_after_digits token = "".
Proof.
  induction token as [|c rest IH]; [auto|]. simpl.
  intros [Hc Hrest]%andb_prop. rewrite Hc. destruct (IH Hrest) as [-> ->]. auto.
Qed.

Lemma tail_after_digits_head (token : string) :
  match tail_after_digits token with
  | String c _ => Str.is_digit c = false
  | EmptyString => Str.all Str.is_digit token = true
  end.
Proof.
  induction token as [|c rest IH]; [reflexivity|]. simpl.
  destruct (Str.is_digit c) eqn:Hc; [|exact Hc].
  destruct (tail_after_digits rest); [exact IH|exact IH].
Qed.

Lemma tail_after_digits_all (p : ascii -> bool) (token : string) :
  Str.all p token = true -> Str.all p (tail_after_digits token) = true.
Proof.
  induction token as [|c rest IH]; [reflexivity|]. simpl.
  intros H. destruct (Str.is_digit c); [|exact H].
  apply andb_prop in H. now apply IH.
Qed.

Lemma span_all (p : ascii -> bool) (s : string) :
  Str.all p s = true -> Str.span p s = (s, "").
Proof.
  induction s as [|c s IH]; [reflexivity|]. simpl.
  intros [Hc Hs]%andb_prop. now rewrite Hc, IH.
Qed.

Lemma alnum_not_newline (c : ascii) : Str.is_alnum c = true -> negb (is_newline c) = true.
Proof. destruct c as [[] [] [] [] [] [] [] []]; vm_compute; congruence. Qed.

Lemma alnum_digit_or_alpha (c : ascii) :
  Str.is_alnum c = true -> Str.is_digit c = false -> Str.is_alpha c = true.
Proof. unfold Str.is_alnum. intros H Hd. now rewrite Hd in H. Qed.

(** On a token of letters and digits the component of the program is
    the value of the digit run and the tail after it. *)
Lemma component_of_token_alnum (token : string) :
  Str.all Str.is_alnum token = true -> component_of_token token = component_of token.
Proof.
  intros Halnum. unfold component_of_token, component_of, Str.isdigit.
  destruct (Str.all Str.is_digit token) eqn:Hdigits.
  - destruct (digit_run_all_digits token Hdigits) as [Hrun Htail].
    rewrite Hrun, Htail. destruct token as [|c rest]; [reflexivity|].
    cbn [Str.is_empty negb andb]. now rewrite int_decimal_value.
  - rewrite andb_false_r, span_digit_run.
    pose proof (tail_after_digits_head token) as Hhead.
    pose proof (tail_after_digits_all _ token Halnum) as Htail.
    destruct (tail_after_digits token) as [|c rest] eqn:E; [congruence|].
    destruct (digit_run token) as [|d digits] eqn:Erun.
    + simpl. f_equal.
      destruct token as [|x token]; [discriminate|]. simpl in Erun, E.
      destruct (Str.is_digit x); [discriminate|]. now rewrite E.
    + cbn [Str.all] in Htail. apply andb_prop in Htail. destruct Htail as [Hc Hrest].
      rewrite (alnum_digit_or_alpha c Hc Hhead), int_decimal_value.
      rewrite (span_all (fun x => negb (is_newline x)) (String c rest)); [reflexivity|].
      cbn [Str.all]. rewrite (alnum_not_newline c Hc).
      revert Hrest. clear. induction rest as [|x rest IH]; [reflexivity|].
      cbn [Str.all]. intros [Hx Hrest]%andb_prop.
      now rewrite (alnum_not_newline x Hx), IH.
Qed.

(** The chunks of a text of letters, digits and separators are made of
    letters and digits. *)
Lemma split_alnum (s : string) :
  Str.all (fun c => Str.is_alnum c || is_separator c) s = true ->
  Forall (fun chunk => Str.all Str.is_alnum chunk = true) (Str.split is_version_sep s).
Proof.
  induction s as [|c s IH]; [repeat constructor|]. cbn [Str.all Str.split].
  intros [Hc Hs]%andb_prop. specialize (IH Hs). rewrite is_separator_version_sep in Hc.
  destruct (is_version_sep c) eqn:Hsep.
  - constructor; [reflexivity|exact IH].
  - rewrite orb_false_r in Hc. destruct (Str.split is_version_sep s) as [|p ps].
    + repeat constructor. simpl. now rewrite Hc.
    + inversion IH; subst. constructor; [|assumption]. simpl. now rewrite Hc.
Qed.

Lemma alnum_or_separator_not_space (c : ascii) :
  Str.is_alnum c || is_separator c = true -> negb (Str.is_space c) = true.
Proof. destruct c as [[] [] [] [] [] [] [] []]; vm_compute; congruence. Qed.

Lemma is_empty_eqb (s : string) : Str.is_empty s = String.eqb s "".
Proof. now destruct s. Qed.

(** The tuple [RVersion.__init__] builds from version text is the tuple
    of the specification. *)
Lemma components_version_text (raw : string) :
  version_text raw = true -> components (RVersion_init raw) = components_of raw.
Proof.
  destruct (String.eqb_spec raw "") as [->|Hraw]; [reflexivity|].
  unfold version_text. intros [Htext _]%andb_prop.
  unfold RVersion_init, components_of, _tokenize. cbn [components].
  rewrite strip_no_space
    by (eapply all_impl; [apply alnum_or_separator_not_space|exact Htext]).
  rewrite pieces_split.
  pose proof (split_nonempty is_version_sep raw) as Hne.
  pose proof (split_alnum raw Htext) as Halnum.
  assert (Hfilter :
            List.filter (fun piece => negb (String.eqb piece ""))
              (match Str.split is_version_sep raw with
               | [] => [""]
               | p :: ps => ("" ++ p)%string :: ps
               end)
            = List.filter (fun chunk => negb (Str.is_empty chunk))
                (Str.split is_version_sep raw)).
  { destruct (Str.split is_version_sep raw) as [|p ps]; [congruence|].
    change ("" ++ p)%string with p. apply List.filter_ext. intros a.
    now rewrite is_empty_eqb. }
  rewrite Hfilter.
  assert (Htokens :
            Forall (fun chunk => Str.all Str.is_alnum chunk = true)
              (List.filter (fun chunk => negb (Str.is_empty chunk))
                 (Str.split is_version_sep raw))).
  { rewrite List.Forall_forall in *. intros x Hx. apply List.filter_In in Hx.
    apply Halnum, Hx. }
  set (tokens := List.filter (fun chunk => negb (Str.is_empty chunk))
                   (Str.split is_version_sep raw)) in *.
  destruct (Str.is_empty raw) eqn:Hempty; [destruct raw; [congruence|discriminate]|].
  destruct tokens as [|token tokens]; [reflexivity|].
  apply List.map_ext_in. intros a Ha. apply component_of_token_alnum.
  rewrite List.Forall_forall in Htokens. now apply Htokens.
Qed.

(** C7. Version comparison is lexicographic over the parsed
    (number, suffix) components once the shorter tuple is padded with
    [(0, "")]: [_compare] is -1, 0 or 1 as the plain lexicographic
    comparison of the two padded tuples is [Lt], [Eq] or [Gt], numbers
    compared first, then suffixes. The components of a version made of
    letters, digits and the separators [.], [_] and [-] are, token by
    token, the value of the leading digit run (0 without one) and the
    rest of the token; a version without token has the one component
    [(0, "")]. In particular "1.0" equals "1.0.0", "1.10" is above "1.9",
    "1.0-1" is above "1.0", "1.0a" is below "1.0b" and "2.0.0" is below
    "2.0.0-1". *)
Theorem compare_versions_lexicographic :
  (forall left right : RVersion,
      _compare left right = Z_of_comparison (version_compare left right))
  /\ (forall raw, version_text raw = true ->
        components (RVersion_init raw) = components_of raw)
  /\ (forall a b, version_text a = true -> version_text b = true ->
        compare_versions a b
        = Z_of_comparison (compare_tuples (components_of a) (components_of b)))
  /\ components (RVersion_init "1.10a") = [(1%N, ""); (10%N, "a")]
  /\ components (RVersion_init "1_0-1") = [(1%N, ""); (0%N, ""); (1%N, "")]
  /\ components (RVersion_init "3.rc2.007") = [(3%N, ""); (0%N, "rc2"); (7%N, "")]
  /\ components (RVersion_init "") = [(0%N, "")]
  /\ compare_versions "1.10a" "1.9a" = 1%Z
  /\ compare_versions "1.2" "1.10" = (-1)%Z
  /\ compare_versions "1.0" "1.0.0" = 0%Z
  /\ compare_versions "1.10" "1.9" = 1%Z
  /\ compare_versions "1.0-1" "1.0" = 1%Z
  /\ compare_versions "1.0a" "1.0b" = (-1)%Z
  /\ compare_versions "2.0.0" "2.0.0-1" = (-1)%Z.
Proof.
  split; [exact _compare_version_compare|].
  split; [exact components_version_text|].
  split; [|repeat split; reflexivity].
  intros a b Ha Hb. unfold compare_versions. rewrite _compare_version_compare.
  unfold version_compare, compare_tuples.
  now rewrite (components_version_text a Ha), (components_version_text b Hb).
Qed.

(** ** The latest Bioconductor release *)

Lemma last_default_irrelevant {A : Type} (l : list A) (x d d' : A) :
  List.last (x :: l) d = List.last (x :: l) d'.
Proof.
  revert x. induction l as [|y l IH]; intros x; [reflexivity|].
  change (List.last (y :: l) d = List.last (y :: l) d'). apply IH.
Qed.

Lemma last_map_Some {A : Type} (l : list A) (x : A) :
  List.last (List.map Some (x :: l)) None = Some (List.last (x :: l) x).
Proof.
  revert x. induction l as [|y l IH]; intros x; [reflexivity|].
  change (List.last (List.map Some (y :: l)) None = Some (List.last (y :: l) x)).
  rewrite IH. f_equal. apply last_default_irrelevant.
Qed.

Lemma latest_in_Some (table : list (string * string)) (r : string) :
  MetadataProvider.latest_bioconductor_release_in table = Some r ->
  In r (List.map fst table) /\ forall k, In k (List.map fst table) -> String.ltb r k = false.
Proof.
  unfold MetadataProvider.latest_bioconductor_release_in.
  destruct table as [|kv table]; [discriminate|].
  set (keys := List.map fst (kv :: table)).
  assert (Hne : keys <> []) by discriminate.
  destruct (stable_sort String.ltb keys) as [|x s] eqn:E.
  - exfalso. apply Hne, Permutation_nil. rewrite <- E. apply stable_sort_perm.
  - rewrite last_map_Some. intros [= Hr].
    assert (Hlast : List.last (stable_sort String.ltb keys) x = r) by now rewrite E.
    apply (stable_sort_last String.ltb) in Hlast; auto.
    + rewrite string_ltb_ltb_of. apply ltb_of_asym, string_compare_preorder.
    + rewrite string_ltb_ltb_of. apply ltb_of_not_above_trans, string_compare_preorder.
Qed.

(** C8. [latest_bioconductor_release] returns the greatest key of the
    table: for every table it is [None] exactly when the table is empty,
    and otherwise a key that no key is above in the lexicographic order of
    strings; for the shipped table of eight releases, 3.12 to 3.19, it is
    "3.19", which no key is above in the order of versions either. *)
Theorem latest_bioconductor_release_greatest :
  (forall table, MetadataProvider.latest_bioconductor_release_in table = None <-> table = [])
  /\ (forall table r, MetadataProvider.latest_bioconductor_release_in table = Some r ->
        In r (List.map fst table)
        /\ forall k, In k (List.map fst table) -> String.ltb r k = false)
  /\ List.map fst BIOCONDUCTOR_R_MATRIX
     = ["3.12"; "3.13"; "3.14"; "3.15"; "3.16"; "3.17"; "3.18"; "3.19"]
  /\ MetadataProvider.latest_bioconductor_release = Some "3.19"
  /\ (forall k, In k (List.map fst BIOCONDUCTOR_R_MATRIX) ->
        (compare_versions k "3.19" <=? 0)%Z = true).
Proof.
  split; [|split; [|split; [|split]]].
  - intros table. split.
    + intros H. destruct table as [|kv table]; [reflexivity|]. exfalso.
      unfold MetadataProvider.latest_bioconductor_release_in in H.
      destruct (stable_sort String.ltb (List.map fst (kv :: table))) as [|x s] eqn:E.
      * assert (Hp := stable_sort_perm String.ltb (List.map fst (kv :: table))).
        rewrite E in Hp. apply Permutation_nil in Hp. discriminate.
      * rewrite last_map_Some in H. discriminate.
    + intros ->. reflexivity.
  - apply latest_in_Some.
  - reflexivity.
  - reflexivity.
  - intros k Hk. simpl in Hk.
    repeat (destruct Hk as [<-|Hk]; [vm_compute; reflexivity|]). destruct Hk.
Qed.

(** ** Parsing constraint expressions *)

(** A version character is no white space. *)
Lemma version_char_not_space (c : ascii) : is_version_char c = true -> Str.is_space c = false.
Proof.
  destruct c as [[] [] [] [] [] [] [] []]; vm_compute; congruence.
Qed.

Lemma match_version_token_sound (s v : string) :
  match_version_token s = Some v ->
  exists ws rest,
    s = (ws ++ v ++ rest)%string /\ Str.all Str.is_space ws = true
    /\ v <> EmptyString /\ Str.all is_version_char v = true
    /\ match rest with String c _ => is_version_char c = false | EmptyString => True end.
Proof.
  unfold match_version_token.
  destruct (Str.span Str.is_space s) as [ws t] eqn:E1. simpl.
  destruct (Str.span is_version_char t) as [v' rest] eqn:E2.
  destruct (Str.is_empty v') eqn:Hv; [discriminate|]. intros [= <-].
  apply span_spec in E1. destruct E1 as (-> & Hws & _).
  apply span_spec in E2. destruct E2 as (-> & Hv' & Hrest).
  exists ws, rest. repeat split; auto. intros ->. discriminate.
Qed.

Lemma match_version_token_complete (ws v rest : string) :
  Str.all Str.is_space ws = true -> v <> EmptyString -> Str.all is_version_char v = true ->
  match rest with String c _ => is_version_char c = false | EmptyString => True end ->
  match_version_token (ws ++ v ++ rest)%string = Some v.
Proof.
  intros Hws Hne Hv Hrest. unfold match_version_token.
  rewrite (span_append Str.is_space ws (v ++ rest)%string Hws).
  - simpl. rewrite (span_append is_version_char v rest Hv Hrest).
    destruct v; [congruence|reflexivity].
  - destruct v as [|c v]; [congruence|]. simpl in *.
    apply andb_prop in Hv. destruct Hv as [Hc _]. now apply version_char_not_space.
Qed.

(** The class and the operators of the pattern are those of the
    specification. *)
Lemma in_token_class_version_char (c : ascii) : in_token_class c = is_version_char c.
Proof. destruct c as [[] [] [] [] [] [] [] []]; reflexivity. Qed.

Lemma all_ext (p q : ascii -> bool) (s : string) :
  (forall c, p c = q c) -> Str.all p s = Str.all q s.
Proof. intros H. induction s as [|c s IH]; simpl; [reflexivity|]. now rewrite H, IH. Qed.

Lemma is_operator_constraint_operators (op : string) :
  is_operator op <-> In op constraint_operators.
Proof. unfold is_operator. simpl. intuition (subst; auto). Qed.

Lemma token_at_operator_match (s op v : string) :
  token_at s op v <-> In op constraint_operators /\ operator_match op s = Some v.
Proof.
  unfold token_at, operator_match. rewrite <- is_operator_constraint_operators. split.
  - intros (ws & rest & -> & Hop & Hws & Hne & Hv & Hrest). split; [exact Hop|].
    rewrite (proj2 (drop_prefix_spec op _ (ws ++ v ++ rest)%string) eq_refl).
    rewrite (all_ext _ _ v in_token_class_version_char) in Hv.
    apply match_version_token_complete; auto.
    destruct rest; [exact I|]. now rewrite <- in_token_class_version_char.
  - intros [Hop H]. destruct (drop_prefix op s) as [r|] eqn:E; [|discriminate].
    apply drop_prefix_spec in E. subst s.
    apply match_version_token_sound in H.
    destruct H as (ws & rest & -> & Hws & Hne & Hv & Hrest).
    exists ws, rest. rewrite (all_ext _ _ v in_token_class_version_char).
    repeat split; auto.
    destruct rest; [exact I|]. now rewrite in_token_class_version_char.
Qed.

Lemma match_token_with_spec (ops : list string) (s : string) :
  match match_token_with ops s with
  | Some (op, v) => In op ops /\ operator_match op s = Some v
  | None => forall op, In op ops -> operator_match op s = None
  end.
Proof.
  induction ops as [|o ops IH]; simpl; [tauto|].
  unfold operator_match in *.
  destruct (drop_prefix o s) as [r|] eqn:E.
  - destruct (match_version_token r) as [v|] eqn:Ev.
    + rewrite E. auto.
    + destruct (match_token_with ops s) as [[op v]|].
      * tauto.
      * intros op [<-|H]; [now rewrite E|auto].
  - destruct (match_token_with ops s) as [[op v]|].
    + tauto.
    + intros op [<-|H]; [now rewrite E|auto].
Qed.

(** Two operators never both match at one place, so the order of the
    alternation decides nothing. *)
Lemma operator_match_exclusive (s op op' v v' : string) :
  In op constraint_operators -> In op' constraint_operators ->
  operator_match op s = Some v -> operator_match op' s = Some v' -> op = op'.
Proof.
  unfold operator_match. intros Hop Hop'.
  destruct (drop_prefix op s) as [r|] eqn:E; [|discriminate].
  destruct (drop_prefix op' s) as [r'|] eqn:E'; [|discriminate].
  apply drop_prefix_spec in E, E'. subst s.
  simpl in Hop, Hop'.
  repeat (destruct Hop as [<-|Hop]; [|try contradiction]);
    repeat (destruct Hop' as [<-|Hop']; [|try contradiction]);
    try reflexivity; simpl in E'; try discriminate;
    injection E' as E'; subst; vm_compute; congruence.
Qed.

Lemma match_token_at_spec (s op v : string) :
  match_token_at s = Some (op, v) <-> token_at s op v.
Proof.
  rewrite token_at_operator_match. unfold match_token_at.
  pose proof (match_token_with_spec constraint_operators s) as H. split.
  - intros E. now rewrite E in H.
  - intros [Hop Hm]. destruct (match_token_with constraint_operators s) as [[op' v']|].
    + destruct H as [Hop' Hm'].
      assert (op = op') by (eapply operator_match_exclusive; eauto). subst op'.
      congruence.
    + rewrite (H op Hop) in Hm. discriminate.
Qed.

Lemma match_token_at_None (s : string) :
  match_token_at s = None <-> forall op v, ~ token_at s op v.
Proof.
  split.
  - intros E op v H. apply match_token_at_spec in H. congruence.
  - intros H. destruct (match_token_at s) as [[op v]|] eqn:E; [|reflexivity].
    apply match_token_at_spec in E. now apply H in E.
Qed.

(** [search] finds the leftmost match. *)
Lemma search_constraint_token_Some (s op v : string) :
  search_constraint_token s = Some (op, v) -> first_token s op v.
Proof.
  unfold first_token. induction s as [|c s IH].
  - vm_compute. discriminate.
  - cbn [search_constraint_token]. destruct (match_token_at (String c s)) as [m|] eqn:E.
    + intros [= ->]. exists "", (String c s). split; [reflexivity|]. split.
      * now apply match_token_at_spec.
      * simpl. intros; lia.
    + intros H. destruct (IH H) as (pre & suf & -> & Htok & Hmin).
      exists (String c pre), suf. split; [reflexivity|]. split; [exact Htok|].
      intros pre' suf' op' v' Hs Hlen Htok'.
      destruct pre' as [|c' pre'].
      * simpl in Hs. subst suf'. revert Htok'. now apply match_token_at_None.
      * simpl in Hs, Hlen. injection Hs as -> Hs.
        apply (Hmin pre' suf' op' v'); auto. lia.
Qed.



Lemma parse_fragments_flat_map (fragments : list string) :
  parse_fragments fragments =
  flat_map (fun fragment =>
              match search_constraint_token (Str.strip fragment) with
              | Some (op, version) => [VersionConstraint.mk op version]
              | None => []
              end) fragments.
Proof.
  induction fragments as [|f fs IH]; [reflexivity|]. simpl. rewrite IH.
  destruct (Str.is_empty (Str.strip f)) eqn:E.
  - destruct (Str.strip f); [|discriminate]. reflexivity.
  - destruct (search_constraint_token (Str.strip f)) as [[op v]|]; reflexivity.
Qed.






(** ** Normalised dependencies *)

(** C2. [_split_r_requirement] keeps, for one dependency on [R], the last
    of its [>=] and [>] constraints and not the greatest: for the single
    entry [R (>= 4.0, >= 3.0)], given as a list entry or as an item of a
    mapping, the resulting [r_min] is "3.0" although "4.0" is the greater
    version. Given inside a comma-separated string the entry is cut at its
    comma, no dependency on [R] is recognised and [r_min] stays unset. *)
Theorem r_min_keeps_last_lower_bound :
  _split_r_requirement
    [Dependency.mk "R" [VersionConstraint.mk ">=" "4.0"; VersionConstraint.mk ">=" "3.0"]
       "Depends" false None]
  = (Some "3.0", [])
  /\ _build_dependencies (payload_with (SecList [Some "R (>= 4.0, >= 3.0)"]) SecAbsent) false
     = ([], Some "3.0")
  /\ _build_dependencies (payload_with (SecDict [("R", ">= 4.0, >= 3.0")]) SecAbsent) false
     = ([], Some "3.0")
  /\ compare_versions "4.0" "3.0" = 1%Z
  /\ _build_dependencies (payload_with (SecStr "R (>= 4.0, >= 3.0)") SecAbsent) false
     = ([Dependency.mk "R (>= 4.0" [] "Depends" false None;
         Dependency.mk ">= 3.0)" [] "Depends" false None], None).
Proof. repeat split; vm_compute; reflexivity. Qed.

Lemma split_r_loop_remaining (dependencies : list Dependency.t) (r : option string)
    (remaining : list Dependency.t) :
  snd (split_r_loop dependencies r remaining)
  = remaining ++ List.filter (fun dep => negb (String.eqb (Str.lower (Dependency.name dep)) "r"))
                             dependencies.
Proof.
  revert r remaining. induction dependencies as [|dep deps IH]; intros r remaining; simpl.
  - now rewrite app_nil_r.
  - destruct (String.eqb (Str.lower (Dependency.name dep)) "r"); simpl.
    + apply IH.
    + rewrite IH, <- app_assoc. reflexivity.
Qed.

Lemma build_dependencies_filtered (payload : Payload.t) (include_optional : bool)
    (dep : Dependency.t) :
  In dep (fst (_build_dependencies payload include_optional)) ->
  Str.lower (Dependency.name dep) <> "r"
  /\ (Str.lower (Dependency.name dep) ∉ BASE_R_PACKAGES).
Proof.
  unfold _build_dependencies, _split_r_requirement.
  match goal with
  | |- context [split_r_loop ?d None []] =>
      pose proof (split_r_loop_remaining d None []) as H;
      destruct (split_r_loop d None []) as [r_min rest]
  end.
  simpl in *. subst rest. intros Hin.
  apply List.filter_In in Hin. destruct Hin as [Hin Hbase].
  apply List.filter_In in Hin. destruct Hin as [_ Hr]. split.
  - intros E. rewrite E in Hr. discriminate.
  - apply negb_true_iff, bool_decide_eq_false in Hbase. exact Hbase.
Qed.

(** C3. The dependencies of a normalised payload contain no dependency
    named [R] (or [r]) and none of the thirteen base packages whose names
    are lower case; the fourteenth, [grDevices], is compared in lower case
    against a set that holds it in mixed case and is not removed: a
    payload with [Imports: "grDevices"] keeps the dependency [grDevices],
    through each normaliser. *)
Theorem build_dependencies_base_filter :
  (forall payload include_optional dep,
      In dep (fst (_build_dependencies payload include_optional)) ->
      Dependency.name dep <> "R" /\ Dependency.name dep <> "r"
      /\ forall b, In b lowercase_base_packages -> Dependency.name dep <> b)
  /\ ("grDevices" ∈ BASE_R_PACKAGES)
  /\ (Str.lower "grDevices" ∉ BASE_R_PACKAGES)
  /\ _build_dependencies (payload_with SecAbsent (SecStr "grDevices")) false
     = ([Dependency.mk "grDevices" [] "Imports" false None], None)
  /\ PackageVersion.dependencies
       (_normalize_cran_payload "pkg" (payload_with SecAbsent (SecStr "grDevices")) "1.0")
     = [Dependency.mk "grDevices" [] "Imports" false None]
  /\ PackageVersion.dependencies
       (_normalize_bioc_payload "pkg" (payload_with SecAbsent (SecStr "grDevices")) "3.19")
     = [Dependency.mk "grDevices" [] "Imports" false None].
Proof.
  split; [|split; [|split; [|split; [|split]]]].
  - intros payload include_optional dep Hin.
    apply build_dependencies_filtered in Hin. destruct Hin as [Hr Hbase].
    split; [intros E; apply Hr; now rewrite E|].
    split; [intros E; apply Hr; now rewrite E|].
    intros b Hb E. apply Hbase. rewrite E. simpl in Hb.
    repeat (destruct Hb as [<-|Hb];
            [apply (bool_decide_eq_true_1 _); vm_compute; reflexivity|]).
    destruct Hb.
  - apply (bool_decide_eq_true_1 _). vm_compute. reflexivity.
  - apply (bool_decide_eq_false_1 _). vm_compute. reflexivity.
  - vm_compute. reflexivity.
  - vm_compute. reflexivity.
  - vm_compute. reflexivity.
Qed.

(** ** Memoisation in the provider *)

Section ProviderFacts.
Variable fetch_cran_package : list fetch_call -> string -> res CranRaw.t.
Variable fetch_bioconductor_release : list fetch_call -> string -> res (list (string * Payload.t)).
Variable fetch_github_description :
  list fetch_call -> string -> string -> option string -> option string -> res GithubDescriptor.t.

(** After a successful [get_cran_versions] the same call answers from
    the memo: same result, same provider, no fetch. *)
Lemma get_cran_versions_memoized (package : string) (p p' : MetadataProvider.t)
    (versions : list PackageVersion.t) :
  MetadataProvider.get_cran_versions fetch_cran_package package p = (Ok versions, p') ->
  MetadataProvider.get_cran_versions fetch_cran_package package p' = (Ok versions, p').
Proof.
  unfold MetadataProvider.get_cran_versions at 1.
  destruct (MetadataProvider._cran p !! package) as [vs|] eqn:Hmemo.
  - intros [= <- <-]. unfold MetadataProvider.get_cran_versions. now rewrite Hmemo.
  - destruct (MetadataProvider.cache_cran p !! _) as [raw|];
      [destruct (CranRaw.is_empty raw)|]; simpl;
      try destruct (fetch_cran_package _ package) as [raw'|e]; simpl; try discriminate;
      intros [= <- <-]; unfold MetadataProvider.get_cran_versions; simpl;
      now rewrite lookup_insert_eq.
Qed.

(** A successful [get_cran_versions] fetches at most once. *)
Lemma get_cran_versions_fetches_once (package : string) (p p' : MetadataProvider.t)
    (r : res (list PackageVersion.t)) :
  MetadataProvider.get_cran_versions fetch_cran_package package p = (r, p') ->
  MetadataProvider.fetched p' = MetadataProvider.fetched p
  \/ MetadataProvider.fetched p' = FetchCran package :: MetadataProvider.fetched p.
Proof.
  unfold MetadataProvider.get_cran_versions.
  destruct (MetadataProvider._cran p !! package) as [vs|].
  - intros [= <- <-]. now left.
  - destruct (MetadataProvider.cache_cran p !! _) as [raw|].
    + destruct (CranRaw.is_empty raw).
      * simpl. destruct (fetch_cran_package _ package); intros [= <- <-]; now right.
      * intros [= <- <-]. now left.
    + simpl. destruct (fetch_cran_package _ package); intros [= <- <-]; now right.
Qed.

Lemma _load_bioc_release_memoized (release : string) (p p' : MetadataProvider.t)
    (normalized : gmap string PackageVersion.t) :
  MetadataProvider._load_bioc_release fetch_bioconductor_release release p = (Ok normalized, p') ->
  MetadataProvider._load_bioc_release fetch_bioconductor_release release p' = (Ok normalized, p').
Proof.
  unfold MetadataProvider._load_bioc_release at 1.
  destruct (MetadataProvider._bioc p !! release) as [vs|] eqn:Hmemo.
  - intros [= <- <-]. unfold MetadataProvider._load_bioc_release. now rewrite Hmemo.
  - destruct (MetadataProvider.cache_bioconductor p !! _) as [[|kv raw]|]; simpl;
      try destruct (fetch_bioconductor_release _ release) as [raw'|e]; simpl; try discriminate;
      intros [= <- <-]; unfold MetadataProvider._load_bioc_release; simpl;
      now rewrite lookup_insert_eq.
Qed.

Lemma get_bioconductor_versions_memoized (package release : string)
    (p p' : MetadataProvider.t) (versions : list PackageVersion.t) :
  MetadataProvider.get_bioconductor_versions fetch_bioconductor_release package release p
  = (Ok versions, p') ->
  MetadataProvider.get_bioconductor_versions fetch_bioconductor_release package release p'
  = (Ok versions, p').
Proof.
  unfold MetadataProvider.get_bioconductor_versions.
  destruct (MetadataProvider._load_bioc_release fetch_bioconductor_release release p)
    as [[normalized|e] q] eqn:E; [|discriminate].
  destruct (normalized !! package) as [v|] eqn:Hv; [|discriminate].
  intros [= <- <-]. rewrite (_load_bioc_release_memoized _ _ _ _ E), Hv. reflexivity.
Qed.

(** No operation of the provider drops an entry of the CRAN memo, so the
    memoised answer for a package outlives any calls in between. *)
Lemma cran_memo_persists (package other : string) (release owner repo : string)
    (ref token : option string) (p : MetadataProvider.t) (versions : list PackageVersion.t) :
  MetadataProvider._cran p !! package = Some versions ->
  MetadataProvider._cran
    (snd (MetadataProvider.get_cran_versions fetch_cran_package other p)) !! package
  = Some versions
  /\ MetadataProvider._cran
       (snd (MetadataProvider.get_bioconductor_versions fetch_bioconductor_release
               other release p)) !! package
     = Some versions
  /\ MetadataProvider._cran
       (snd (MetadataProvider.get_github_version fetch_github_description
               owner repo ref token p)) !! package
     = Some versions.
Proof.
  intros Hmemo. split; [|split].
  - unfold MetadataProvider.get_cran_versions.
    destruct (MetadataProvider._cran p !! other) as [vs|] eqn:Hother; [exact Hmemo|].
    assert (Hne : other <> package) by congruence.
    destruct (MetadataProvider.cache_cran p !! _) as [raw|];
      [destruct (CranRaw.is_empty raw)|]; simpl;
      try destruct (fetch_cran_package _ other) as [raw'|e]; simpl;
      rewrite ?lookup_insert_ne by exact Hne; exact Hmemo.
  - unfold MetadataProvider.get_bioconductor_versions, MetadataProvider._load_bioc_release.
    destruct (MetadataProvider._bioc p !! release) as [normalized|].
    + destruct (normalized !! other); exact Hmemo.
    + destruct (MetadataProvider.cache_bioconductor p !! _) as [[|kv raw]|]; simpl;
        try destruct (fetch_bioconductor_release _ release) as [raw'|e]; simpl;
        try match goal with
            | |- context [?m !! other] => destruct (m !! other)
            end; exact Hmemo.
  - unfold MetadataProvider.get_github_version.
    destruct (fetch_github_description _ owner repo ref token) as [d|e]; [|exact Hmemo].
    destruct (_normalize_github_payload _) as [v|e]; exact Hmemo.
Qed.

(** [get_github_version] asks the network on every call, whatever the
    provider has memoised. *)
Lemma get_github_version_always_fetches (owner repo : string) (ref token : option string)
    (p : MetadataProvider.t) :
  MetadataProvider.fetched
    (snd (MetadataProvider.get_github_version fetch_github_description owner repo ref token p))
  = FetchGithub owner repo ref token :: MetadataProvider.fetched p.
Proof.
  unfold MetadataProvider.get_github_version.
  destruct (fetch_github_description _ owner repo ref token) as [d|e]; [|reflexivity].
  destruct (_normalize_github_payload _) as [v|e]; reflexivity.
Qed.
End ProviderFacts.

(** C4. The CRAN and Bioconductor memos hold: once [get_cran_versions] or
    [get_bioconductor_versions] has succeeded, the same call returns the
    memoised result and leaves the provider, its fetch log included, as it
    is. [get_github_version] never looks at its memo: every call invokes
    the fetcher, so two successful identical calls, directly or through
    [get_versions], fetch twice. *)
Theorem github_version_fetched_on_every_call :
  (forall net package p p' versions,
      MetadataProvider.get_cran_versions net package p = (Ok versions, p') ->
      MetadataProvider.get_cran_versions net package p' = (Ok versions, p'))
  /\ (forall net package release p p' versions,
        MetadataProvider.get_bioconductor_versions net package release p = (Ok versions, p') ->
        MetadataProvider.get_bioconductor_versions net package release p' = (Ok versions, p'))
  /\ (forall net owner repo ref token p,
        MetadataProvider.fetched
          (snd (MetadataProvider.get_github_version net owner repo ref token p))
        = FetchGithub owner repo ref token :: MetadataProvider.fetched p)
  /\ (let '(first, second, p2) := twice_github in
      first = Ok pretty_name /\ second = Ok pretty_name
      /\ MetadataProvider._github p2 !! ("user", "MyPkg", "0a1b2c") = Some pretty_name
      /\ MetadataProvider.fetch_count (FetchGithub "user" "MyPkg" None None) p2 = 2)
  /\ (let '(first, p1) :=
        MetadataProvider.get_versions steady_cran steady_bioc steady_github
          "user/MyPkg" "github" None None None MetadataProvider.init in
      let '(second, p2) :=
        MetadataProvider.get_versions steady_cran steady_bioc steady_github
          "user/MyPkg" "github" None None None p1 in
      first = Ok [pretty_name] /\ second = Ok [pretty_name]
      /\ MetadataProvider.fetch_count (FetchGithub "user" "MyPkg" None None) p2 = 2).
Proof.
  split; [|split; [|split; [|split]]].
  - intros net. apply get_cran_versions_memoized.
  - intros net. apply get_bioconductor_versions_memoized.
  - intros net. apply get_github_version_always_fetches.
  - vm_compute. repeat split; reflexivity.
  - vm_compute. repeat split; reflexivity.
Qed.

(** ** Backtracking over the candidates of a package *)

(** When the dependencies of a candidate fail, the loop goes on with the
    state the failure left behind, less the assignment of the package
    itself. *)
Lemma try_candidates_abandon (self : EnvironmentSolver.t)
    (rp : PackageRequest.t -> ResolutionState.t -> outcome PackageSelection.t * ResolutionState.t)
    (request : PackageRequest.t) (aggregated previous : list VersionConstraint.t)
    (all_candidates rest : list PackageVersion.t) (candidate : PackageVersion.t)
    (failures : list ResolutionError.t) (state state' : ResolutionState.t)
    (error : ResolutionError.t) :
  resolve_dependencies_with self rp (selection_of candidate) request
    (ResolutionState.set_constraints (insert (PackageRequest.package request) aggregated)
       (ResolutionState.set_assignments
          (insert (PackageRequest.package request) (selection_of candidate)) state))
  = (Throw (ResolutionErr error), state') ->
  is_Some (ResolutionState.assignments state' !! PackageRequest.package request) ->
  try_candidates self rp request aggregated previous all_candidates (candidate :: rest)
    failures state
  = try_candidates self rp request aggregated previous all_candidates rest
      (failures ++ [error])
      (ResolutionState.set_assignments (delete (PackageRequest.package request)) state').
Proof.
  intros Hdeps [sel Hsel]. cbn [try_candidates]. rewrite Hdeps.
  unfold assignments_del. rewrite Hsel. reflexivity.
Qed.

Section KeepsAssignments.
Variable self : EnvironmentSolver.t.
Variable rp : PackageRequest.t -> ResolutionState.t -> outcome PackageSelection.t * ResolutionState.t.
Hypothesis rp_keeps : keeps_assignments rp.

Lemma resolve_dependency_list_keeps (dependencies : list Dependency.t)
    (selection : PackageSelection.t) (request : PackageRequest.t) (state : ResolutionState.t) :
  ResolutionState.assignments state
  ⊆ ResolutionState.assignments
      (snd (resolve_dependency_list self rp dependencies selection request state)).
Proof.
  revert state. induction dependencies as [|d ds IH]; intros state; simpl; [reflexivity|].
  destruct (Dependency.optional d && negb (ResolutionState.include_optional state));
    [apply IH|].
  pose proof (rp_keeps (child_request self selection request d) state) as H.
  destruct (rp (child_request self selection request d) state) as [[sel|e|] st']; simpl in *;
    [|exact H|exact H].
  etransitivity; [exact H|apply IH].
Qed.

Lemma try_candidates_keeps (request : PackageRequest.t)
    (aggregated previous : list VersionConstraint.t)
    (all_candidates candidates : list PackageVersion.t) (failures : list ResolutionError.t)
    (state : ResolutionState.t) :
  ResolutionState.assignments state !! PackageRequest.package request = None ->
  ResolutionState.assignments state
  ⊆ ResolutionState.assignments
      (snd (try_candidates self rp request aggregated previous all_candidates candidates
              failures state)).
Proof.
  revert failures state. induction candidates as [|c cs IH]; intros failures state Hnone.
  - cbn [try_candidates]. unfold exhausted, visiting_remove.
    case_bool_decide; simpl; [|reflexivity].
    destruct previous; reflexivity.
  - cbn [try_candidates]. unfold resolve_dependencies_with.
    match goal with
    | |- context [resolve_dependency_list self rp ?ds ?sel request ?st] =>
        pose proof (resolve_dependency_list_keeps ds sel request st) as H;
        destruct (resolve_dependency_list self rp ds sel request st) as [[u|e|] st']
    end; simpl in H.
    + assert (Hsub : ResolutionState.assignments state ⊆ ResolutionState.assignments st').
      { etransitivity; [|exact H]. now apply insert_subseteq. }
      unfold visiting_remove. case_bool_decide; exact Hsub.
    + assert (Hsub : ResolutionState.assignments state ⊆ ResolutionState.assignments st').
      { etransitivity; [|exact H]. now apply insert_subseteq. }
      destruct e as [error| | | |]; try exact Hsub.
      unfold assignments_del.
      destruct (ResolutionState.assignments st' !! PackageRequest.package request)
        eqn:Hsel; [|exact Hsub].
      etransitivity; [|apply IH; simpl; apply lookup_delete_eq].
      simpl. apply map_subseteq_spec. intros i x Hi.
      rewrite lookup_delete_ne by congruence.
      eapply (proj1 (map_subseteq_spec _ _) Hsub); eauto.
    + simpl. etransitivity; [|exact H]. now apply insert_subseteq.
Qed.

Lemma resolve_package_body_keeps : keeps_assignments (resolve_package_body self rp).
Proof.
  intros request state. unfold resolve_package_body.
  case_bool_decide.
  - destruct (ResolutionState.assignments state !! PackageRequest.package request);
      reflexivity.
  - destruct (ResolutionState.assignments state !! PackageRequest.package request)
      as [existing|] eqn:Hsel.
    + destruct (satisfies_all _ _) as [[|]|e]; try reflexivity.
      match goal with |- context [if ?b then _ else _] => destruct b end; reflexivity.
    + destruct (_candidate_versions _ _ _ _) as [[|c cs]|e]; try reflexivity.
      apply (try_candidates_keeps request _ _ (c :: cs) (c :: cs) []
               (ResolutionState.set_visiting _ state)).
      exact Hsel.
Qed.
End KeepsAssignments.

Lemma _resolve_package_keeps (fuel : nat) (self : EnvironmentSolver.t) :
  keeps_assignments (_resolve_package fuel self).
Proof.
  induction fuel as [|fuel IH].
  - intros request state. reflexivity.
  - apply resolve_package_body_keeps, IH.
Qed.

(** With the recursion of the solver itself the package is still
    assigned when the error arrives, so the deletion cannot fail. *)
Lemma abandoned_candidate_step (fuel : nat) (self : EnvironmentSolver.t)
    (request : PackageRequest.t) (aggregated previous : list VersionConstraint.t)
    (all_candidates rest : list PackageVersion.t) (candidate : PackageVersion.t)
    (failures : list ResolutionError.t) (state state' : ResolutionState.t)
    (error : ResolutionError.t) :
  _resolve_dependencies fuel self (selection_of candidate) request
    (ResolutionState.set_constraints (insert (PackageRequest.package request) aggregated)
       (ResolutionState.set_assignments
          (insert (PackageRequest.package request) (selection_of candidate)) state))
  = (Throw (ResolutionErr error), state') ->
  try_candidates self (_resolve_package fuel self) request aggregated previous all_candidates
    (candidate :: rest) failures state
  = try_candidates self (_resolve_package fuel self) request aggregated previous all_candidates
      rest (failures ++ [error])
      (ResolutionState.set_assignments (delete (PackageRequest.package request)) state').
Proof.
  intros Hdeps. apply try_candidates_abandon; [exact Hdeps|].
  exists (selection_of candidate).
  pose proof (resolve_dependency_list_keeps self (_resolve_package fuel self)
                (_resolve_package_keeps fuel self)
                (PackageSelection.dependencies (selection_of candidate))
                (selection_of candidate) request
                (ResolutionState.set_constraints
                   (insert (PackageRequest.package request) aggregated)
                   (ResolutionState.set_assignments
                      (insert (PackageRequest.package request) (selection_of candidate))
                      state))) as Hkeep.
  unfold _resolve_dependencies, resolve_dependencies_with in Hdeps.
  rewrite Hdeps in Hkeep. simpl in Hkeep.
  eapply lookup_weaken; [|exact Hkeep]. apply lookup_insert_eq.
Qed.

(** In the scenario the dependencies of P 2.0 fail on Y, after X has been
    selected. *)
Example orphan_dependencies_fail :
  let request := request_of_target (cran_target "P" []) in
  let candidate :=
    cran_version "P" "2.0" None
      [depends_on "X" []; depends_on "Y" [VersionConstraint.mk ">=" "2.0"]] in
  let started :=
    ResolutionState.set_constraints (insert "P" [])
      (ResolutionState.set_assignments (insert "P" (selection_of candidate))
         (ResolutionState.set_visiting (fun v => v ∪ {["P"]})
            (initial_state orphan_solver "4.0.0"))) in
  let '(result, state') :=
    _resolve_dependencies 4 orphan_solver (selection_of candidate) request started in
  result = Throw (ResolutionErr
                    (ResolutionError.mk "Y" ["P"; "P"]
                       "No candidate versions satisfy constraints" (Some ["(none)"])))
  /\ ResolutionState.assignments state' !! "X"
     = Some (selection_of (cran_version "X" "1.0" None [])).
Proof. vm_compute. split; reflexivity. Qed.

(** C10. When a tentative candidate for a package is abandoned because
    resolving its dependencies raised a [ResolutionError], the search goes
    on from the state the failure left, with only the assignment of that
    package deleted: every other package keeps the selection it had when
    the error was raised, and no call of [_resolve_package], failed or
    not, removes a selection that was there when it started. So a plan may
    hold a selection that nothing in it depends on: with P 2.0 depending
    on X and on Y (>= 2.0), only Y 1.0 available and P 1.0 without
    dependencies, the plan for the target P selects P 1.0 and still holds
    X 1.0. *)
Theorem abandoned_candidate_leaves_dependency_selections :
  (forall fuel self request aggregated previous all_candidates rest candidate failures
          state state' error,
      _resolve_dependencies fuel self (selection_of candidate) request
        (ResolutionState.set_constraints (insert (PackageRequest.package request) aggregated)
           (ResolutionState.set_assignments
              (insert (PackageRequest.package request) (selection_of candidate)) state))
      = (Throw (ResolutionErr error), state') ->
      exists next,
        try_candidates self (_resolve_package fuel self) request aggregated previous
          all_candidates (candidate :: rest) failures state
        = try_candidates self (_resolve_package fuel self) request aggregated previous
            all_candidates rest (failures ++ [error]) next
        /\ ResolutionState.assignments next
           = delete (PackageRequest.package request) (ResolutionState.assignments state')
        /\ forall other, other <> PackageRequest.package request ->
             ResolutionState.assignments next !! other
             = ResolutionState.assignments state' !! other)
  /\ (forall fuel self request state,
        ResolutionState.assignments state
        ⊆ ResolutionState.assignments (snd (_resolve_package fuel self request state)))
  /\ solve 5 orphan_solver [cran_target "P" []] "4.0.0" = Return orphan_plan
  /\ ResolutionPlan.selections orphan_plan !! "X"
     = Some (selection_of (cran_version "X" "1.0" None []))
  /\ (forall name selection,
        ResolutionPlan.selections orphan_plan !! name = Some selection ->
        ~ In "X" (List.map Dependency.name (PackageSelection.dependencies selection))).
Proof.
  split; [|split; [|split; [|split]]].
  - intros fuel self request aggregated previous all_candidates rest candidate failures
      state state' error Hdeps.
    exists (ResolutionState.set_assignments (delete (PackageRequest.package request)) state').
    split; [now apply abandoned_candidate_step|]. split; [reflexivity|].
    intros other Hne. simpl. now apply lookup_delete_ne.
  - intros fuel self. apply _resolve_package_keeps.
  - vm_compute. reflexivity.
  - vm_compute. reflexivity.
  - intros name selection. unfold orphan_plan. cbn [ResolutionPlan.selections].
    rewrite lookup_insert. case_decide.
    + intros [= <-]. simpl. tauto.
    + rewrite lookup_insert. case_decide; [|rewrite lookup_empty; discriminate].
      intros [= <-]. simpl. tauto.
Qed.

(** ** A constraint no version satisfies *)

Section Unsatisfiable.
Variable self : EnvironmentSolver.t.
Variable request : PackageRequest.t.
Variable constraints : list VersionConstraint.t.

Hypothesis github_slug_unset : PackageRequest.github_slug request = None.

(** Whatever the provider serves for the package fails the constraints,
    and it raises nothing but [MetadataFetchError]. *)
Hypothesis nothing_satisfies :
  forall source release ref token,
    match EnvironmentSolver.metadata self (PackageRequest.package request)
            source release ref token with
    | Ok versions =>
        forall v, In v versions -> satisfies_all (PackageVersion.version v) constraints = Ok false
    | Raise e => exists msg, e = MetadataFetchError msg
    end.

Lemma collect_versions_none (candidate_r : string) (versions : list PackageVersion.t)
    (seen : list (string * string)) (results : list PackageVersion.t) :
  (forall v, In v versions -> satisfies_all (PackageVersion.version v) constraints = Ok false) ->
  collect_versions candidate_r constraints versions seen results = Ok (seen, results).
Proof.
  induction versions as [|v vs IH]; intros H; [reflexivity|]. cbn [collect_versions].
  assert (Hv := H v (or_introl eq_refl)).
  assert (Hvs : forall w, In w vs -> satisfies_all (PackageVersion.version w) constraints = Ok false)
    by (intros w Hw; apply H; now right).
  match goal with |- context [if ?b then _ else _] => destruct b end; [now apply IH|].
  destruct constraints as [|c cs]; [discriminate|].
  rewrite Hv. now apply IH.
Qed.

Lemma load_versions_none (source : string) :
  match _load_versions_for_source self request source with
  | Ok versions =>
      forall v, In v versions -> satisfies_all (PackageVersion.version v) constraints = Ok false
  | Raise e => exists msg, e = MetadataFetchError msg
  end.
Proof.
  unfold _load_versions_for_source.
  destruct (String.eqb (Str.lower source) "cran"); [apply nothing_satisfies|].
  destruct (String.eqb (Str.lower source) "bioc" || String.eqb (Str.lower source) "bioconductor").
  - match goal with |- context [if ?b then _ else _] => destruct b end;
      [apply nothing_satisfies|eauto].
  - destruct (String.eqb (Str.lower source) "github"); [|eauto].
    rewrite github_slug_unset. simpl. apply nothing_satisfies.
Qed.

Lemma collect_sources_none (candidate_r : string) (sources : list string)
    (seen : list (string * string)) (results : list PackageVersion.t) :
  collect_sources self request candidate_r constraints sources seen results = Ok results.
Proof.
  revert seen results. induction sources as [|source rest IH]; intros seen results;
    [reflexivity|].
  cbn [collect_sources]. pose proof (load_versions_none source) as H.
  destruct (_load_versions_for_source self request source) as [versions|e].
  - rewrite (collect_versions_none candidate_r versions seen results H). apply IH.
  - destruct H as [msg ->]. apply IH.
Qed.

Lemma _candidate_versions_none (state : ResolutionState.t) :
  _candidate_versions self request state constraints = Ok [].
Proof.
  unfold _candidate_versions. now rewrite collect_sources_none.
Qed.
End Unsatisfiable.

(** The first target resolved in a fresh state, when nothing satisfies its
    constraints. *)
Lemma solve_unsatisfiable (metadata : provider) (target : TargetContext.t)
    (rest : list TargetContext.t) (include_optional : bool) (prefer : option string)
    (fuel : nat) (r : string) :
  (forall source release ref token,
      match metadata (TargetContext.package target) source release ref token with
      | Ok versions =>
          forall v, In v versions ->
            satisfies_all (PackageVersion.version v) (TargetContext.constraints target) = Ok false
      | Raise e => exists msg, e = MetadataFetchError msg
      end) ->
  solve (S fuel) (EnvironmentSolver.mk metadata include_optional prefer) (target :: rest) r
  = Throw (ResolutionErr
             (ResolutionError.mk (TargetContext.package target) [TargetContext.identifier target]
                "No candidate versions satisfy constraints" (Some ["(none)"]))).
Proof.
  intros H. unfold solve. cbn [solve_targets _resolve_package].
  unfold resolve_package_body.
  cbn [initial_state ResolutionState.visiting ResolutionState.assignments
       ResolutionState.constraints request_of_target PackageRequest.package
       PackageRequest.constraints PackageRequest.required_by].
  rewrite bool_decide_eq_false_2 by set_solver.
  rewrite !lookup_empty. cbn [app].
  rewrite (_candidate_versions_none (EnvironmentSolver.mk metadata include_optional prefer)
             (request_of_target target) (TargetContext.constraints target) eq_refl H).
  reflexivity.
Qed.

(** Only foo 1.0 is served, and it is not 9.9 or later. *)
Lemma foo_only_nothing_satisfies (source : string) (release ref token : option string) :
  match foo_only (TargetContext.package foo_target) source release ref token with
  | Ok versions =>
      forall v, In v versions ->
        satisfies_all (PackageVersion.version v) (TargetContext.constraints foo_target)
        = Ok false
  | Raise e => exists msg, e = MetadataFetchError msg
  end.
Proof.
  unfold foo_only, preloaded.
  destruct (String.eqb (Str.lower source) "cran").
  - simpl. intros v [<-|[]]. vm_compute. reflexivity.
  - destruct (String.eqb (Str.lower source) "bioc" || String.eqb (Str.lower source) "bioconductor").
    + destruct release; simpl; eauto.
    + eauto.
Qed.

(** The set of the supported R versions is not empty, in whatever order
    it is iterated. *)
Lemma candidate_r_versions_not_empty (set_order : list RVersion -> list RVersion) :
  (forall l, Permutation (set_order l) l) ->
  candidate_r_versions set_order [] <> [].
Proof.
  intros Hperm E.
  assert (Hnil : forall l, sorted_set set_order l = [] -> l = []).
  { intros [|v l] H; [reflexivity|]. exfalso. unfold sorted_set in H.
    assert (Hin : In v (stable_sort RVersion_lt (set_order (dedup_versions (v :: l))))).
    { apply stable_sort_In. eapply Permutation_in; [symmetry; apply Hperm|]. now left. }
    rewrite H in Hin. destruct Hin. }
  unfold candidate_r_versions in E. cbn [List.map] in E. rewrite app_nil_r in E.
  apply Hnil, Hnil in E. discriminate.
Qed.

(** C1. The target foo (>= 9.9) with only foo 1.0 available. Every
    [solve], whatever the candidate R, raises the [ResolutionError] on
    foo whose candidates are ["(none)"]: the error the conflict is to be
    built from. [compute_resolution] builds the [Conflict] of the first
    such error with the keyword [candidates], which [Conflict] does not
    have, so a [TypeError] ends the call, with or without a locked R and
    in whatever order the set of candidate R versions is iterated: no
    null plan with a conflict on foo is returned. *)
Theorem unsatisfiable_constraint_raises_type_error :
  parse_constraint_expression ">= 9.9" = TargetContext.constraints foo_target
  /\ List.length SUPPORTED_R_VERSIONS = 18
  /\ (forall include_optional prefer fuel r,
        solve (S fuel) (EnvironmentSolver.mk foo_only include_optional prefer) [foo_target] r
        = Throw (ResolutionErr
                   (ResolutionError.mk "foo" ["foo"]
                      "No candidate versions satisfy constraints" (Some ["(none)"]))))
  /\ (forall set_order fuel include_optional prefer locked_r,
        (forall l, Permutation (set_order l) l) ->
        compute_resolution set_order (S fuel) foo_only [foo_target] include_optional prefer
          locked_r
        = Throw (TypeError
                   "Conflict.__init__() got an unexpected keyword argument 'candidates'"))
  /\ (forall error,
        conflict_of_error error
        = Raise (TypeError
                   "Conflict.__init__() got an unexpected keyword argument 'candidates'"))
  /\ compute_resolution insertion_order 10 foo_only [foo_target] false None None
     = Throw (TypeError "Conflict.__init__() got an unexpected keyword argument 'candidates'")
  /\ compute_resolution insertion_order 10 foo_only [foo_target] false None (Some "4.3.0")
     = Throw (TypeError "Conflict.__init__() got an unexpected keyword argument 'candidates'")
  /\ ~ (exists conflict,
          compute_resolution insertion_order 10 foo_only [foo_target] false None None
          = Return (None, [conflict])
          /\ Conflict.package conflict = "foo"
          /\ Conflict.candidates_considered conflict = ["(none)"]).
Proof.
  assert (Hsolve : forall include_optional prefer fuel r,
             solve (S fuel) (EnvironmentSolver.mk foo_only include_optional prefer)
               [foo_target] r
             = Throw (ResolutionErr
                        (ResolutionError.mk "foo" ["foo"]
                           "No candidate versions satisfy constraints" (Some ["(none)"])))).
  { intros include_optional prefer fuel r.
    apply (solve_unsatisfiable foo_only foo_target [] include_optional prefer fuel r).
    apply foo_only_nothing_satisfies. }
  split; [reflexivity|]. split; [reflexivity|]. split; [exact Hsolve|].
  split; [|split; [reflexivity|split; [vm_compute; reflexivity|split; [vm_compute; reflexivity|]]]].
  - intros set_order fuel include_optional prefer locked_r Hperm.
    unfold compute_resolution.
    change (_bioc_release_requirements [foo_target]
              (py_or prefer MetadataProvider.latest_bioconductor_release))
      with (@nil (string * string), [foo_target]).
    assert (Hloop : try_r_versions (S fuel)
                      (EnvironmentSolver.mk foo_only include_optional prefer) [foo_target] []
                      (candidate_r_versions set_order []) []
                    = Throw (TypeError
                               "Conflict.__init__() got an unexpected keyword argument 'candidates'")).
    { pose proof (candidate_r_versions_not_empty set_order Hperm) as Hne.
      destruct (candidate_r_versions set_order []) as [|c cs]; [congruence|].
      cbn [try_r_versions incompatible existsb]. rewrite Hsolve. reflexivity. }
    destruct locked_r as [r|]; [|exact Hloop].
    destruct (truthy (Some r)); [|exact Hloop].
    rewrite Hsolve. reflexivity.
  - intros (conflict & H & _). vm_compute in H. discriminate.
Qed.

(** ** The candidates of a package served by CRAN alone *)

Lemma seen_mem_In (key : string * string) (seen : list (string * string)) :
  seen_mem key seen = true <-> In key seen.
Proof.
  unfold seen_mem. rewrite existsb_exists. split.
  - intros ([a b] & Hin & H). apply andb_prop in H. destruct H as [H1 H2].
    apply String.eqb_eq in H1, H2. simpl in *. subst. now destruct key.
  - intros H. exists key. split; [exact H|]. now rewrite !String.eqb_refl.
Qed.


Lemma preorder_pullback {A B : Type} (f : A -> B) (cmp : B -> B -> comparison) :
  preorder_cmp cmp -> preorder_cmp (fun a b => cmp (f a) (f b)).
Proof.
  intros [R S T1 T2 T3 T4]. split; eauto.
Qed.

Lemma package_version_compare_preorder : preorder_cmp package_version_compare.
Proof.
  apply (preorder_pullback
           (fun v => components (RVersion_init (PackageVersion.version v))) padded_compare).
  apply padded_compare_preorder.
Qed.

Lemma version_key_lt_ltb_of (a b : PackageVersion.t) :
  version_key_lt a b = ltb_of package_version_compare a b.
Proof. unfold version_key_lt. apply RVersion_lt_ltb_of. Qed.

Lemma compare_versions_padded (a b : string) :
  compare_versions a b
  = Z_of_comparison (padded_compare (components (RVersion_init a)) (components (RVersion_init b))).
Proof. unfold compare_versions. apply _compare_padded. Qed.

Lemma compare_versions_antisym (a b : string) :
  compare_versions a b = (- compare_versions b a)%Z.
Proof.
  rewrite !compare_versions_padded.
  rewrite (cmp_antisym _ padded_compare_preorder (components (RVersion_init a))).
  destruct (padded_compare _ _); reflexivity.
Qed.


Section CranOnly.
Variable self : EnvironmentSolver.t.
Variable request : PackageRequest.t.
Variable state : ResolutionState.t.
Variable versions : list PackageVersion.t.

Hypothesis default_sources : source_order_of request = ["cran"; "bioc"].
Hypothesis on_cran :
  EnvironmentSolver.metadata self (PackageRequest.package request) "cran" None None None
  = Ok versions.
Hypothesis not_on_bioc :
  forall release ref token, exists msg,
    EnvironmentSolver.metadata self (PackageRequest.package request) "bioc" release ref token
    = Raise (MetadataFetchError msg).
Hypothesis all_cran : forall v, In v versions -> PackageVersion.repo v = "CRAN".
Hypothesis some_compatible :
  exists v, In v versions /\ compatible (ResolutionState.candidate_r state) v = true.



End CranOnly.

(** ** Mutual dependencies *)



Section Cycle.
Variable metadata : provider.
Variable include_optional : bool.
Variable prefer : option string.
Variables A B : string.
Variables versions_A versions_B : list PackageVersion.t.
Variable r : string.

Local Abbreviation cycle_solver := (EnvironmentSolver.mk metadata include_optional prefer).

Hypothesis distinct : A <> B.
Hypothesis A_on_cran : metadata A "cran" None None None = Ok versions_A.
Hypothesis B_on_cran : metadata B "cran" None None None = Ok versions_B.
Hypothesis A_not_on_bioc :
  forall release ref token, exists msg,
    metadata A "bioc" release ref token = Raise (MetadataFetchError msg).
Hypothesis B_not_on_bioc :
  forall release ref token, exists msg,
    metadata B "bioc" release ref token = Raise (MetadataFetchError msg).
Hypothesis A_depends_on_B :
  forall v, In v versions_A ->
    PackageVersion.repo v = "CRAN"
    /\ exists kind hint, PackageVersion.dependencies v = [Dependency.mk B [] kind false hint].
Hypothesis B_depends_on_A :
  forall v, In v versions_B ->
    PackageVersion.repo v = "CRAN"
    /\ exists kind hint, PackageVersion.dependencies v = [Dependency.mk A [] kind false hint].
Hypothesis A_compatible : exists v, In v versions_A /\ compatible r v = true.
Hypothesis B_compatible : exists v, In v versions_B /\ compatible r v = true.

End Cycle.

(** Under R 4.0.0 the plan binds A to 1.5, its highest version that does
    not need a later R, and B to 1.1. *)
Example cycle_plan :
  solve 3 (EnvironmentSolver.mk cycle_provider false None) [cran_target "A" []] "4.0.0"
  = Return (ResolutionPlan.mk "4.0.0"
              (<["B" := selection_of (cran_version "B" "1.1" None [depends_on "A" []])]>
                 (<["A" := selection_of (cran_version "A" "1.5" (Some "3.5") [depends_on "B" []])]>
                    ∅))
              []).
Proof. vm_compute. reflexivity. Qed.



(** ** The candidate R versions *)

Section CandidateR.
Variable set_order : list RVersion -> list RVersion.
Hypothesis set_order_permutes : forall l, Permutation (set_order l) l.

Lemma sorted_set_perm (l : list RVersion) :
  Permutation (sorted_set set_order l) (dedup_versions l).
Proof.
  unfold sorted_set. rewrite stable_sort_perm. apply set_order_permutes.
Qed.

Lemma sorted_set_sorted (l : list RVersion) : ascending (sorted_set set_order l).
Proof.
  apply stable_sort_sorted; [apply RVersion_lt_asym|apply RVersion_not_above_trans].
Qed.

(** Members in strictly ascending order are what the sorted set gives,
    whatever the order of iteration. *)
Lemma sorted_set_of_ascending (l : list RVersion) :
  strictly_ascending l ->
  dedup_versions l = l ->
  sorted_set set_order l = l.
Proof.
  intros Hl Hd. apply (sorted_unique RVersion_lt).
  - apply RVersion_lt_asym.
  - exact Hl.
  - apply sorted_set_sorted.
  - rewrite sorted_set_perm, Hd. reflexivity.
Qed.
End CandidateR.

Lemma supported_versions_ascending : strictly_ascending supported_versions.
Proof.
  unfold strictly_ascending, supported_versions. cbn [List.map SUPPORTED_R_VERSIONS].
  repeat (constructor; [|repeat (constructor; [vm_compute; reflexivity|]); constructor]).
  constructor.
Qed.

Lemma supported_versions_distinct : dedup_versions supported_versions = supported_versions.
Proof. vm_compute. reflexivity. Qed.

Lemma with_series_distinct : dedup_versions with_series_4_3 = with_series_4_3.
Proof. vm_compute. reflexivity. Qed.

Lemma candidates_without_requirements (set_order : list RVersion -> list RVersion) :
  (forall l, Permutation (set_order l) l) ->
  candidate_r_versions set_order [] = supported_versions.
Proof.
  intros Hperm. unfold candidate_r_versions. cbn [List.map]. rewrite app_nil_r.
  fold supported_versions.
  rewrite !(sorted_set_of_ascending set_order Hperm supported_versions);
    auto using supported_versions_ascending, supported_versions_distinct.
Qed.

Lemma candidates_with_series (set_order : list RVersion -> list RVersion) :
  (forall l, Permutation (set_order l) l) ->
  Permutation (candidate_r_versions set_order [("3.17", "4.3")]) with_series_4_3
  /\ ascending (candidate_r_versions set_order [("3.17", "4.3")]).
Proof.
  intros Hperm. unfold candidate_r_versions. fold supported_versions.
  rewrite (sorted_set_of_ascending set_order Hperm supported_versions);
    auto using supported_versions_ascending, supported_versions_distinct.
  cbn [List.map]. fold with_series_4_3. split.
  - now rewrite (sorted_set_perm set_order Hperm), with_series_distinct.
  - now apply sorted_set_sorted.
Qed.

(** Two members that compare equal rule out a strictly ascending order. *)
Lemma tie_not_strictly_ascending (l : list RVersion) (a b : RVersion) :
  In a l -> In b l -> a <> b -> RVersion_lt a b = false -> RVersion_lt b a = false ->
  ~ strictly_ascending l.
Proof.
  intros Ha Hb Hne Hab Hba Hs. induction Hs as [|x l Hs IH Hx].
  - destruct Ha.
  - rewrite List.Forall_forall in Hx. destruct Ha as [<-|Ha], Hb as [<-|Hb].
    + congruence.
    + specialize (Hx b Hb). congruence.
    + specialize (Hx a Ha). congruence.
    + auto.
Qed.

Lemma limma_solve_tied (fuel : nat) :
  solve (S fuel) limma_solver [limma_target] "4.3" = Return (limma_plan "4.3")
  /\ solve (S fuel) limma_solver [limma_target] "4.3.0" = Return (limma_plan "4.3.0").
Proof. split; vm_compute; reflexivity. Qed.

Lemma limma_requirements :
  _bioc_release_requirements [limma_target]
    (py_or None MetadataProvider.latest_bioconductor_release)
  = ([("3.17", "4.3")], [limma_target]).
Proof. vm_compute. reflexivity. Qed.

(** Over any ascending arrangement of the candidates that holds "4.3", the
    loop passes over everything below and stops at "4.3" or "4.3.0",
    whichever comes first. *)
Lemma try_r_versions_tie (fuel : nat) (candidates : list RVersion) :
  ascending candidates ->
  (forall c, In c candidates -> In c with_series_4_3) ->
  In (RVersion_init "4.3") candidates ->
  exists r,
    try_r_versions (S fuel) limma_solver [limma_target] [("3.17", "4.3")] candidates []
    = Return (Some (limma_plan r), [])
    /\ (r = "4.3" \/ r = "4.3.0").
Proof.
  induction candidates as [|c cs IH]; intros Hs Hmem Hin; [destruct Hin|].
  apply StronglySorted_inv in Hs. destruct Hs as [Hcs Hc].
  rewrite List.Forall_forall in Hc.
  assert (Hmem' : forall c', In c' cs -> In c' with_series_4_3)
    by (intros c' Hc'; apply Hmem; now right).
  specialize (IH Hcs Hmem').
  pose proof (Hmem c (or_introl eq_refl)) as Hcm.
  cbn [try_r_versions].
  unfold with_series_4_3, supported_versions in Hcm.
  cbn [List.map SUPPORTED_R_VERSIONS app] in Hcm.
  repeat (destruct Hcm as [<-|Hcm]);
    try (destruct Hcm);
    destruct (incompatible [("3.17", "4.3")] (raw (RVersion_init _))) eqn:Hi;
    try (vm_compute in Hi; discriminate).
  all: try (apply IH; destruct Hin as [E|Hin]; [vm_compute in E; discriminate|exact Hin]).
  all: try (exfalso; destruct Hin as [E|Hin]; [vm_compute in E; discriminate|];
            specialize (Hc _ Hin); vm_compute in Hc; discriminate).
  - exists "4.3.0". change (raw (RVersion_init "4.3.0")) with "4.3.0".
    rewrite (proj2 (limma_solve_tied fuel)). auto.
  - exists "4.3". change (raw (RVersion_init "4.3")) with "4.3".
    rewrite (proj1 (limma_solve_tied fuel)). auto.
Qed.

(** C5. The candidate R versions are iterated in ascending order, but not
    in strictly ascending order, and the set does not merge what the
    version algebra holds equal: for a target on Bioconductor 3.17 the
    series "4.3" of the table is kept beside "4.3.0", the two compare
    equal, and the first feasible candidate is whichever of them the set
    yields first. The plan's [r_version] is then "4.3" or "4.3.0": "4.3"
    when the members are iterated in reverse order of insertion, "4.3.0"
    in order of insertion. All candidates below are passed over. Nor is
    the plan of the first candidate whose solve succeeds returned when an
    earlier candidate fails: for a package whose only version needs R 4.0
    the solve under "4.0.0" succeeds, yet the failure under "3.6.0" ends
    [compute_resolution] with the [TypeError] of the [Conflict] call. *)
Theorem candidate_r_versions_tie
    (set_order : list RVersion -> list RVersion)
    (set_order_permutes : forall l, Permutation (set_order l) l) (fuel : nat) :
  Permutation (candidate_r_versions set_order [("3.17", "4.3")]) with_series_4_3
  /\ ascending (candidate_r_versions set_order [("3.17", "4.3")])
  /\ _compare (RVersion_init "4.3") (RVersion_init "4.3.0") = 0%Z
  /\ RVersion_eq (RVersion_init "4.3") (RVersion_init "4.3.0") = false
  /\ ~ strictly_ascending (candidate_r_versions set_order [("3.17", "4.3")])
  /\ (exists r,
        compute_resolution set_order (S fuel) limma_provider [limma_target] false None None
        = Return (Some (limma_plan r), [])
        /\ (r = "4.3" \/ r = "4.3.0"))
  /\ compute_resolution reverse_order (S fuel) limma_provider [limma_target] false None None
     = Return (Some (limma_plan "4.3"), [])
  /\ compute_resolution insertion_order (S fuel) limma_provider [limma_target] false None None
     = Return (Some (limma_plan "4.3.0"), [])
  /\ solve (S fuel) (EnvironmentSolver.mk needs_r4_provider false None) [needs_r4_target] "4.0.0"
     = Return needs_r4_plan
  /\ compute_resolution set_order (S fuel) needs_r4_provider [needs_r4_target] false None None
     = Throw (TypeError "Conflict.__init__() got an unexpected keyword argument 'candidates'").
Proof.
  destruct (candidates_with_series set_order set_order_permutes) as [Hperm Hasc].
  assert (Hin : forall v, In v with_series_4_3 ->
            In v (candidate_r_versions set_order [("3.17", "4.3")]))
    by (intros v Hv; apply (Permutation_in _ (Permutation_sym Hperm)), Hv).
  split; [exact Hperm|]. split; [exact Hasc|].
  split; [reflexivity|]. split; [reflexivity|]. split.
  - apply (tie_not_strictly_ascending _ (RVersion_init "4.3") (RVersion_init "4.3.0")).
    + apply Hin. vm_compute. tauto.
    + apply Hin. vm_compute. tauto.
    + discriminate.
    + reflexivity.
    + reflexivity.
  - split; [|split; [|split; [|split]]].
    + unfold compute_resolution. rewrite limma_requirements.
      apply try_r_versions_tie; [exact Hasc| |].
      * intros c Hc. apply (Permutation_in _ Hperm), Hc.
      * apply Hin. vm_compute. tauto.
    + vm_compute. reflexivity.
    + vm_compute. reflexivity.
    + vm_compute. reflexivity.
    + unfold compute_resolution.
      assert (Hreq : _bioc_release_requirements [needs_r4_target]
                       (py_or None MetadataProvider.latest_bioconductor_release)
                     = ([], [needs_r4_target])) by (vm_compute; reflexivity).
      rewrite Hreq, (candidates_without_requirements set_order set_order_permutes).
      vm_compute. reflexivity.
Qed.

(** The theorem for a set iterated in order of insertion. *)
Lemma candidate_r_versions_tie_witness :
  (forall l, Permutation (insertion_order l) l)
  /\ ~ strictly_ascending (candidate_r_versions insertion_order [("3.17", "4.3")])
  /\ compute_resolution insertion_order 1 needs_r4_provider [needs_r4_target] false None None
     = Throw (TypeError "Conflict.__init__() got an unexpected keyword argument 'candidates'").
Proof.
  assert (P : forall l, Permutation (insertion_order l) l) by reflexivity.
  split; [exact P|].
  destruct (candidate_r_versions_tie insertion_order P 0)
    as (_ & _ & _ & _ & H & _ & _ & _ & _ & H').
  split; [exact H|exact H'].
Defined.

(** * Further properties *)

(** ** The order of versions *)

Lemma Z_of_comparison_opp (c : comparison) : Z_of_comparison (CompOpp c) = (- Z_of_comparison c)%Z.
Proof. destruct c; reflexivity. Qed.

Lemma padded_compare_le_trans (a b c : list (N * string)) :
  padded_compare a b <> Gt -> padded_compare b c <> Gt -> padded_compare a c <> Gt.
Proof. apply (cmp_not_gt_trans padded_compare padded_compare_preorder). Qed.

Lemma compare_versions_values (a b : string) :
  compare_versions a b = (-1)%Z \/ compare_versions a b = 0%Z \/ compare_versions a b = 1%Z.
Proof. rewrite compare_versions_padded. destruct (padded_compare _ _); simpl; auto. Qed.

(** The comparison of the components is a total preorder. *)
Lemma compare_versions_order :
  (forall a b, compare_versions a b = (-1)%Z \/ compare_versions a b = 0%Z
               \/ compare_versions a b = 1%Z)
  /\ (forall a, compare_versions a a = 0%Z)
  /\ (forall a b, compare_versions a b = (- compare_versions b a)%Z)
  /\ (forall a b c, (compare_versions a b <= 0)%Z -> (compare_versions b c <= 0)%Z ->
        (compare_versions a c <= 0)%Z)
  /\ (forall a b c, (compare_versions a b < 0)%Z -> (compare_versions b c <= 0)%Z ->
        (compare_versions a c < 0)%Z)
  /\ (forall a b c, (compare_versions a b <= 0)%Z -> (compare_versions b c < 0)%Z ->
        (compare_versions a c < 0)%Z)
  /\ (forall a b c, compare_versions a b = 0%Z -> compare_versions b c = 0%Z ->
        compare_versions a c = 0%Z).
Proof.
  destruct padded_compare_preorder as [R S TLt TEqLt TLtEq TEq].
  split; [|split; [|split; [|split; [|split; [|split]]]]].
  - intros a b. rewrite compare_versions_padded. destruct (padded_compare _ _); simpl; auto.
  - intros a. rewrite compare_versions_padded, R. reflexivity.
  - apply compare_versions_antisym.
  - intros a b c. rewrite !compare_versions_padded.
    pose proof (padded_compare_le_trans (components (RVersion_init a))
                  (components (RVersion_init b)) (components (RVersion_init c))) as T.
    destruct (padded_compare (components (RVersion_init a)) (components (RVersion_init b)));
      destruct (padded_compare (components (RVersion_init b)) (components (RVersion_init c)));
      destruct (padded_compare (components (RVersion_init a)) (components (RVersion_init c)));
      cbn [Z_of_comparison]; intros; try lia; exfalso; apply T; congruence.
  - intros a b c. rewrite !compare_versions_padded.
    destruct (padded_compare (components (RVersion_init a)) (components (RVersion_init b)))
      eqn:Hab;
      destruct (padded_compare (components (RVersion_init b)) (components (RVersion_init c)))
        eqn:Hbc; cbn [Z_of_comparison]; intros; try lia.
    + now rewrite (TLtEq _ _ _ Hab Hbc).
    + now rewrite (TLt _ _ _ Hab Hbc).
  - intros a b c. rewrite !compare_versions_padded.
    destruct (padded_compare (components (RVersion_init a)) (components (RVersion_init b)))
      eqn:Hab;
      destruct (padded_compare (components (RVersion_init b)) (components (RVersion_init c)))
        eqn:Hbc; cbn [Z_of_comparison]; intros; try lia.
    + now rewrite (TEqLt _ _ _ Hab Hbc).
    + now rewrite (TLt _ _ _ Hab Hbc).
  - intros a b c. rewrite !compare_versions_padded.
    destruct (padded_compare (components (RVersion_init a)) (components (RVersion_init b)))
      eqn:Hab;
      destruct (padded_compare (components (RVersion_init b)) (components (RVersion_init c)))
        eqn:Hbc; cbn [Z_of_comparison]; intros; try lia.
    now rewrite (TEq _ _ _ Hab Hbc).
Qed.

(** X1. On plain text, where [RVersion.__init__] converts every digit
    run, [compare_versions] is a total preorder: its value is -1, 0 or
    1; a version equals itself; swapping the arguments negates the value;
    and "not above" is transitive, strictly so as soon as one of the two
    steps is strict. *)
Theorem compare_versions_total_preorder (a b c : string)
    (plain_a : plain_text a = true) (plain_b : plain_text b = true)
    (plain_c : plain_text c = true) :
  (compare_versions a b = (-1)%Z \/ compare_versions a b = 0%Z \/ compare_versions a b = 1%Z)
  /\ compare_versions a a = 0%Z
  /\ compare_versions a b = (- compare_versions b a)%Z
  /\ ((compare_versions a b <= 0)%Z -> (compare_versions b c <= 0)%Z ->
      (compare_versions a c <= 0)%Z)
  /\ ((compare_versions a b < 0)%Z -> (compare_versions b c <= 0)%Z ->
      (compare_versions a c < 0)%Z)
  /\ ((compare_versions a b <= 0)%Z -> (compare_versions b c < 0)%Z ->
      (compare_versions a c < 0)%Z)
  /\ (compare_versions a b = 0%Z -> compare_versions b c = 0%Z -> compare_versions a c = 0%Z).
Proof.
  destruct compare_versions_order as (Hv & Hr & Hs & Hle & Hlt & Hlt' & Heq).
  split; [apply Hv|]. split; [apply Hr|]. split; [apply Hs|]. split; [apply Hle|].
  split; [apply Hlt|]. split; [apply Hlt'|apply Heq].
Qed.

(** The theorem at "1.0", "1.0.0" and "1.10": the first two are equal,
    both below the third. *)
Lemma compare_versions_total_preorder_witness :
  (compare_versions "1.0" "1.0.0" = (-1)%Z \/ compare_versions "1.0" "1.0.0" = 0%Z
   \/ compare_versions "1.0" "1.0.0" = 1%Z)
  /\ compare_versions "1.0" "1.0" = 0%Z
  /\ compare_versions "1.0" "1.0.0" = (- compare_versions "1.0.0" "1.0")%Z
  /\ ((compare_versions "1.0" "1.0.0" <= 0)%Z -> (compare_versions "1.0.0" "1.10" <= 0)%Z ->
      (compare_versions "1.0" "1.10" <= 0)%Z)
  /\ ((compare_versions "1.0" "1.0.0" < 0)%Z -> (compare_versions "1.0.0" "1.10" <= 0)%Z ->
      (compare_versions "1.0" "1.10" < 0)%Z)
  /\ ((compare_versions "1.0" "1.0.0" <= 0)%Z -> (compare_versions "1.0.0" "1.10" < 0)%Z ->
      (compare_versions "1.0" "1.10" < 0)%Z)
  /\ (compare_versions "1.0" "1.0.0" = 0%Z -> compare_versions "1.0.0" "1.10" = 0%Z ->
      compare_versions "1.0" "1.10" = 0%Z).
Proof.
  apply (compare_versions_total_preorder "1.0" "1.0.0" "1.10"); vm_compute; reflexivity.
Defined.

(** ** Tokens of a version string *)

Lemma lstrip_all_space (s : string) : Str.all Str.is_space s = true -> Str.lstrip s = "".
Proof.
  induction s as [|c s IH]; simpl; [reflexivity|].
  intros [Hc Hs]%andb_prop. rewrite Hc. auto.
Qed.

Lemma split_all_separators (sep : ascii -> bool) (s : string) :
  Str.all sep s = true ->
  List.filter (fun chunk => negb (Str.is_empty chunk)) (Str.split sep s) = [].
Proof.
  induction s as [|c s IH]; simpl; [reflexivity|].
  intros [Hc Hs]%andb_prop. rewrite Hc. simpl. auto.
Qed.


Lemma _tokenize_nonempty (raw : string) : _tokenize raw <> [].
Proof.
  unfold _tokenize. destruct (Str.is_empty (Str.strip raw)); [discriminate|].
  destruct (List.filter _ _) eqn:E; discriminate.
Qed.

Lemma version_sep_not_space (c : ascii) : is_version_sep c = true -> Str.is_space c = false.
Proof.
  destruct c as [[] [] [] [] [] [] [] []]; vm_compute; congruence.
Qed.

(** X2. Parsing a version never yields an empty tuple: a string that is
    empty, all white space, or made of separators only parses to the
    single component [(0, "")]. *)
Theorem RVersion_components_nonempty :
  (forall raw, components (RVersion_init raw) <> [])
  /\ (forall raw, Str.all Str.is_space raw = true ->
        components (RVersion_init raw) = [(0%N, "")])
  /\ (forall raw, Str.all is_version_sep raw = true ->
        components (RVersion_init raw) = [(0%N, "")]).
Proof.
  split; [|split].
  - intros raw. unfold RVersion_init. cbn [components].
    pose proof (_tokenize_nonempty raw). destruct (_tokenize raw); [congruence|discriminate].
  - intros raw H. unfold RVersion_init, _tokenize, Str.strip. cbn [components].
    rewrite (lstrip_all_space raw H). reflexivity.
  - intros raw H. unfold RVersion_init, _tokenize. cbn [components].
    rewrite strip_no_space.
    + destruct (Str.is_empty raw); [reflexivity|].
      rewrite (split_all_separators is_version_sep raw H). reflexivity.
    + apply (all_impl is_version_sep); [|exact H].
      intros c Hc. now rewrite (version_sep_not_space c Hc).
Qed.

(** ** Trailing zero components *)







(** ** Constraints *)

Lemma is_satisfied_by_known (op v candidate : string) :
  In op known_operators -> exists b, is_satisfied_by (VersionConstraint.mk op v) candidate = Ok b.
Proof.
  intros H. simpl in H.
  repeat (destruct H as [<-|H]; [eexists; reflexivity|]). destruct H.
Qed.

Lemma is_satisfied_by_unknown (op v candidate : string) :
  ~ In op known_operators ->
  is_satisfied_by (VersionConstraint.mk op v) candidate
  = Raise (ValueError ("Unsupported operator: " ++ op)%string).
Proof.
  intros H. unfold is_satisfied_by. cbn [VersionConstraint.operator VersionConstraint.version].
  repeat match goal with
         | |- context [String.eqb op ?k] =>
             destruct (String.eqb_spec op k) as [->|_]; [exfalso; apply H; simpl; tauto|]
         end.
  reflexivity.
Qed.

(** The operators against each other. *)
Lemma is_satisfied_by_relations (v candidate : string) :
  (exists lt eq gt,
      is_satisfied_by (VersionConstraint.mk "<" v) candidate = Ok lt
      /\ is_satisfied_by (VersionConstraint.mk "==" v) candidate = Ok eq
      /\ is_satisfied_by (VersionConstraint.mk ">" v) candidate = Ok gt
      /\ is_satisfied_by (VersionConstraint.mk "=" v) candidate = Ok eq
      /\ is_satisfied_by (VersionConstraint.mk ">=" v) candidate = Ok (negb lt)
      /\ is_satisfied_by (VersionConstraint.mk "<=" v) candidate = Ok (negb gt)
      /\ is_satisfied_by (VersionConstraint.mk "!=" v) candidate = Ok (negb eq)
      /\ ((lt = true /\ eq = false /\ gt = false)
          \/ (lt = false /\ eq = true /\ gt = false)
          \/ (lt = false /\ eq = false /\ gt = true)))
  /\ is_satisfied_by (VersionConstraint.mk ">" v) candidate
     = is_satisfied_by (VersionConstraint.mk "<" candidate) v
  /\ is_satisfied_by (VersionConstraint.mk ">=" v) candidate
     = is_satisfied_by (VersionConstraint.mk "<=" candidate) v
  /\ is_satisfied_by (VersionConstraint.mk "==" v) candidate
     = is_satisfied_by (VersionConstraint.mk "==" candidate) v.
Proof.
  split.
  - unfold is_satisfied_by.
    cbn [VersionConstraint.operator VersionConstraint.version String.eqb Ascii.eqb Bool.eqb
         orb].
    pose proof compare_versions_values as Hval.
    exists (compare_versions candidate v <? 0)%Z, (compare_versions candidate v =? 0)%Z,
      (compare_versions candidate v >? 0)%Z.
    repeat (split; [first [reflexivity | f_equal; lia]|]).
    destruct (Hval candidate v) as [-> | [-> | ->]]; simpl; tauto.
  - unfold is_satisfied_by.
    cbn [VersionConstraint.operator VersionConstraint.version String.eqb Ascii.eqb Bool.eqb
         orb].
    rewrite (compare_versions_antisym candidate v).
    repeat split; f_equal; lia.
Qed.

(** X4. For a version and a candidate in plain text, [is_satisfied_by]
    answers for the seven operators and raises [ValueError] for any
    other. [>=] is the negation of [<], [<=] that of [>], [!=] that of
    [==], and [=] is [==]; exactly one of [<], [==], [>] holds; and a
    candidate is above a version exactly when the version is below the
    candidate. *)
Theorem is_satisfied_by_operators (v candidate : string)
    (plain_v : plain_text v = true) (plain_candidate : plain_text candidate = true) :
  (forall op,
      In op known_operators ->
      exists b, is_satisfied_by (VersionConstraint.mk op v) candidate = Ok b)
  /\ (forall op,
        ~ In op known_operators ->
        is_satisfied_by (VersionConstraint.mk op v) candidate
        = Raise (ValueError ("Unsupported operator: " ++ op)%string))
  /\ (exists lt eq gt,
        is_satisfied_by (VersionConstraint.mk "<" v) candidate = Ok lt
        /\ is_satisfied_by (VersionConstraint.mk "==" v) candidate = Ok eq
        /\ is_satisfied_by (VersionConstraint.mk ">" v) candidate = Ok gt
        /\ is_satisfied_by (VersionConstraint.mk "=" v) candidate = Ok eq
        /\ is_satisfied_by (VersionConstraint.mk ">=" v) candidate = Ok (negb lt)
        /\ is_satisfied_by (VersionConstraint.mk "<=" v) candidate = Ok (negb gt)
        /\ is_satisfied_by (VersionConstraint.mk "!=" v) candidate = Ok (negb eq)
        /\ ((lt = true /\ eq = false /\ gt = false)
            \/ (lt = false /\ eq = true /\ gt = false)
            \/ (lt = false /\ eq = false /\ gt = true)))
  /\ is_satisfied_by (VersionConstraint.mk ">" v) candidate
     = is_satisfied_by (VersionConstraint.mk "<" candidate) v
  /\ is_satisfied_by (VersionConstraint.mk ">=" v) candidate
     = is_satisfied_by (VersionConstraint.mk "<=" candidate) v
  /\ is_satisfied_by (VersionConstraint.mk "==" v) candidate
     = is_satisfied_by (VersionConstraint.mk "==" candidate) v.
Proof.
  split; [intros op; apply is_satisfied_by_known|].
  split; [intros op; apply is_satisfied_by_unknown|].
  apply is_satisfied_by_relations.
Qed.

(** The theorem at the version "1.0" and the candidate "1.2". *)
Lemma is_satisfied_by_operators_witness :
  is_satisfied_by (VersionConstraint.mk ">=" "1.0") "1.2" = Ok true
  /\ is_satisfied_by (VersionConstraint.mk "<" "1.0") "1.2" = Ok false
  /\ is_satisfied_by (VersionConstraint.mk "~>" "1.0") "1.2"
     = Raise (ValueError "Unsupported operator: ~>").
Proof.
  destruct (is_satisfied_by_operators "1.0" "1.2" eq_refl eq_refl)
    as (Hknown & Hunknown & _).
  split; [reflexivity|]. split; [reflexivity|].
  apply (Hunknown "~>"). simpl. intuition discriminate.
Defined.

Lemma satisfies_all_true (candidate : string) (constraints : list VersionConstraint.t) :
  satisfies_all candidate constraints = Ok true
  <-> forall k, In k constraints -> is_satisfied_by k candidate = Ok true.
Proof.
  induction constraints as [|c cs IH]; simpl.
  - split; [intros _ k []|reflexivity].
  - destruct (is_satisfied_by c candidate) as [[|]|e] eqn:E.
    + rewrite IH. split; [intros H k [<-|Hk]; auto|intros H k Hk; apply H; auto].
    + split; [discriminate|]. intros H. specialize (H c (or_introl eq_refl)). congruence.
    + split; [discriminate|]. intros H. specialize (H c (or_introl eq_refl)). congruence.
Qed.

Lemma satisfies_all_total (candidate : string) (constraints : list VersionConstraint.t) :
  (forall k, In k constraints -> In (VersionConstraint.operator k) known_operators) ->
  exists b, satisfies_all candidate constraints = Ok b.
Proof.
  induction constraints as [|c cs IH]; simpl; intros H; [eauto|].
  destruct c as [op v].
  destruct (is_satisfied_by_known op v candidate (H _ (or_introl eq_refl))) as [[|] ->];
    [apply IH; intros k Hk; apply H; now right|eauto].
Qed.

(** X5. [satisfies_all] is true exactly when every constraint is
    satisfied, so a list is satisfied exactly when its two parts are, which
    is how the resolver accumulates constraints on a package. It stops at
    the first constraint that fails: what follows, an unknown operator
    included, is not evaluated. *)
Theorem satisfies_all_conjunction :
  (forall candidate constraints,
      satisfies_all candidate constraints = Ok true
      <-> forall k, In k constraints -> is_satisfied_by k candidate = Ok true)
  /\ (forall candidate xs ys,
        satisfies_all candidate (xs ++ ys) = Ok true
        <-> satisfies_all candidate xs = Ok true /\ satisfies_all candidate ys = Ok true)
  /\ (forall candidate xs k ys,
        satisfies_all candidate xs = Ok true -> is_satisfied_by k candidate = Ok false ->
        satisfies_all candidate (xs ++ k :: ys) = Ok false).
Proof.
  split; [exact satisfies_all_true|]. split.
  - intros candidate xs ys. rewrite !satisfies_all_true. split.
    + intros H. split; intros k Hk; apply H, in_or_app; auto.
    + intros [Hx Hy] k Hk. apply in_app_or in Hk. destruct Hk; auto.
  - intros candidate xs k ys. induction xs as [|x xs IH]; simpl.
    + intros _ ->. reflexivity.
    + destruct (is_satisfied_by x candidate) as [[|]|e]; try discriminate. exact IH.
Qed.

Lemma parse_fragments_In (fragments : list string) (k : VersionConstraint.t) :
  In k (parse_fragments fragments) ->
  exists fragment,
    In fragment fragments
    /\ search_constraint_token (Str.strip fragment)
       = Some (VersionConstraint.operator k, VersionConstraint.version k).
Proof.
  rewrite parse_fragments_flat_map, in_flat_map. intros (fragment & Hf & Hk).
  exists fragment. split; [exact Hf|].
  destruct (search_constraint_token (Str.strip fragment)) as [[op v]|]; [|destruct Hk].
  destruct Hk as [<-|[]]. reflexivity.
Qed.

Lemma constraint_operators_known (op : string) : is_operator op -> In op known_operators.
Proof. unfold is_operator. simpl. intuition (subst; auto). Qed.

Lemma split_In_length (sep : ascii -> bool) (s fragment : string) :
  In fragment (Str.split sep s) -> String.length fragment <= String.length s.
Proof.
  revert fragment. induction s as [|c s IH]; intros fragment; simpl.
  - intros [<-|[]]. reflexivity.
  - destruct (sep c).
    + intros [<-|H]; [simpl; lia|]. specialize (IH _ H). lia.
    + destruct (Str.split sep s) as [|p ps] eqn:E.
      * intros [<-|[]]. simpl. lia.
      * intros [<-|H].
        -- specialize (IH p (or_introl eq_refl)). simpl. lia.
        -- specialize (IH fragment (or_intror H)). lia.
Qed.

Lemma strip_length (s : string) : String.length (Str.strip s) <= String.length s.
Proof.
  unfold Str.strip.
  assert (Hl : String.length (Str.lstrip s) <= String.length s).
  { induction s as [|c s IH]; simpl; [lia|]. destruct (Str.is_space c); simpl; lia. }
  assert (Hr : forall t, String.length (Str.rstrip t) <= String.length t).
  { induction t as [|c t IH]; simpl; [lia|].
    destruct (Str.is_space c && Str.is_empty (Str.rstrip t)); simpl; lia. }
  specialize (Hr (Str.lstrip s)). lia.
Qed.

Lemma first_token_length (s op v : string) :
  first_token s op v -> String.length v <= String.length s.
Proof.
  intros (pre & suf & -> & (ws & rest & -> & _) & _). rewrite !length_append. lia.
Qed.

Lemma token_class_ascii (c : ascii) : in_token_class c = true -> is_ascii c = true.
Proof. destruct c as [[] [] [] [] [] [] [] []]; vm_compute; congruence. Qed.

(** What the parser returns, constraint by constraint. *)
Lemma parsed_constraint_spec (expr : string) (k : VersionConstraint.t) :
  In k (parse_constraint_expression expr) ->
  In (VersionConstraint.operator k) known_operators
  /\ VersionConstraint.version k <> ""
  /\ Str.all in_token_class (VersionConstraint.version k) = true
  /\ String.length (VersionConstraint.version k) <= String.length expr.
Proof.
  intros Hk. apply parse_fragments_In in Hk. destruct Hk as (fragment & Hf & Hs).
  apply search_constraint_token_Some in Hs.
  pose proof (first_token_length _ _ _ Hs) as Hlen.
  destruct Hs as (pre & suf & _ & (ws & rest & _ & Hop & _ & Hne & Hv & _) & _).
  split; [now apply constraint_operators_known|]. split; [exact Hne|]. split; [exact Hv|].
  pose proof (strip_length fragment). pose proof (split_In_length _ _ _ Hf). lia.
Qed.

(** X6. Every constraint that [parse_constraint_expression] returns has
    one of the seven operators and a non-empty version made of letters,
    digits, [_], [.] and [-], no longer than the expression; so for an
    expression and a candidate in plain text the versions are plain text
    too, and evaluating the parsed constraints with [satisfies_all] does
    not raise. *)
Theorem parsed_constraints_well_formed :
  (forall expr k,
      In k (parse_constraint_expression expr) ->
      In (VersionConstraint.operator k) known_operators
      /\ VersionConstraint.version k <> ""
      /\ Str.all in_token_class (VersionConstraint.version k) = true
      /\ String.length (VersionConstraint.version k) <= String.length expr)
  /\ (forall expr k,
        plain_text expr = true -> In k (parse_constraint_expression expr) ->
        plain_text (VersionConstraint.version k) = true)
  /\ (forall expr candidate,
        plain_text expr = true -> plain_text candidate = true ->
        exists b, satisfies_all candidate (parse_constraint_expression expr) = Ok b)
  /\ plain_text ">= 1.2.3, < 2.0" = true
  /\ satisfies_all "1.5" (parse_constraint_expression ">= 1.2.3, < 2.0") = Ok true
  /\ satisfies_all "2.0" (parse_constraint_expression ">= 1.2.3, < 2.0") = Ok false.
Proof.
  split; [exact parsed_constraint_spec|]. split; [|split; [|repeat split; reflexivity]].
  - intros expr k Hexpr Hk.
    destruct (parsed_constraint_spec expr k Hk) as (_ & _ & Hclass & Hlen).
    unfold plain_text, within_int_limit in *. apply andb_prop in Hexpr.
    destruct Hexpr as [_ Hlimit]. apply Nat.leb_le in Hlimit.
    apply andb_true_intro. split.
    + eapply all_impl; [apply token_class_ascii|exact Hclass].
    + apply Nat.leb_le. lia.
  - intros expr candidate _ _. apply satisfies_all_total. intros k Hk.
    now apply (parsed_constraint_spec expr k).
Qed.

(** ** The highest satisfying version *)

Lemma filter_satisfying_spec (candidates : list string) (constraints : list VersionConstraint.t) :
  match filter_satisfying candidates constraints with
  | Ok filtered =>
      forall v, In v filtered <-> In v candidates /\ satisfies_all v constraints = Ok true
  | Raise e => exists v, In v candidates /\ satisfies_all v constraints = Raise e
  end.
Proof.
  induction candidates as [|c cs IH]; simpl; [intros v; tauto|].
  destruct (satisfies_all c constraints) as [keep|e] eqn:E.
  - destruct (filter_satisfying cs constraints) as [filtered|e].
    + intros v. destruct keep; simpl; rewrite IH.
      * split; [intros [<-|[? ?]]; auto|intros [[<-|?] ?]; auto].
      * split; [intros [? ?]; auto|intros [[<-|?] ?]; [congruence|auto]].
    + destruct IH as (v & Hv & Hr). exists v. auto.
  - exists c. auto.
Qed.

Lemma raw_key_lt_ltb_of (a b : string) :
  raw_key_lt a b
  = ltb_of (fun x y => padded_compare (components (RVersion_init x))
                                      (components (RVersion_init y))) a b.
Proof. unfold raw_key_lt. apply RVersion_lt_ltb_of. Qed.

Lemma sorted_by_raw_head (l : list string) (h : string) (t : list string) :
  stable_sort_reverse raw_key_lt l = h :: t ->
  In h l /\ forall x, In x l -> raw_key_lt h x = false.
Proof.
  pose proof (preorder_pullback (fun x => components (RVersion_init x)) padded_compare
                padded_compare_preorder) as P.
  unfold stable_sort_reverse. intros E. split.
  - apply (stable_sort_In (fun a b => raw_key_lt b a) l). rewrite E. now left.
  - intros x Hx.
    apply (stable_sort_head (fun a b => raw_key_lt b a)) with (l := l) (t := t) (x := x); auto.
    + intros a b. rewrite !raw_key_lt_ltb_of. apply (flip_ltb_of_asym _ P).
    + intros a b c. unfold not_above. rewrite !raw_key_lt_ltb_of.
      apply (flip_not_above_trans _ P).
Qed.

Lemma satisfies_all_unsupported (candidate : string) (constraints : list VersionConstraint.t)
    (e : exn) :
  satisfies_all candidate constraints = Raise e ->
  exists k,
    In k constraints /\ ~ In (VersionConstraint.operator k) known_operators
    /\ e = ValueError ("Unsupported operator: " ++ VersionConstraint.operator k)%string.
Proof.
  induction constraints as [|c cs IH]; cbn [satisfies_all]; [discriminate|].
  destruct (is_satisfied_by c candidate) as [[|]|e'] eqn:E.
  - intros H. destruct (IH H) as (k & Hk & Hop & ->). exists k. split; [now right|auto].
  - discriminate.
  - intros [= <-]. exists c. split; [now left|]. destruct c as [op v].
    destruct (in_dec String.string_dec op known_operators) as [Hin|Hout].
    + destruct (is_satisfied_by_known op v candidate Hin) as [b Hb]. congruence.
    + split; [exact Hout|]. rewrite (is_satisfied_by_unknown op v candidate Hout) in E.
      cbn [VersionConstraint.operator]. congruence.
Qed.

(** X7. For candidates and constraint versions in plain text,
    [pick_highest_satisfying] returns [None] exactly when no candidate
    satisfies the constraints; otherwise it returns a candidate that
    satisfies them and that no satisfying candidate is above. It raises
    only [ValueError], for a constraint whose operator is none of the
    seven. *)
Theorem pick_highest_satisfying_spec (candidates : list string)
    (constraints : list VersionConstraint.t)
    (plain_candidates : Forall (fun v => plain_text v = true) candidates)
    (plain_constraints :
       Forall (fun k => plain_text (VersionConstraint.version k) = true) constraints) :
  match pick_highest_satisfying candidates constraints with
  | Ok None => forall v, In v candidates -> satisfies_all v constraints <> Ok true
  | Ok (Some highest) =>
      In highest candidates
      /\ satisfies_all highest constraints = Ok true
      /\ forall v, In v candidates -> satisfies_all v constraints = Ok true ->
           (compare_versions v highest <= 0)%Z
  | Raise e =>
      exists v k,
        In v candidates /\ In k constraints
        /\ ~ In (VersionConstraint.operator k) known_operators
        /\ satisfies_all v constraints = Raise e
        /\ e = ValueError ("Unsupported operator: " ++ VersionConstraint.operator k)%string
  end.
Proof.
  unfold pick_highest_satisfying.
  pose proof (filter_satisfying_spec candidates constraints) as H.
  destruct (filter_satisfying candidates constraints) as [filtered|e].
  2:{ destruct H as (v & Hv & Hr).
      destruct (satisfies_all_unsupported v constraints e Hr) as (k & Hk & Hop & He).
      exists v, k. auto. }
  destruct (stable_sort_reverse raw_key_lt filtered) as [|h t] eqn:E.
  - intros v Hv Hs.
    assert (Hin : In v filtered) by (apply H; auto).
    apply (stable_sort_In (fun a b => raw_key_lt b a)) in Hin.
    unfold stable_sort_reverse in E. rewrite E in Hin. destruct Hin.
  - apply sorted_by_raw_head in E. destruct E as [Hh Hmax].
    apply H in Hh. destruct Hh as [Hh Hs]. split; [exact Hh|]. split; [exact Hs|].
    intros v Hv Hsv. assert (Hin : In v filtered) by (apply H; auto).
    specialize (Hmax v Hin). unfold raw_key_lt, RVersion_lt in Hmax.
    change (_compare (RVersion_init h) (RVersion_init v)) with (compare_versions h v) in Hmax.
    rewrite compare_versions_antisym. apply Z.ltb_ge in Hmax. lia.
Qed.

(** The theorem at the candidates 1.0, 2.0, 1.5 and 1.5.0 under the
    constraint < 2.0: the choice is 1.5, the first of the two highest. *)
Lemma pick_highest_satisfying_witness :
  pick_highest_satisfying ["1.0"; "2.0"; "1.5"; "1.5.0"] [VersionConstraint.mk "<" "2.0"]
  = Ok (Some "1.5")
  /\ In "1.5" ["1.0"; "2.0"; "1.5"; "1.5.0"]
  /\ satisfies_all "1.5" [VersionConstraint.mk "<" "2.0"] = Ok true
  /\ forall v, In v ["1.0"; "2.0"; "1.5"; "1.5.0"] ->
       satisfies_all v [VersionConstraint.mk "<" "2.0"] = Ok true ->
       (compare_versions v "1.5" <= 0)%Z.
Proof.
  split; [reflexivity|].
  apply (pick_highest_satisfying_spec ["1.0"; "2.0"; "1.5"; "1.5.0"]
           [VersionConstraint.mk "<" "2.0"]).
  - repeat constructor.
  - repeat constructor.
Defined.

(** ** Dependency entries *)

Lemma lstrip_app_space (ws s : string) :
  Str.all Str.is_space ws = true -> Str.lstrip (ws ++ s) = Str.lstrip s.
Proof.
  induction ws as [|c ws IH]; simpl; [reflexivity|].
  intros [Hc Hs]%andb_prop. rewrite Hc. auto.
Qed.

Lemma rstrip_all_space (ws : string) : Str.all Str.is_space ws = true -> Str.rstrip ws = "".
Proof.
  induction ws as [|c ws IH]; simpl; [reflexivity|].
  intros [Hc Hs]%andb_prop. rewrite (IH Hs), Hc. reflexivity.
Qed.

Lemma rstrip_app_space (s ws : string) :
  Str.all Str.is_space ws = true -> Str.rstrip (s ++ ws) = Str.rstrip s.
Proof.
  intros Hws. induction s as [|c s IH]; simpl.
  - now apply rstrip_all_space.
  - now rewrite IH.
Qed.

Lemma rstrip_last (s : string) (c : ascii) :
  Str.is_space c = false -> Str.rstrip (s ++ String c "") = (s ++ String c "")%string.
Proof.
  intros Hc. induction s as [|x s IH]; simpl.
  - now rewrite Hc.
  - rewrite IH. destruct (s ++ String c "")%string eqn:E.
    + destruct s; discriminate.
    + simpl. now rewrite andb_false_r.
Qed.

Lemma name_char_not_space (c : ascii) : is_name_char c = true -> Str.is_space c = false.
Proof. destruct c as [[] [] [] [] [] [] [] []]; vm_compute; congruence. Qed.

Lemma space_not_name_char (c : ascii) : Str.is_space c = true -> is_name_char c = false.
Proof. destruct c as [[] [] [] [] [] [] [] []]; vm_compute; congruence. Qed.

(** The text between a leading and a trailing run of white space, when it
    starts and ends with other characters. *)
Lemma strip_core (ws1 ws2 body : string) (first last : ascii) :
  Str.all Str.is_space ws1 = true -> Str.all Str.is_space ws2 = true ->
  Str.is_space first = false -> Str.is_space last = false ->
  Str.strip (ws1 ++ String first (body ++ String last "") ++ ws2)
  = String first (body ++ String last "").
Proof.
  intros H1 H2 Hf Hl. unfold Str.strip. rewrite lstrip_app_space by exact H1.
  cbn [String.append Str.lstrip]. rewrite Hf.
  change (String first ((body ++ String last "") ++ ws2))%string
    with ((String first (body ++ String last "")) ++ ws2)%string.
  rewrite rstrip_app_space by exact H2.
  change (String first (body ++ String last ""))%string
    with ((String first body) ++ String last "")%string.
  now apply rstrip_last.
Qed.

Lemma strip_word (ws1 ws2 word : string) :
  Str.all Str.is_space ws1 = true -> Str.all Str.is_space ws2 = true ->
  Str.all (fun c => negb (Str.is_space c)) word = true ->
  Str.strip (ws1 ++ word ++ ws2) = word.
Proof.
  intros H1 H2 Hw. unfold Str.strip. rewrite lstrip_app_space by exact H1.
  pose proof (strip_no_space word Hw) as Hs. unfold Str.strip in Hs.
  assert (Hl : Str.lstrip (word ++ ws2) = (word ++ ws2)%string \/ word = "").
  { destruct word as [|c w]; [now right|left]. simpl in *.
    apply andb_prop in Hw. destruct Hw as [Hc _]. apply negb_true_iff in Hc. now rewrite Hc. }
  destruct Hl as [Hl| ->].
  - rewrite Hl, rstrip_app_space by exact H2.
    assert (Hlw : Str.lstrip word = word).
    { destruct word as [|c w]; [reflexivity|]. simpl in *.
      apply andb_prop in Hw. destruct Hw as [Hc _]. apply negb_true_iff in Hc. now rewrite Hc. }
    now rewrite Hlw in Hs.
  - cbn [String.append]. rewrite (lstrip_all_space ws2 H2). reflexivity.
Qed.

Lemma match_dep_pattern_name (name : string) :
  name <> "" -> Str.all is_name_char name = true ->
  match_dep_pattern name = Some (name, None).
Proof.
  intros Hne Hall. unfold match_dep_pattern.
  rewrite <- (append_nil_r name) at 1. rewrite span_append by (auto; exact I).
  destruct name; [congruence|reflexivity].
Qed.

Lemma match_dep_pattern_group (name ws expr : string) :
  name <> "" -> Str.all is_name_char name = true ->
  Str.all Str.is_space ws = true ->
  expr <> "" -> no_close_paren expr = true ->
  match_dep_pattern (name ++ ws ++ "(" ++ expr ++ ")") = Some (name, Some expr).
Proof.
  intros Hne Hall Hws Hexpr Hparen. unfold match_dep_pattern.
  rewrite span_append.
  - destruct name as [|n name]; [congruence|]. cbn [Str.is_empty].
    destruct (ws ++ "(" ++ expr ++ ")")%string eqn:E; [destruct ws; discriminate|].
    cbn [Str.is_empty]. rewrite <- E. rewrite span_append by (auto; reflexivity).
    cbn [snd String.append]. change (is_open_paren "(") with true. cbn iota.
    rewrite span_append by (auto; reflexivity).
    destruct expr; [congruence|reflexivity].
  - exact Hall.
  - destruct ws as [|w ws']; [reflexivity|]. simpl in Hws. apply andb_prop in Hws.
    cbn [String.append]. apply space_not_name_char. tauto.
Qed.

Lemma all_name_no_space (name : string) :
  Str.all is_name_char name = true -> Str.all (fun c => negb (Str.is_space c)) name = true.
Proof.
  apply all_impl. intros c Hc. now rewrite (name_char_not_space c Hc).
Qed.

(** X8. [_parse_dependency_entry] reads an entry [name (expr)], where the
    name is made of letters, digits, [.] and [_] and the expression holds
    no closing parenthesis, as the name with the parsed expression, and a
    bare name as the name without constraints; white space around the
    entry and between name and parenthesis is ignored. *)
Theorem _parse_dependency_entry_pattern (name : string)
    (name_given : name <> "") (name_chars : Str.all is_name_char name = true) :
  (forall ws1 ws2,
      Str.all Str.is_space ws1 = true -> Str.all Str.is_space ws2 = true ->
      _parse_dependency_entry (ws1 ++ name ++ ws2) = (name, []))
  /\ (forall ws1 ws ws2 expr,
        Str.all Str.is_space ws1 = true -> Str.all Str.is_space ws = true ->
        Str.all Str.is_space ws2 = true ->
        expr <> "" -> no_close_paren expr = true ->
        _parse_dependency_entry (ws1 ++ (name ++ ws ++ "(" ++ expr ++ ")") ++ ws2)
        = (name, parse_constraint_expression expr)).
Proof.
  split.
  - intros ws1 ws2 H1 H2. unfold _parse_dependency_entry.
    rewrite strip_word by auto using all_name_no_space.
    rewrite match_dep_pattern_name by assumption. reflexivity.
  - intros ws1 ws ws2 expr H1 Hws H2 Hexpr Hparen. unfold _parse_dependency_entry.
    assert (Hs : Str.strip (ws1 ++ (name ++ ws ++ "(" ++ expr ++ ")") ++ ws2)
                 = (name ++ ws ++ "(" ++ expr ++ ")")%string).
    { destruct name as [|n name]; [congruence|]. simpl in name_chars.
      apply andb_prop in name_chars. destruct name_chars as [Hn _].
      replace (String n name ++ ws ++ "(" ++ expr ++ ")")%string
        with (String n ((name ++ ws ++ "(" ++ expr) ++ String ")" ""))%string
        by (cbn [String.append]; now rewrite !append_assoc).
      apply strip_core; auto using name_char_not_space. }
    rewrite Hs, match_dep_pattern_group by assumption. reflexivity.
Qed.

Lemma _parse_dependency_entry_pattern_witness :
  _parse_dependency_entry " Matrix " = ("Matrix", [])
  /\ _parse_dependency_entry "Matrix (>= 1.2)" = ("Matrix", parse_constraint_expression ">= 1.2").
Proof.
  assert (Hne : "Matrix"%string <> ""%string) by discriminate.
  destruct (_parse_dependency_entry_pattern "Matrix" Hne eq_refl) as [Hbare Hgroup].
  split.
  - exact (Hbare " "%string " "%string eq_refl eq_refl).
  - refine (Hgroup ""%string " "%string ""%string ">= 1.2"%string eq_refl eq_refl eq_refl _ eq_refl).
    discriminate.
Defined.

(** ** The requirement on R *)







(** ** Kinds of dependencies *)

Lemma section_dependencies_In (sec : section) (kind : string) (optional : bool)
    (dep : Dependency.t) :
  In dep (section_dependencies sec kind optional) ->
  Dependency.kind dep = kind /\ Dependency.optional dep = optional
  /\ Dependency.source_hint dep = None.
Proof.
  unfold section_dependencies. rewrite in_map_iff. intros ([name constraints] & <- & _).
  auto.
Qed.

Lemma build_dependencies_kind (payload : Payload.t) (include_optional : bool)
    (dep : Dependency.t) :
  In dep (fst (_build_dependencies payload include_optional)) ->
  Dependency.source_hint dep = None
  /\ ((Dependency.optional dep = false
       /\ In (Dependency.kind dep) ["Depends"; "Imports"; "LinkingTo"])
      \/ (Dependency.optional dep = true /\ Dependency.kind dep = "Suggests"
          /\ include_optional = true)).
Proof.
  unfold _build_dependencies, _split_r_requirement.
  match goal with
  | |- context [split_r_loop ?d None []] =>
      pose proof (split_r_loop_remaining d None []) as H;
      destruct (split_r_loop d None []) as [r_min rest]
  end.
  cbn [fst snd app] in *. subst rest. intros Hin.
  apply List.filter_In in Hin. destruct Hin as [Hin _].
  apply List.filter_In in Hin. destruct Hin as [Hin _].
  repeat (apply in_app_or in Hin; destruct Hin as [Hin|Hin]).
  - apply section_dependencies_In in Hin. destruct Hin as (Hk & Ho & Hs).
    split; [exact Hs|]. left. split; [exact Ho|]. rewrite Hk. simpl. auto.
  - apply section_dependencies_In in Hin. destruct Hin as (Hk & Ho & Hs).
    split; [exact Hs|]. left. split; [exact Ho|]. rewrite Hk. simpl. auto.
  - apply section_dependencies_In in Hin. destruct Hin as (Hk & Ho & Hs).
    split; [exact Hs|]. left. split; [exact Ho|]. rewrite Hk. simpl. auto.
  - destruct include_optional; [|destruct Hin].
    apply section_dependencies_In in Hin. destruct Hin as (Hk & Ho & Hs).
    split; [exact Hs|]. right. auto.
Qed.

Lemma build_dependencies_required (payload : Payload.t) (dep : Dependency.t) :
  In dep (fst (_build_dependencies payload false)) -> Dependency.optional dep = false.
Proof.
  intros Hin. apply build_dependencies_kind in Hin.
  destruct Hin as [_ [[Ho _]|(_ & _ & [=])]]. exact Ho.
Qed.

(** X10. Every dependency [_build_dependencies] returns is of kind
    Depends, Imports or LinkingTo and not optional, or of kind Suggests
    and optional, the latter only when optional dependencies were asked
    for; without them the Suggests section has no influence on the
    result at all. The three normalisers never ask for them: no package
    version they build has an optional dependency. *)
Theorem _build_dependencies_optional :
  (forall payload include_optional dep,
      In dep (fst (_build_dependencies payload include_optional)) ->
      Dependency.source_hint dep = None
      /\ ((Dependency.optional dep = false
           /\ In (Dependency.kind dep) ["Depends"; "Imports"; "LinkingTo"])
          \/ (Dependency.optional dep = true /\ Dependency.kind dep = "Suggests"
              /\ include_optional = true)))
  /\ (forall depends imports linking suggests suggests' fields,
        _build_dependencies (Payload.mk depends imports linking suggests fields) false
        = _build_dependencies (Payload.mk depends imports linking suggests' fields) false)
  /\ (forall package payload version dep,
        In dep (PackageVersion.dependencies (_normalize_cran_payload package payload version)) ->
        Dependency.optional dep = false)
  /\ (forall package payload release dep,
        In dep (PackageVersion.dependencies (_normalize_bioc_payload package payload release)) ->
        Dependency.optional dep = false)
  /\ (forall info version dep,
        _normalize_github_payload info = Ok version ->
        In dep (PackageVersion.dependencies version) ->
        Dependency.optional dep = false).
Proof.
  split; [exact build_dependencies_kind|]. split; [reflexivity|]. split; [|split].
  - intros package payload version dep. unfold _normalize_cran_payload.
    pose proof (build_dependencies_required payload dep) as H.
    destruct (_build_dependencies payload false) as [deps r]. exact H.
  - intros package payload release dep. unfold _normalize_bioc_payload.
    pose proof (build_dependencies_required payload dep) as H.
    destruct (_build_dependencies payload false) as [deps r]. exact H.
  - intros info version dep. unfold _normalize_github_payload.
    destruct (GithubMetadata.description info !! "Package") as [package|]; [|discriminate].
    destruct (Str.is_empty package); [discriminate|].
    pose proof (build_dependencies_required
                  (description_payload (GithubMetadata.description info)) dep) as H.
    destruct (_build_dependencies _ false) as [deps r]. intros [= <-]. exact H.
Qed.


(** ** The memos of the provider *)

Lemma _normalize_cran_payload_from_cran (package : string) (payload : Payload.t)
    (version : string) :
  from_cran package (_normalize_cran_payload package payload version)
  /\ PackageVersion.version (_normalize_cran_payload package payload version) = version.
Proof.
  unfold _normalize_cran_payload, from_cran.
  destruct (_build_dependencies payload false) as [deps r]. simpl. auto.
Qed.

Lemma _normalize_bioc_payload_from_bioconductor (package : string) (payload : Payload.t)
    (release : string) :
  from_bioconductor package release (_normalize_bioc_payload package payload release).
Proof.
  unfold _normalize_bioc_payload, from_bioconductor.
  destruct (_build_dependencies payload false) as [deps r]. simpl. auto.
Qed.

Lemma StronglySorted_weaken {A : Type} (R S : A -> A -> Prop) (l : list A) :
  (forall a b, R a b -> S a b) -> StronglySorted R l -> StronglySorted S l.
Proof.
  intros HRS. induction 1 as [|x l Hl IH Hx]; constructor; [exact IH|].
  eapply List.Forall_impl; [|exact Hx]. intros b. apply HRS.
Qed.

Lemma sorted_descending (versions : list PackageVersion.t) :
  descending (stable_sort_reverse version_key_lt versions).
Proof.
  unfold descending, stable_sort_reverse.
  eapply StronglySorted_weaken;
    [|apply (stable_sort_sorted (fun a b => version_key_lt b a))].
  - intros a b H. unfold not_above, version_key_lt, RVersion_lt in H.
    apply Z.ltb_ge in H.
    change (_compare (RVersion_init (PackageVersion.version a))
                     (RVersion_init (PackageVersion.version b)))
      with (compare_versions (PackageVersion.version a) (PackageVersion.version b)) in H.
    rewrite compare_versions_antisym. lia.
  - intros a b. rewrite !version_key_lt_ltb_of.
    apply (flip_ltb_of_asym _ package_version_compare_preorder).
  - intros a b c. unfold not_above. rewrite !version_key_lt_ltb_of.
    apply (flip_not_above_trans _ package_version_compare_preorder).
Qed.

Lemma normalized_release_from_bioconductor (release : string)
    (raw : list (string * Payload.t)) (acc : gmap string PackageVersion.t) :
  (forall package v, acc !! package = Some v -> from_bioconductor package release v) ->
  forall package v,
    List.fold_left
      (fun (acc : gmap string PackageVersion.t) '(name, payload) =>
         <[name := _normalize_bioc_payload name payload release]> acc)
      raw acc !! package = Some v ->
    from_bioconductor package release v.
Proof.
  revert acc. induction raw as [|[name payload] raw IH]; intros acc Hacc; [exact Hacc|].
  cbn [List.fold_left]. apply IH. intros package v.
  destruct (decide (name = package)) as [->|Hne].
  - rewrite lookup_insert_eq. intros [= <-]. apply _normalize_bioc_payload_from_bioconductor.
  - rewrite lookup_insert_ne by exact Hne. apply Hacc.
Qed.

Lemma memos_ok_same (p q : MetadataProvider.t) :
  MetadataProvider._cran q = MetadataProvider._cran p ->
  MetadataProvider._bioc q = MetadataProvider._bioc p ->
  memos_ok p -> memos_ok q.
Proof.
  unfold memos_ok, cran_memo_ok, bioc_memo_ok. intros -> ->. auto.
Qed.

Lemma memos_ok_set_cran (package : string) (versions : list PackageVersion.t)
    (p q : MetadataProvider.t) :
  MetadataProvider._cran q = MetadataProvider._cran p ->
  MetadataProvider._bioc q = MetadataProvider._bioc p ->
  memos_ok p -> descending versions -> (forall v, In v versions -> from_cran package v) ->
  memos_ok (MetadataProvider.set_cran (insert package versions) q).
Proof.
  intros Hc Hb [Hcran Hbioc] Hd Hn. split.
  - intros other vs. cbn [MetadataProvider.set_cran MetadataProvider._cran]. rewrite Hc.
    destruct (decide (package = other)) as [->|Hne].
    + rewrite lookup_insert_eq. intros [= <-]. auto.
    + rewrite lookup_insert_ne by exact Hne. apply Hcran.
  - intros release data other v. cbn [MetadataProvider.set_cran MetadataProvider._bioc].
    rewrite Hb. apply Hbioc.
Qed.

Lemma memos_ok_set_bioc (release : string) (data : gmap string PackageVersion.t)
    (p q : MetadataProvider.t) :
  MetadataProvider._cran q = MetadataProvider._cran p ->
  MetadataProvider._bioc q = MetadataProvider._bioc p ->
  memos_ok p -> (forall package v, data !! package = Some v -> from_bioconductor package release v) ->
  memos_ok (MetadataProvider.set_bioc (insert release data) q).
Proof.
  intros Hc Hb [Hcran Hbioc] Hd. split.
  - intros other vs. cbn [MetadataProvider.set_bioc MetadataProvider._cran]. rewrite Hc.
    apply Hcran.
  - intros other data' package v. cbn [MetadataProvider.set_bioc MetadataProvider._bioc].
    rewrite Hb. destruct (decide (release = other)) as [->|Hne].
    + rewrite lookup_insert_eq. intros [= <-]. apply Hd.
    + rewrite lookup_insert_ne by exact Hne. apply Hbioc.
Qed.

Lemma normalized_entries_from_cran (package : string) (entries : list (string * Payload.t))
    (v : PackageVersion.t) :
  In v (stable_sort_reverse version_key_lt
          (List.map (fun '(version, payload) => _normalize_cran_payload package payload version)
                    entries)) ->
  from_cran package v.
Proof.
  unfold stable_sort_reverse. rewrite stable_sort_In, in_map_iff.
  intros ([version payload] & <- & _). apply _normalize_cran_payload_from_cran.
Qed.

Section MemoFacts.
Variable fetch_cran_package : list fetch_call -> string -> res CranRaw.t.
Variable fetch_bioconductor_release : list fetch_call -> string -> res (list (string * Payload.t)).
Variable fetch_github_description :
  list fetch_call -> string -> string -> option string -> option string -> res GithubDescriptor.t.

Lemma get_cran_versions_memos (package : string) (p : MetadataProvider.t) :
  memos_ok p ->
  memos_ok (snd (MetadataProvider.get_cran_versions fetch_cran_package package p))
  /\ forall versions,
       fst (MetadataProvider.get_cran_versions fetch_cran_package package p) = Ok versions ->
       descending versions /\ forall v, In v versions -> from_cran package v.
Proof.
  intros Hok. unfold MetadataProvider.get_cran_versions.
  destruct (MetadataProvider._cran p !! package) as [vs|] eqn:Hmemo.
  - split; [exact Hok|]. intros versions [= <-]. now apply (proj1 Hok package).
  - destruct (MetadataProvider.cache_cran p !! _) as [raw|];
      [destruct (CranRaw.is_empty raw)|]; cbn [fst snd];
      try destruct (fetch_cran_package _ package) as [raw'|e]; cbn [fst snd];
      try (split; [now apply (memos_ok_same p)|discriminate]);
      (split;
       [apply (memos_ok_set_cran _ _ p); auto using sorted_descending;
        apply normalized_entries_from_cran
       |intros versions [= <-]; split;
        [apply sorted_descending|apply normalized_entries_from_cran]]).
Qed.

Lemma _load_bioc_release_memos (release : string) (p : MetadataProvider.t) :
  memos_ok p ->
  memos_ok (snd (MetadataProvider._load_bioc_release fetch_bioconductor_release release p))
  /\ forall data,
       fst (MetadataProvider._load_bioc_release fetch_bioconductor_release release p) = Ok data ->
       forall package v, data !! package = Some v -> from_bioconductor package release v.
Proof.
  intros Hok. unfold MetadataProvider._load_bioc_release.
  assert (Hfold : forall raw package v,
             List.fold_left
               (fun (acc : gmap string PackageVersion.t) '(name, payload) =>
                  <[name := _normalize_bioc_payload name payload release]> acc)
               raw ∅ !! package = Some v ->
             from_bioconductor package release v).
  { intros raw. apply normalized_release_from_bioconductor.
    intros package v. rewrite lookup_empty. discriminate. }
  destruct (MetadataProvider._bioc p !! release) as [data|] eqn:Hmemo.
  - split; [exact Hok|]. intros data' [= <-] package v. now apply (proj2 Hok release).
  - destruct (MetadataProvider.cache_bioconductor p !! _) as [[|kv raw]|]; cbn [fst snd];
      try destruct (fetch_bioconductor_release _ release) as [raw'|e]; cbn [fst snd];
      try (split; [now apply (memos_ok_same p)|discriminate]);
      (split;
       [apply (memos_ok_set_bioc _ _ p); auto;
        first [apply Hfold|apply (Hfold (kv :: raw))]
       |intros data [= <-]; first [apply Hfold|apply (Hfold (kv :: raw))]]).
Qed.

Lemma get_bioconductor_versions_memos (package release : string) (p : MetadataProvider.t) :
  memos_ok p ->
  memos_ok (snd (MetadataProvider.get_bioconductor_versions fetch_bioconductor_release
                   package release p))
  /\ forall versions,
       fst (MetadataProvider.get_bioconductor_versions fetch_bioconductor_release
              package release p) = Ok versions ->
       exists v, versions = [v] /\ from_bioconductor package release v.
Proof.
  intros Hok. unfold MetadataProvider.get_bioconductor_versions.
  destruct (_load_bioc_release_memos release p Hok) as [Hq Hdata].
  destruct (MetadataProvider._load_bioc_release fetch_bioconductor_release release p)
    as [[data|e] q]; cbn [fst snd] in *; [|split; [exact Hq|discriminate]].
  destruct (data !! package) as [v|] eqn:Hv; cbn [fst snd].
  - split; [exact Hq|]. intros versions [= <-]. exists v. split; [reflexivity|].
    now apply (Hdata data eq_refl).
  - split; [exact Hq|discriminate].
Qed.

Lemma get_github_version_memos (owner repo : string) (ref token : option string)
    (p : MetadataProvider.t) :
  memos_ok p ->
  memos_ok (snd (MetadataProvider.get_github_version fetch_github_description
                   owner repo ref token p)).
Proof.
  intros Hok. unfold MetadataProvider.get_github_version.
  destruct (fetch_github_description _ owner repo ref token) as [d|e];
    [|now apply (memos_ok_same p)].
  destruct (_normalize_github_payload _) as [v|e]; now apply (memos_ok_same p).
Qed.

End MemoFacts.

Lemma memos_ok_init : memos_ok MetadataProvider.init.
Proof.
  split.
  - intros package versions. cbn. rewrite lookup_empty. discriminate.
  - intros release data package v. cbn. rewrite lookup_empty. discriminate.
Qed.

(** X12. What a provider has memoised is well formed, from its creation
    on and through every call, failed ones included: each memoised CRAN
    list is sorted highest version first and holds versions of that
    package from CRAN, each memoised Bioconductor release maps a name to
    a version of that name and release. So every answer of
    [get_cran_versions] is sorted highest first, and every answer of
    [get_bioconductor_versions] is one version of the package asked for,
    in the release asked for. *)
Theorem provider_memos_well_formed :
  memos_ok MetadataProvider.init
  /\ (forall net package p,
        memos_ok p ->
        memos_ok (snd (MetadataProvider.get_cran_versions net package p))
        /\ forall versions,
             fst (MetadataProvider.get_cran_versions net package p) = Ok versions ->
             descending versions /\ forall v, In v versions -> from_cran package v)
  /\ (forall net package release p,
        memos_ok p ->
        memos_ok (snd (MetadataProvider.get_bioconductor_versions net package release p))
        /\ forall versions,
             fst (MetadataProvider.get_bioconductor_versions net package release p)
             = Ok versions ->
             exists v, versions = [v] /\ from_bioconductor package release v)
  /\ (forall net owner repo ref token p,
        memos_ok p ->
        memos_ok (snd (MetadataProvider.get_github_version net owner repo ref token p))).
Proof.
  split; [exact memos_ok_init|]. split; [|split].
  - intros net package p. apply get_cran_versions_memos.
  - intros net package release p. apply get_bioconductor_versions_memos.
  - intros net owner repo ref token p. apply get_github_version_memos.
Qed.

(** ** When the provider asks the network *)





(** ** Dispatch on the source *)

Lemma lower_char_idempotent (c : ascii) : Str.lower_char (Str.lower_char c) = Str.lower_char c.
Proof. destruct c as [[] [] [] [] [] [] [] []]; vm_compute; reflexivity. Qed.

Lemma lower_idempotent (s : string) : Str.lower (Str.lower s) = Str.lower s.
Proof.
  induction s as [|c s IH]; simpl; [reflexivity|]. now rewrite lower_char_idempotent, IH.
Qed.

Lemma split_slug_append (owner repo : string) :
  no_slash owner = true ->
  MetadataProvider.split_slug (owner ++ String "/" repo) = (owner, repo).
Proof.
  intros H. unfold MetadataProvider.split_slug.
  rewrite span_append by (auto; reflexivity). reflexivity.
Qed.

Lemma no_slash_append (owner repo : string) : no_slash (owner ++ String "/" repo) = false.
Proof.
  unfold no_slash. induction owner as [|c owner IH]; [reflexivity|].
  cbn [String.append Str.all]. rewrite IH. apply andb_false_r.
Qed.

(** X15. [get_versions] reads the source without regard to case. For a
    source that is none of cran, bioc, bioconductor and github, for a
    Bioconductor source without a release, and for a GitHub package
    without a slash it raises and leaves the provider untouched, the
    network unasked. A GitHub package is cut at its first slash: the
    owner before it, the repository after it, further slashes
    included. *)
Theorem get_versions_dispatch :
  (forall fc fb fg package source release ref token p,
      MetadataProvider.get_versions fc fb fg package source release ref token p
      = MetadataProvider.get_versions fc fb fg package (Str.lower source) release ref token p)
  /\ (forall fc fb fg package source release ref token p,
        ~ In (Str.lower source) known_sources ->
        MetadataProvider.get_versions fc fb fg package source release ref token p
        = (Raise (MetadataFetchError ("Unsupported source: " ++ Str.lower source)%string), p))
  /\ (forall fc fb fg package source release ref token p,
        In (Str.lower source) ["bioc"; "bioconductor"] -> truthy release = false ->
        MetadataProvider.get_versions fc fb fg package source release ref token p
        = (Raise (MetadataFetchError
                    "Bioconductor release must be specified for Bioconductor packages"), p))
  /\ (forall fc fb fg package source release ref token p,
        Str.lower source = "github" -> no_slash package = true ->
        MetadataProvider.get_versions fc fb fg package source release ref token p
        = (Raise (MetadataFetchError "GitHub packages must be provided as owner/repo"), p))
  /\ (forall fc fb fg owner repo source release ref token p,
        Str.lower source = "github" -> no_slash owner = true ->
        MetadataProvider.get_versions fc fb fg (owner ++ "/" ++ repo) source release ref token p
        = match MetadataProvider.get_github_version fg owner repo ref token p with
          | (Raise e, q) => (Raise e, q)
          | (Ok version, q) => (Ok [version], q)
          end).
Proof.
  split; [|split; [|split; [|split]]].
  - intros. unfold MetadataProvider.get_versions. now rewrite lower_idempotent.
  - intros fc fb fg package source release ref token p H.
    unfold MetadataProvider.get_versions. unfold known_sources in H. simpl in H.
    destruct (String.eqb_spec (Str.lower source) "cran") as [E|_];
      [exfalso; apply H; rewrite E; tauto|].
    destruct (String.eqb_spec (Str.lower source) "bioc") as [E|_];
      [exfalso; apply H; rewrite E; tauto|].
    destruct (String.eqb_spec (Str.lower source) "bioconductor") as [E|_];
      [exfalso; apply H; rewrite E; tauto|].
    destruct (String.eqb_spec (Str.lower source) "github") as [E|_];
      [exfalso; apply H; rewrite E; tauto|].
    reflexivity.
  - intros fc fb fg package source release ref token p H Hrel.
    unfold MetadataProvider.get_versions.
    destruct H as [<-|[<-|[]]]; cbn [String.eqb Ascii.eqb Bool.eqb orb];
      destruct release as [r|]; try reflexivity; now rewrite Hrel.
  - intros fc fb fg package source release ref token p E H.
    unfold MetadataProvider.get_versions. rewrite E. cbn [String.eqb Ascii.eqb Bool.eqb orb].
    unfold no_slash in H. now rewrite H.
  - intros fc fb fg owner repo source release ref token p E H.
    unfold MetadataProvider.get_versions. rewrite E. cbn [String.eqb Ascii.eqb Bool.eqb orb].
    change (owner ++ "/" ++ repo)%string with (owner ++ String "/" repo)%string.
    pose proof (no_slash_append owner repo) as Hs. unfold no_slash in Hs. rewrite Hs.
    now rewrite split_slug_append.
Qed.

(** ** File names of the cache *)

Lemma _sanitize_app (a b : string) : _sanitize (a ++ b) = (_sanitize a ++ _sanitize b)%string.
Proof.
  induction a as [|c a IH]; [reflexivity|]. cbn [String.append _sanitize].
  destruct (Str.is_char "/" c); cbn [String.append]; now rewrite IH.
Qed.

Lemma _sanitize_no_slash (s : string) : no_slash (_sanitize s) = true.
Proof.
  unfold no_slash. induction s as [|c s IH]; [reflexivity|]. cbn [_sanitize].
  destruct (Str.is_char "/" c) eqn:E; cbn [Str.all]; rewrite IH.
  - reflexivity.
  - now rewrite E.
Qed.

Lemma _sanitize_id (s : string) : no_slash s = true -> _sanitize s = s.
Proof.
  unfold no_slash. induction s as [|c s IH]; [reflexivity|]. cbn [Str.all _sanitize].
  intros [Hc Hs]%andb_prop. apply negb_true_iff in Hc. rewrite Hc, IH by exact Hs. reflexivity.
Qed.

(** X16. [_sanitize] yields a name without a slash, leaves a name
    without a slash as it is (so applying it twice changes nothing more)
    and works piece by piece. It is not injective: a slash and a double
    underscore give the same file name, so two different keys can share
    one file of the cache. *)
Theorem _sanitize_segment :
  (forall s, no_slash (_sanitize s) = true)
  /\ (forall s, no_slash s = true -> _sanitize s = s)
  /\ (forall s, _sanitize (_sanitize s) = _sanitize s)
  /\ (forall a b, _sanitize (a ++ b) = (_sanitize a ++ _sanitize b)%string)
  /\ (forall a b, (a ++ "/" ++ b)%string <> (a ++ "__" ++ b)%string
                  /\ _sanitize (a ++ "/" ++ b) = _sanitize (a ++ "__" ++ b)).
Proof.
  split; [exact _sanitize_no_slash|]. split; [exact _sanitize_id|].
  split; [intros s; apply _sanitize_id, _sanitize_no_slash|].
  split; [exact _sanitize_app|].
  intros a b. split.
  - intros H. apply append_inv_head in H. discriminate.
  - rewrite !_sanitize_app. reflexivity.
Qed.

(** ** DESCRIPTION files *)
























(** ** The candidates of a request *)

Lemma checked_satisfies_all (version : string) (constraints : list VersionConstraint.t) :
  match constraints with
  | [] => Ok true
  | _ => satisfies_all version constraints
  end = satisfies_all version constraints.
Proof. destruct constraints; reflexivity. Qed.

Lemma skip_not_compatible (candidate_r : string) (v : PackageVersion.t) :
  match PackageVersion.r_min v with
  | Some r_min =>
      truthy (PackageVersion.r_min v) && (compare_versions candidate_r r_min <? 0)%Z
  | None => false
  end = negb (compatible candidate_r v).
Proof. unfold compatible. now rewrite negb_involutive. Qed.

Lemma collect_versions_sound (candidate_r : string) (constraints : list VersionConstraint.t)
    (versions : list PackageVersion.t) (seen : list (string * string))
    (results : list PackageVersion.t) :
  seen = List.map version_key results ->
  match collect_versions candidate_r constraints versions seen results with
  | Ok (seen', results') =>
      seen' = List.map version_key results'
      /\ (NoDup seen -> NoDup seen')
      /\ exists added,
           results' = results ++ added
           /\ forall w, In w added ->
                In w versions /\ compatible candidate_r w = true
                /\ satisfies_all (PackageVersion.version w) constraints = Ok true
  | Raise e =>
      exists v, In v versions /\ satisfies_all (PackageVersion.version v) constraints = Raise e
  end.
Proof.
  revert seen results. induction versions as [|v vs IH]; intros seen results Hseen.
  - cbn [collect_versions]. split; [exact Hseen|]. split; [auto|].
    exists []. rewrite app_nil_r. split; [reflexivity|]. intros w [].
  - cbn [collect_versions]. rewrite skip_not_compatible, checked_satisfies_all.
    fold (version_key v).
    assert (Hskip : match collect_versions candidate_r constraints vs seen results with
                    | Ok (seen', results') =>
                        seen' = List.map version_key results'
                        /\ (NoDup seen -> NoDup seen')
                        /\ exists added,
                             results' = results ++ added
                             /\ forall w, In w added ->
                                  In w (v :: vs) /\ compatible candidate_r w = true
                                  /\ satisfies_all (PackageVersion.version w) constraints
                                     = Ok true
                    | Raise e =>
                        exists u, In u (v :: vs)
                                  /\ satisfies_all (PackageVersion.version u) constraints
                                     = Raise e
                    end).
    { specialize (IH seen results Hseen).
      destruct (collect_versions candidate_r constraints vs seen results) as [[seen' results']|e].
      - destruct IH as (H1 & H2 & added & H3 & H4). split; [exact H1|]. split; [exact H2|].
        exists added. split; [exact H3|]. intros w Hw. destruct (H4 w Hw) as (? & ? & ?).
        simpl. auto.
      - destruct IH as (u & Hu & He). exists u. simpl. auto. }
    destruct (compatible candidate_r v) eqn:Hc; cbn [negb]; [|exact Hskip].
    destruct (satisfies_all (PackageVersion.version v) constraints) as [[|]|e] eqn:Hs;
      [|exact Hskip|exists v; simpl; auto].
    destruct (seen_mem (version_key v) seen) eqn:Hmem; [exact Hskip|].
    assert (Hseen' : seen ++ [version_key v] = List.map version_key (results ++ [v]))
      by (rewrite List.map_app, Hseen; reflexivity).
    specialize (IH _ _ Hseen').
    destruct (collect_versions candidate_r constraints vs (seen ++ [version_key v])
                (results ++ [v])) as [[seen' results']|e].
    + destruct IH as (H1 & H2 & added & H3 & H4). split; [exact H1|]. split.
      * intros Hnd. apply H2. apply NoDup_app. split; [exact Hnd|]. split.
        -- intros k Hk Hk'. apply list_elem_of_In in Hk, Hk'. destruct Hk' as [<-|[]].
           apply seen_mem_In in Hk. congruence.
        -- apply NoDup_singleton.
      * exists (v :: added). split; [rewrite H3, <- app_assoc; reflexivity|].
        intros w [<-|Hw]; [simpl; auto|]. destruct (H4 w Hw) as (? & ? & ?). simpl. auto.
    + destruct IH as (u & Hu & He). exists u. simpl. auto.
Qed.

Lemma collect_sources_sound (self : EnvironmentSolver.t) (request : PackageRequest.t)
    (candidate_r : string) (constraints : list VersionConstraint.t) (sources : list string)
    (seen : list (string * string)) (results : list PackageVersion.t) :
  seen = List.map version_key results -> NoDup seen ->
  match collect_sources self request candidate_r constraints sources seen results with
  | Ok out =>
      NoDup (List.map version_key out)
      /\ forall w, In w out ->
           In w results
           \/ (compatible candidate_r w = true
               /\ satisfies_all (PackageVersion.version w) constraints = Ok true
               /\ exists source versions,
                    In source sources
                    /\ _load_versions_for_source self request source = Ok versions
                    /\ In w versions)
  | Raise e =>
      (exists source, In source sources
                      /\ _load_versions_for_source self request source = Raise e
                      /\ forall msg, e <> MetadataFetchError msg)
      \/ exists source versions v,
           In source sources
           /\ _load_versions_for_source self request source = Ok versions
           /\ In v versions
           /\ satisfies_all (PackageVersion.version v) constraints = Raise e
  end.
Proof.
  revert seen results. induction sources as [|source rest IH]; intros seen results Hseen Hnd.
  - cbn [collect_sources]. rewrite <- Hseen. split; [exact Hnd|]. auto.
  - cbn [collect_sources].
    assert (Hrest : forall seen' results',
               seen' = List.map version_key results' -> NoDup seen' ->
               (forall w, In w results' ->
                  In w results
                  \/ (compatible candidate_r w = true
                      /\ satisfies_all (PackageVersion.version w) constraints = Ok true
                      /\ exists src versions,
                           In src (source :: rest)
                           /\ _load_versions_for_source self request src = Ok versions
                           /\ In w versions)) ->
               match collect_sources self request candidate_r constraints rest seen' results' with
               | Ok out =>
                   NoDup (List.map version_key out)
                   /\ forall w, In w out ->
                        In w results
                        \/ (compatible candidate_r w = true
                            /\ satisfies_all (PackageVersion.version w) constraints = Ok true
                            /\ exists src versions,
                                 In src (source :: rest)
                                 /\ _load_versions_for_source self request src = Ok versions
                                 /\ In w versions)
               | Raise e =>
                   (exists src, In src (source :: rest)
                                /\ _load_versions_for_source self request src = Raise e
                                /\ forall msg, e <> MetadataFetchError msg)
                   \/ exists src versions v,
                        In src (source :: rest)
                        /\ _load_versions_for_source self request src = Ok versions
                        /\ In v versions
                        /\ satisfies_all (PackageVersion.version v) constraints = Raise e
               end).
    { intros seen' results' Hs' Hnd' Hfrom. specialize (IH seen' results' Hs' Hnd').
      destruct (collect_sources self request candidate_r constraints rest seen' results')
        as [out|e].
      - destruct IH as [H1 H2]. split; [exact H1|]. intros w Hw.
        destruct (H2 w Hw) as [Hin|(Hc & Hs & src & versions & Hsrc & Hl & Hv)].
        + now apply Hfrom.
        + right. split; [exact Hc|]. split; [exact Hs|]. exists src, versions. simpl. auto.
      - destruct IH as [(src & Hsrc & Hl & Hne)|(src & versions & v & Hsrc & Hl & Hv & Hs)].
        + left. exists src. simpl. auto.
        + right. exists src, versions, v. simpl. auto. }
    destruct (_load_versions_for_source self request source) as [versions|e] eqn:Hload.
    + pose proof (collect_versions_sound candidate_r constraints versions seen results Hseen)
        as Hcv.
      destruct (collect_versions candidate_r constraints versions seen results)
        as [[seen' results']|e].
      * destruct Hcv as (H1 & H2 & added & H3 & H4). apply Hrest; auto.
        intros w Hw. rewrite H3 in Hw. apply in_app_or in Hw. destruct Hw as [Hw|Hw]; [now left|].
        destruct (H4 w Hw) as (Hv & Hc & Hs). right. split; [exact Hc|]. split; [exact Hs|].
        exists source, versions. simpl. auto.
      * destruct Hcv as (v & Hv & Hs). right. exists source, versions, v. simpl. auto.
    + destruct e as [err|msg|msg|msg|key];
        try (left; exists source; split; [now left|]; split; [exact Hload|intros m; discriminate]).
      apply Hrest; auto.
Qed.

Lemma source_priority_sort_In (source_order : list string) (l : list PackageVersion.t)
    (v : PackageVersion.t) :
  In v (stable_sort
          (fun a b => (source_priority source_order a <? source_priority source_order b)%nat)
          (stable_sort_reverse version_key_lt l))
  <-> In v l.
Proof. unfold stable_sort_reverse. now rewrite !stable_sort_In. Qed.

Lemma source_priority_sort_perm (source_order : list string) (l : list PackageVersion.t) :
  Permutation
    (stable_sort
       (fun a b => (source_priority source_order a <? source_priority source_order b)%nat)
       (stable_sort_reverse version_key_lt l)) l.
Proof.
  unfold stable_sort_reverse. etransitivity; apply stable_sort_perm.
Qed.

Lemma _candidate_versions_members (self : EnvironmentSolver.t) (request : PackageRequest.t)
    (state : ResolutionState.t) (constraints : list VersionConstraint.t) :
  match _candidate_versions self request state constraints with
  | Ok candidates =>
      NoDup (List.map version_key candidates)
      /\ forall v, In v candidates ->
           offered self request v
           /\ compatible (ResolutionState.candidate_r state) v = true
           /\ satisfies_all (PackageVersion.version v) constraints = Ok true
  | Raise e =>
      (exists source,
          In source (source_order_of request)
          /\ _load_versions_for_source self request source = Raise e
          /\ forall msg, e <> MetadataFetchError msg)
      \/ exists v, offered self request v
                   /\ satisfies_all (PackageVersion.version v) constraints = Raise e
  end.
Proof.
  unfold _candidate_versions.
  pose proof (collect_sources_sound self request (ResolutionState.candidate_r state)
                constraints (source_order_of request) [] [] eq_refl (NoDup_nil_2 (A := string * string))) as H.
  destruct (collect_sources self request (ResolutionState.candidate_r state) constraints
              (source_order_of request) [] []) as [out|e].
  - destruct H as [Hnd Hin]. split.
    + rewrite (Permutation_map version_key (source_priority_sort_perm _ out)). exact Hnd.
    + intros v Hv. apply source_priority_sort_In in Hv.
      destruct (Hin v Hv) as [[]|(Hc & Hs & source & versions & Hsrc & Hl & Hvs)].
      split; [|auto]. exists source, versions. auto.
  - destruct H as [H|(source & versions & v & Hsrc & Hl & Hv & Hs)]; [now left|].
    right. exists v. split; [|exact Hs]. exists source, versions. auto.
Qed.


Section StableFilter.
Context {A : Type} (lt : A -> A -> bool) (p : A -> bool).
Hypothesis flat : forall a b, p a = true -> p b = true -> lt a b = false.

Lemma insert_sorted_filter (x : A) (l : list A) :
  List.filter p (insert_sorted lt x l) = List.filter p (x :: l).
Proof.
  induction l as [|y l IH]; [reflexivity|]. cbn [insert_sorted].
  destruct (lt y x) eqn:Hyx; [|reflexivity].
  cbn [List.filter] in *. rewrite IH.
  destruct (p x) eqn:Hx; [|reflexivity].
  destruct (p y) eqn:Hy; [|reflexivity].
  rewrite (flat y x Hy Hx) in Hyx. discriminate.
Qed.

(** A stable sort keeps the order of members it cannot tell apart. *)
Lemma stable_sort_filter (l : list A) :
  List.filter p (stable_sort lt l) = List.filter p l.
Proof.
  induction l as [|x l IH]; [reflexivity|].
  change (stable_sort lt (x :: l)) with (insert_sorted lt x (stable_sort lt l)).
  rewrite insert_sorted_filter. cbn [List.filter]. now rewrite IH.
Qed.
End StableFilter.

Lemma StronglySorted_filter {A : Type} (R : A -> A -> Prop) (p : A -> bool) (l : list A) :
  StronglySorted R l -> StronglySorted R (List.filter p l).
Proof.
  induction 1 as [|x l Hl IH Hx]; [constructor|]. cbn [List.filter].
  destruct (p x); [|exact IH]. constructor; [exact IH|].
  rewrite List.Forall_forall in *. intros y Hy. apply List.filter_In in Hy. apply Hx, Hy.
Qed.

Lemma sorted_by_priority (source_order : list string) (l : list PackageVersion.t) :
  by_priority source_order
    (stable_sort
       (fun a b => (source_priority source_order a <? source_priority source_order b)%nat)
       (stable_sort_reverse version_key_lt l)).
Proof.
  split.
  - eapply StronglySorted_weaken; [|apply stable_sort_sorted].
    + intros a b H. unfold not_above in H. apply Nat.ltb_ge in H. exact H.
    + intros a b H. apply Nat.ltb_lt in H. apply Nat.ltb_ge. lia.
    + intros a b c. unfold not_above. rewrite !Nat.ltb_ge. lia.
  - intros k. rewrite stable_sort_filter.
    + apply StronglySorted_filter, sorted_descending.
    + intros a b Ha Hb. apply Nat.eqb_eq in Ha, Hb. apply Nat.ltb_ge. lia.
Qed.

Lemma add_fallback_spec (order : list string) (fallback : string) :
  In fallback (if Str.mem fallback order then order else order ++ [fallback])
  /\ (forall x, In x order ->
        In x (if Str.mem fallback order then order else order ++ [fallback]))
  /\ exists added, (if Str.mem fallback order then order else order ++ [fallback])
                   = order ++ added.
Proof.
  destruct (Str.mem fallback order) eqn:E.
  - split; [|split; [auto|exists []; now rewrite app_nil_r]].
    unfold Str.mem in E. apply existsb_exists in E. destruct E as (x & Hx & Hxe).
    apply String.eqb_eq in Hxe. now subst.
  - split; [apply in_or_app; right; now left|].
    split; [intros x Hx; apply in_or_app; now left|eauto].
Qed.

Lemma source_order_of_spec (request : PackageRequest.t) :
  In "cran" (source_order_of request) /\ In "bioc" (source_order_of request)
  /\ exists added,
       source_order_of request
       = match PackageRequest.source request with
         | Some s => if truthy (PackageRequest.source request) then [s] else []
         | None => []
         end ++ added.
Proof.
  unfold source_order_of. cbn [List.fold_left].
  set (start := match PackageRequest.source request with
                | Some s => if truthy (PackageRequest.source request) then [s] else []
                | None => []
                end).
  destruct (add_fallback_spec start "cran") as (Hc & _ & added1 & E1).
  set (first := if Str.mem "cran" start then start else start ++ ["cran"]) in *.
  destruct (add_fallback_spec first "bioc") as (Hb & Hkeep & added2 & E2).
  split; [now apply Hkeep|]. split; [exact Hb|].
  exists (added1 ++ added2). rewrite E2, E1, <- app_assoc. reflexivity.
Qed.

(** The number [source_priority] computes is the rank. *)
Lemma source_priority_from_rank (source_order : list string) (v : PackageVersion.t)
    (idx : nat) :
  exists rank,
    source_priority_from idx source_order (Str.lower (PackageVersion.repo v)) = idx + rank
    /\ has_rank source_order v rank.
Proof.
  revert idx. induction source_order as [|source rest IH]; intros idx.
  - exists 0. split; [simpl; lia|]. split; [intros i source Hi; lia|reflexivity].
  - cbn [source_priority_from].
    destruct (Str.startswith (Str.lower (PackageVersion.repo v)) (Str.take 4 source)) eqn:E.
    + exists 0. split; [lia|]. split; [intros i s Hi; lia|exact E].
    + destruct (IH (S idx)) as (rank & Hrank & Hlow & Hat).
      exists (S rank). split; [lia|]. split.
      * intros [|i] s Hi; cbn [nth_error].
        -- intros [= <-]. exact E.
        -- apply Hlow. lia.
      * cbn [nth_error]. destruct (nth_error rest rank); [exact Hat|]. simpl. lia.
Qed.

Lemma source_priority_rank (source_order : list string) (v : PackageVersion.t) :
  has_rank source_order v (source_priority source_order v).
Proof.
  unfold source_priority.
  destruct (source_priority_from_rank source_order v 0) as (rank & -> & H). exact H.
Qed.

Lemma has_rank_unique (source_order : list string) (v : PackageVersion.t) (i j : nat) :
  has_rank source_order v i -> has_rank source_order v j -> i = j.
Proof.
  assert (H : forall i j, has_rank source_order v i -> has_rank source_order v j -> ~ i < j).
  { clear i j. intros i j [_ Hi] [Hj Hj'] Hlt.
    destruct (nth_error source_order i) as [source|] eqn:E.
    - rewrite (Hj i source Hlt E) in Hi. discriminate.
    - subst i. destruct (nth_error source_order j) as [source|] eqn:E'; [|lia].
      assert (j < List.length source_order) by (apply nth_error_Some; congruence). lia. }
  intros Hi Hj. pose proof (H i j Hi Hj). pose proof (H j i Hj Hi). lia.
Qed.

(** A list sorted by a key, and sorted by [R] within every key. *)
Lemma StronglySorted_by_key {A : Type} (key : A -> nat) (R : A -> A -> Prop) (l : list A) :
  StronglySorted (fun a b => key a <= key b) l ->
  (forall k, StronglySorted R (List.filter (fun v => Nat.eqb (key v) k) l)) ->
  StronglySorted (fun a b => key a < key b \/ (key a = key b /\ R a b)) l.
Proof.
  induction l as [|x l IH]; intros Hkey Hwithin; [constructor|].
  apply StronglySorted_inv in Hkey. destruct Hkey as [Hkey Hx]. constructor.
  - apply IH; [exact Hkey|]. intros k. specialize (Hwithin k). cbn [List.filter] in Hwithin.
    destruct (Nat.eqb (key x) k); [|exact Hwithin].
    now apply StronglySorted_inv in Hwithin.
  - rewrite List.Forall_forall in *. intros b Hb. specialize (Hx b Hb).
    destruct (Nat.eq_dec (key x) (key b)) as [E|E]; [|left; lia].
    right. split; [exact E|]. specialize (Hwithin (key x)). cbn [List.filter] in Hwithin.
    rewrite Nat.eqb_refl in Hwithin. apply StronglySorted_inv in Hwithin.
    destruct Hwithin as [_ Hall]. rewrite List.Forall_forall in Hall. apply Hall.
    apply List.filter_In. split; [exact Hb|]. apply Nat.eqb_eq. congruence.
Qed.

Lemma candidates_may_precede (source_order : list string) (l : list PackageVersion.t) :
  StronglySorted (may_precede source_order)
    (stable_sort
       (fun a b => (source_priority source_order a <? source_priority source_order b)%nat)
       (stable_sort_reverse version_key_lt l)).
Proof.
  destruct (sorted_by_priority source_order l) as [Hkey Hwithin].
  eapply StronglySorted_weaken;
    [|exact (StronglySorted_by_key (source_priority source_order) _ _ Hkey Hwithin)].
  intros a b H i j Hi Hj. cbv beta in H.
  rewrite (has_rank_unique _ _ _ _ Hi (source_priority_rank source_order a)).
  rewrite (has_rank_unique _ _ _ _ Hj (source_priority_rank source_order b)).
  exact H.
Qed.

(** X19. The candidates of [_candidate_versions] come in the order of
    their sources and within one source highest version first: the rank
    of a candidate is the place of the first source whose first four
    letters start the lower-case name of its repository, and of two
    candidates the earlier has the lower rank or, at equal rank, a
    version that is not below. Every candidate has one rank. Where
    every version that a source serves names that source by its
    repository, as the versions of CRAN, Bioconductor and GitHub do,
    the candidates stand in the order of the sources they were loaded
    from. The order of the sources starts with the source of the
    request, if it names one, and always holds cran and bioc. *)
Theorem _candidate_versions_order (self : EnvironmentSolver.t) (request : PackageRequest.t)
    (state : ResolutionState.t) (constraints : list VersionConstraint.t) :
  (forall candidates,
      _candidate_versions self request state constraints = Ok candidates ->
      StronglySorted (may_precede (source_order_of request)) candidates)
  /\ (forall v, exists rank,
        has_rank (source_order_of request) v rank
        /\ forall rank', has_rank (source_order_of request) v rank' -> rank' = rank)
  /\ (forall candidates,
        _candidate_versions self request state constraints = Ok candidates ->
        (forall i v, loaded_at self request i v -> has_rank (source_order_of request) v i) ->
        StronglySorted
          (fun a b =>
             forall i j,
               loaded_at self request i a -> loaded_at self request j b ->
               i < j
               \/ (i = j
                   /\ (compare_versions (PackageVersion.version b) (PackageVersion.version a)
                       <= 0)%Z))
          candidates)
  /\ In "cran" (source_order_of request) /\ In "bioc" (source_order_of request)
  /\ (forall source,
        PackageRequest.source request = Some source -> source <> "" ->
        exists rest, source_order_of request = source :: rest)
  /\ (truthy (PackageRequest.source request) = false ->
      source_order_of request = ["cran"; "bioc"])
  /\ _candidate_versions (EnvironmentSolver.mk two_sources false None)
       (request_from (Some "bioc"))
       (initial_state (EnvironmentSolver.mk two_sources false None) "4.3.0") []
     = Ok [ bioc_version "P" "1.5" "3.17" None []; cran_version "P" "2.0" None [];
            cran_version "P" "1.0" None [] ]
  /\ _candidate_versions (EnvironmentSolver.mk two_sources false None) (request_from None)
       (initial_state (EnvironmentSolver.mk two_sources false None) "4.3.0") []
     = Ok [ cran_version "P" "2.0" None []; cran_version "P" "1.0" None [];
            bioc_version "P" "1.5" "3.17" None [] ].
Proof.
  destruct (source_order_of_spec request) as (Hc & Hb & added & E).
  assert (Hsorted : forall candidates,
             _candidate_versions self request state constraints = Ok candidates ->
             StronglySorted (may_precede (source_order_of request)) candidates).
  { intros candidates. unfold _candidate_versions.
    destruct (collect_sources _ _ _ _ _ _ _) as [out|e]; [|discriminate].
    intros [= <-]. apply candidates_may_precede. }
  split; [exact Hsorted|]. split; [|split; [|split; [exact Hc|split; [exact Hb|split; [|split]]]]].
  - intros v. exists (source_priority (source_order_of request) v).
    split; [apply source_priority_rank|].
    intros rank' H. exact (has_rank_unique _ _ _ _ H (source_priority_rank _ v)).
  - intros candidates Hcand Hnames.
    eapply StronglySorted_weaken; [|exact (Hsorted candidates Hcand)].
    intros a b H i j Hi Hj. apply H; apply Hnames; assumption.
  - intros source Hs Hne. rewrite E, Hs.
    assert (Ht : truthy (Some source) = true) by (destruct source; [congruence|reflexivity]).
    rewrite Ht. eauto.
  - intros Ht. unfold source_order_of.
    destruct (PackageRequest.source request) as [s|]; [|reflexivity].
    rewrite Ht. reflexivity.
  - split; vm_compute; reflexivity.
Qed.

(** In the scenario every served version names its source. *)
Example two_sources_name_their_source (i : nat) (v : PackageVersion.t) :
  loaded_at (EnvironmentSolver.mk two_sources false None) (request_from (Some "bioc")) i v ->
  has_rank (source_order_of (request_from (Some "bioc"))) v i.
Proof.
  intros (source & versions & Hnth & Hload & Hin).
  change (source_order_of (request_from (Some "bioc"))) with ["bioc"; "cran"] in *.
  destruct i as [|[|i]]; cbn [nth_error] in Hnth.
  - injection Hnth as <-. vm_compute in Hload. injection Hload as <-.
    destruct Hin as [<-|[]]. split; [intros i source Hi; lia|reflexivity].
  - injection Hnth as <-. vm_compute in Hload. injection Hload as <-.
    destruct Hin as [<-|[<-|[]]].
    + split; [|reflexivity]. intros [|i] source Hi; [|lia]. intros [= <-]. reflexivity.
    + split; [|reflexivity]. intros [|i] source Hi; [|lia]. intros [= <-]. reflexivity.
  - destruct i; discriminate.
Qed.

(** ** What a resolution leaves behind *)

Lemma satisfies_all_app (candidate : string) (xs ys : list VersionConstraint.t) :
  satisfies_all candidate (xs ++ ys) = Ok true
  <-> satisfies_all candidate xs = Ok true /\ satisfies_all candidate ys = Ok true.
Proof.
  rewrite !satisfies_all_true. split.
  - intros H. split; intros k Hk; apply H, in_or_app; auto.
  - intros [Hx Hy] k Hk. apply in_app_or in Hk. destruct Hk; auto.
Qed.

Lemma satisfies_all_raises (candidate : string) (constraints : list VersionConstraint.t)
    (e : exn) :
  satisfies_all candidate constraints = Raise e -> exists msg, e = ValueError msg.
Proof.
  induction constraints as [|c cs IH]; cbn [satisfies_all]; [discriminate|].
  destruct (is_satisfied_by c candidate) as [[|]|e'] eqn:E; [exact IH|discriminate|].
  intros [= <-]. unfold is_satisfied_by in E.
  repeat match type of E with
         | (if ?b then _ else _) = _ => destruct b; [discriminate|]
         end.
  injection E as <-. eauto.
Qed.

Lemma _load_versions_for_source_raises (self : EnvironmentSolver.t) (request : PackageRequest.t)
    (source : string) (e : exn) :
  _load_versions_for_source self request source = Raise e ->
  (forall msg, e <> MetadataFetchError msg) -> provider_raises self e.
Proof.
  unfold _load_versions_for_source, provider_raises. intros H Hne.
  repeat match type of H with
         | (if ?b then _ else _) = _ => destruct b
         end; eauto 10; injection H as <-; exfalso; eapply Hne; reflexivity.
Qed.

Lemma _candidate_versions_raises (self : EnvironmentSolver.t) (request : PackageRequest.t)
    (state : ResolutionState.t) (constraints : list VersionConstraint.t) (e : exn) :
  _candidate_versions self request state constraints = Raise e ->
  provider_raises self e \/ exists msg, e = ValueError msg.
Proof.
  intros H. pose proof (_candidate_versions_members self request state constraints) as M.
  rewrite H in M. destruct M as [(source & _ & Hl & Hne)|(v & _ & Hs)].
  - left. eapply _load_versions_for_source_raises; eauto.
  - right. eapply satisfies_all_raises; eauto.
Qed.

Lemma compatible_selection (candidate_r : string) (v : PackageVersion.t) :
  selection_compatible candidate_r (selection_of v) = compatible candidate_r v.
Proof. reflexivity. Qed.

Section SoundState.
Variable self : EnvironmentSolver.t.

Lemma sound_state_assign (package : string) (selection : PackageSelection.t)
    (aggregated : list VersionConstraint.t) (state : ResolutionState.t) :
  sound_state self state ->
  sound_selection self (ResolutionState.candidate_r state) aggregated selection ->
  sound_state self
    (ResolutionState.set_constraints (insert package aggregated)
       (ResolutionState.set_assignments (insert package selection) state)).
Proof.
  intros Hs Hsel other sel. unfold stored_constraints.
  cbn [ResolutionState.set_constraints ResolutionState.set_assignments
       ResolutionState.assignments ResolutionState.constraints ResolutionState.candidate_r].
  destruct (decide (package = other)) as [->|Hne].
  - rewrite !lookup_insert_eq. intros [= <-]. exact Hsel.
  - rewrite !lookup_insert_ne by exact Hne. apply Hs.
Qed.

Lemma sound_state_delete (package : string) (state : ResolutionState.t) :
  sound_state self state ->
  sound_state self (ResolutionState.set_assignments (delete package) state).
Proof.
  intros Hs other sel.
  cbn [ResolutionState.set_assignments ResolutionState.assignments].
  intros H. apply lookup_delete_Some in H. destruct H as [_ H]. now apply Hs.
Qed.

Lemma sound_state_visiting (f : gset string -> gset string) (state : ResolutionState.t) :
  sound_state self state -> sound_state self (ResolutionState.set_visiting f state).
Proof. intros Hs other sel. apply Hs. Qed.

(** The constraints recorded for a package without assignment may
    change at will. *)
Lemma sound_state_constraints
    (f : gmap string (list VersionConstraint.t) -> gmap string (list VersionConstraint.t))
    (package : string) (state : ResolutionState.t) :
  (forall m other, other <> package -> f m !! other = m !! other) ->
  ResolutionState.assignments state !! package = None ->
  sound_state self state ->
  sound_state self (ResolutionState.set_constraints f state).
Proof.
  intros Hf Hnone Hs other sel. unfold stored_constraints.
  cbn [ResolutionState.set_constraints ResolutionState.assignments
       ResolutionState.constraints ResolutionState.candidate_r].
  intros H. rewrite Hf by congruence. now apply Hs.
Qed.

Lemma sound_state_confirm (package : string) (existing : PackageSelection.t)
    (aggregated : list VersionConstraint.t) (state : ResolutionState.t) :
  ResolutionState.assignments state !! package = Some existing ->
  satisfies_all (PackageSelection.version existing) aggregated = Ok true ->
  sound_state self state ->
  sound_state self (ResolutionState.set_constraints (insert package aggregated) state).
Proof.
  intros Hex Hsat Hs other sel. unfold stored_constraints.
  cbn [ResolutionState.set_constraints ResolutionState.assignments
       ResolutionState.constraints ResolutionState.candidate_r].
  destruct (decide (package = other)) as [<-|Hne].
  - rewrite lookup_insert_eq. rewrite Hex. intros [= <-].
    destruct (Hs package existing Hex) as (Hc & _ & Hoff). split; [exact Hc|]. split; assumption.
  - rewrite lookup_insert_ne by exact Hne. apply Hs.
Qed.
End SoundState.

Lemma add_remove (visiting : gset string) (package : string) :
  package ∉ visiting -> (visiting ∪ {[package]}) ∖ {[package]} = visiting.
Proof.
  intros H. apply set_eq. intros x.
  rewrite elem_of_difference, elem_of_union, elem_of_singleton. split.
  - intros [[Hx|Hx] Hne]; [exact Hx|contradiction].
  - intros Hx. split; [now left|]. intros ->. contradiction.
Qed.

Section Contract.
Variable self : EnvironmentSolver.t.
Variable rp :
  PackageRequest.t -> ResolutionState.t -> outcome PackageSelection.t * ResolutionState.t.
Hypothesis rp_keeps : keeps_assignments rp.
Hypothesis rp_contract : resolve_contract self rp.

Lemma resolve_dependency_list_contract (dependencies : list Dependency.t)
    (selection : PackageSelection.t) (request : PackageRequest.t) (state : ResolutionState.t) :
  ResolutionState.candidate_r
    (snd (resolve_dependency_list self rp dependencies selection request state))
  = ResolutionState.candidate_r state
  /\ (sound_state self state ->
      sound_state self
        (snd (resolve_dependency_list self rp dependencies selection request state)))
  /\ outcome_ok self (ResolutionState.visiting state)
       (fst (resolve_dependency_list self rp dependencies selection request state))
       (snd (resolve_dependency_list self rp dependencies selection request state)).
Proof.
  revert state. induction dependencies as [|d ds IH]; intros state.
  - cbn. auto.
  - cbn [resolve_dependency_list].
    destruct (Dependency.optional d && negb (ResolutionState.include_optional state));
      [apply IH|].
    destruct (rp_contract (child_request self selection request d) state)
      as (Hr & Hs & Ho & _).
    destruct (rp (child_request self selection request d) state) as [[sel|e|] st'];
      cbn [fst snd] in *.
    + destruct (IH st') as (Hr' & Hs' & Ho'). split; [congruence|]. split; [auto|].
      cbn [outcome_ok] in Ho. rewrite <- Ho. exact Ho'.
    + split; [exact Hr|]. split; [exact Hs|]. exact Ho.
    + split; [exact Hr|]. split; [exact Hs|]. exact I.
Qed.

Lemma try_candidates_contract (request : PackageRequest.t)
    (aggregated previous : list VersionConstraint.t)
    (all_candidates candidates : list PackageVersion.t) (failures : list ResolutionError.t)
    (candidate_r : string) (visiting : gset string) (state : ResolutionState.t) :
  ResolutionState.candidate_r state = candidate_r ->
  ResolutionState.visiting state = visiting ->
  PackageRequest.package request ∈ visiting ->
  ResolutionState.assignments state !! PackageRequest.package request = None ->
  (forall c, In c candidates ->
     sound_selection self candidate_r aggregated (selection_of c)) ->
  ResolutionState.candidate_r
    (snd (try_candidates self rp request aggregated previous all_candidates candidates
            failures state)) = candidate_r
  /\ (sound_state self state ->
      sound_state self
        (snd (try_candidates self rp request aggregated previous all_candidates candidates
                failures state)))
  /\ match fst (try_candidates self rp request aggregated previous all_candidates candidates
                  failures state) with
     | Return selection =>
         ResolutionState.visiting
           (snd (try_candidates self rp request aggregated previous all_candidates candidates
                   failures state)) = visiting ∖ {[PackageRequest.package request]}
         /\ ResolutionState.assignments
              (snd (try_candidates self rp request aggregated previous all_candidates
                      candidates failures state)) !! PackageRequest.package request
            = Some selection
         /\ satisfies_all (PackageSelection.version selection) aggregated = Ok true
     | Throw (ResolutionErr _) =>
         ResolutionState.visiting
           (snd (try_candidates self rp request aggregated previous all_candidates candidates
                   failures state)) = visiting ∖ {[PackageRequest.package request]}
     | Throw e => provider_raises self e \/ exists msg, e = ValueError msg
     | OutOfFuel => True
     end.
Proof.
  revert failures state.
  induction candidates as [|c cs IH]; intros failures state Hr Hv Hvis Hnone Hcands.
  - cbn [try_candidates]. unfold exhausted, visiting_remove.
    rewrite bool_decide_eq_true_2 by (rewrite Hv; exact Hvis).
    destruct previous as [|k previous]; cbn [fst snd].
    + split; [exact Hr|]. split; [|now rewrite <- Hv].
      intros Hs. apply (sound_state_constraints self _ (PackageRequest.package request)).
      * intros m other Hne. now apply lookup_delete_ne.
      * exact Hnone.
      * now apply sound_state_visiting.
    + split; [exact Hr|]. split; [|now rewrite <- Hv].
      intros Hs. apply (sound_state_constraints self _ (PackageRequest.package request)).
      * intros m other Hne. now apply lookup_insert_ne.
      * exact Hnone.
      * now apply sound_state_visiting.
  - cbn [try_candidates]. unfold resolve_dependencies_with.
    set (state1 :=
           ResolutionState.set_constraints (insert (PackageRequest.package request) aggregated)
             (ResolutionState.set_assignments
                (insert (PackageRequest.package request) (selection_of c)) state)).
    assert (Hc : sound_selection self candidate_r aggregated (selection_of c))
      by (apply Hcands; now left).
    destruct (resolve_dependency_list_contract
                (PackageSelection.dependencies (selection_of c)) (selection_of c) request
                state1) as (Hr1 & Hs1 & Ho1).
    pose proof (resolve_dependency_list_keeps self rp rp_keeps
                  (PackageSelection.dependencies (selection_of c)) (selection_of c) request
                  state1) as Hk.
    assert (Hassigned : forall st,
               ResolutionState.assignments state1 ⊆ ResolutionState.assignments st ->
               ResolutionState.assignments st !! PackageRequest.package request
               = Some (selection_of c)).
    { intros st Hsub. eapply lookup_weaken; [|exact Hsub]. apply lookup_insert_eq. }
    assert (Hsound1 : sound_state self state -> sound_state self state1).
    { intros Hs. apply sound_state_assign; [exact Hs|]. now rewrite Hr. }
    destruct (resolve_dependency_list self rp
                (PackageSelection.dependencies (selection_of c)) (selection_of c) request
                state1) as [[u|e|] st']; cbn [fst snd] in *.
    + cbn [outcome_ok] in Ho1. change (ResolutionState.visiting state1)
        with (ResolutionState.visiting state) in Ho1.
      unfold visiting_remove.
      rewrite bool_decide_eq_true_2 by (rewrite Ho1, Hv; exact Hvis). cbn [fst snd].
      split; [now rewrite <- Hr|]. split; [intros Hs; apply sound_state_visiting; auto|].
      split; [cbn; now rewrite Ho1, Hv|]. split; [now apply Hassigned|]. apply Hc.
    + destruct e as [error|msg|msg|msg|key]; cbn [fst snd];
        try (split; [now rewrite <- Hr|]; split; [auto|exact Ho1]).
      unfold assignments_del. rewrite (Hassigned st' Hk).
      cbn [outcome_ok] in Ho1. change (ResolutionState.visiting state1)
        with (ResolutionState.visiting state) in Ho1.
      destruct (IH (failures ++ [error])
                  (ResolutionState.set_assignments (delete (PackageRequest.package request))
                     st')) as (Hr' & Hs' & Ho').
      * now rewrite <- Hr.
      * cbn. now rewrite Ho1.
      * exact Hvis.
      * cbn. apply lookup_delete_eq.
      * intros c' Hc'. apply Hcands. now right.
      * split; [exact Hr'|]. split; [|exact Ho'].
        intros Hs. apply Hs', sound_state_delete. auto.
    + split; [now rewrite <- Hr|]. split; [auto|exact I].
Qed.

Lemma resolve_package_body_contract : resolve_contract self (resolve_package_body self rp).
Proof.
  intros request state. unfold resolve_package_body.
  case_bool_decide as Hvis.
  - destruct (ResolutionState.assignments state !! PackageRequest.package request)
      as [selection|] eqn:Hsel; cbn [fst snd outcome_ok].
    + split; [reflexivity|]. split; [auto|]. split; [reflexivity|].
      intros sel [= <-]. split; [exact Hsel|]. intros H. now elim H.
    + split; [reflexivity|]. split; [auto|]. split; [reflexivity|]. discriminate.
  - destruct (ResolutionState.assignments state !! PackageRequest.package request)
      as [existing|] eqn:Hsel.
    + destruct (satisfies_all (PackageSelection.version existing) _) as [[|]|e] eqn:Hsat;
        cbn [fst snd].
      * match goal with |- context [if ?b then _ else _] => destruct b end;
          cbn [fst snd outcome_ok].
        -- split; [reflexivity|]. split; [auto|]. split; [reflexivity|]. discriminate.
        -- split; [reflexivity|]. split; [now apply (sound_state_confirm self _ existing)|].
           split; [reflexivity|].
           intros sel [= <-]. split; [exact Hsel|]. intros _.
           now apply satisfies_all_app in Hsat.
      * split; [reflexivity|]. split; [auto|]. split; [reflexivity|]. discriminate.
      * split; [reflexivity|]. split; [auto|]. split; [|discriminate].
        apply satisfies_all_raises in Hsat. destruct Hsat as [msg ->]. right. eauto.
    + pose proof (_candidate_versions_members self request state
                    (match ResolutionState.constraints state !! PackageRequest.package request with
                     | Some cs => cs
                     | None => []
                     end ++ PackageRequest.constraints request)) as Hm.
      destruct (_candidate_versions self request state _) as [[|c cs]|e] eqn:Hcv;
        cbn [fst snd].
      * split; [reflexivity|]. split; [auto|]. split; [reflexivity|]. discriminate.
      * destruct Hm as [_ Hm].
        destruct (try_candidates_contract request
                    (match ResolutionState.constraints state !! PackageRequest.package request with
                     | Some cs => cs
                     | None => []
                     end ++ PackageRequest.constraints request)
                    (match ResolutionState.constraints state !! PackageRequest.package request with
                     | Some cs => cs
                     | None => []
                     end)
                    (c :: cs) (c :: cs) [] (ResolutionState.candidate_r state)
                    (ResolutionState.visiting state ∪ {[PackageRequest.package request]})
                    (ResolutionState.set_visiting
                       (fun v => v ∪ {[PackageRequest.package request]}) state))
          as (Hr & Hs & Ho).
        -- reflexivity.
        -- reflexivity.
        -- clear. set_solver.
        -- exact Hsel.
        -- intros c' Hc'. destruct (Hm c' Hc') as (Hoff & Hcomp & Hsat).
           split; [now rewrite compatible_selection|]. split; [exact Hsat|].
           exists request, c'. auto.
        -- assert (Hback : (ResolutionState.visiting state ∪ {[PackageRequest.package request]})
                           ∖ {[PackageRequest.package request]}
                           = ResolutionState.visiting state) by now apply add_remove.
           rewrite Hback in Ho. clear Hback.
           split; [exact Hr|]. split; [intros H; apply Hs; now apply sound_state_visiting|].
           destruct (fst (try_candidates _ _ _ _ _ _ _ _ _)) as [sel|e|]; cbn [outcome_ok].
           ++ destruct Ho as (Hv & Ha & Hsat). split; [exact Hv|].
              intros sel' [= <-]. split; [exact Ha|]. intros _.
              now apply satisfies_all_app in Hsat.
           ++ split; [exact Ho|discriminate].
           ++ split; [exact I|discriminate].
      * apply _candidate_versions_raises in Hcv.
        split; [reflexivity|]. split; [auto|]. split; [|discriminate].
        destruct e as [error|msg|msg|msg|key]; cbn [outcome_ok]; [reflexivity|..]; exact Hcv.
Qed.
End Contract.

Lemma _resolve_package_contract (fuel : nat) (self : EnvironmentSolver.t) :
  resolve_contract self (_resolve_package fuel self).
Proof.
  induction fuel as [|fuel IH].
  - intros request state. cbn. split; [reflexivity|]. split; [auto|]. split; [exact I|].
    discriminate.
  - cbn [_resolve_package].
    apply resolve_package_body_contract; [apply _resolve_package_keeps|exact IH].
Qed.

(** X20. How [_resolve_package] ends. When it returns a selection or
    raises a [ResolutionError], the set of packages under resolution is
    what it was at the call; the selection returned is the one assigned
    to the package, and unless the package was under resolution already
    (a dependency cycle, where the constraints of the request are not
    looked at) it satisfies the constraints of the request. Any other
    exception was raised by the provider or is the [ValueError] of an
    unknown operator: removing the package from the set and deleting its
    assignment never fail. The candidate R is never changed. *)
Theorem _resolve_package_outcome (fuel : nat) (self : EnvironmentSolver.t)
    (request : PackageRequest.t) (state : ResolutionState.t) :
  ResolutionState.candidate_r (snd (_resolve_package fuel self request state))
  = ResolutionState.candidate_r state
  /\ match fst (_resolve_package fuel self request state) with
     | Return selection =>
         ResolutionState.visiting (snd (_resolve_package fuel self request state))
         = ResolutionState.visiting state
         /\ ResolutionState.assignments (snd (_resolve_package fuel self request state))
            !! PackageRequest.package request = Some selection
         /\ (PackageRequest.package request ∉ ResolutionState.visiting state ->
             satisfies_all (PackageSelection.version selection)
               (PackageRequest.constraints request) = Ok true)
     | Throw (ResolutionErr _) =>
         ResolutionState.visiting (snd (_resolve_package fuel self request state))
         = ResolutionState.visiting state
     | Throw e => provider_raises self e \/ exists msg, e = ValueError msg
     | OutOfFuel => True
     end.
Proof.
  destruct (_resolve_package_contract fuel self request state) as (Hr & _ & Ho & Hsel).
  split; [exact Hr|].
  destruct (fst (_resolve_package fuel self request state)) as [selection|e|];
    cbn [outcome_ok] in *; [|exact Ho|exact I].
  split; [exact Ho|]. now apply Hsel.
Qed.

Lemma solve_targets_sound (fuel : nat) (self : EnvironmentSolver.t)
    (targets : list TargetContext.t) (state : ResolutionState.t) :
  sound_state self state -> ResolutionState.visiting state = ∅ ->
  match fst (solve_targets fuel self targets state) with
  | Return _ =>
      sound_state self (snd (solve_targets fuel self targets state))
      /\ ResolutionState.candidate_r (snd (solve_targets fuel self targets state))
         = ResolutionState.candidate_r state
      /\ ResolutionState.assignments state
         ⊆ ResolutionState.assignments (snd (solve_targets fuel self targets state))
      /\ forall target, In target targets ->
           exists selection,
             ResolutionState.assignments (snd (solve_targets fuel self targets state))
             !! TargetContext.package target = Some selection
             /\ satisfies_all (PackageSelection.version selection)
                  (TargetContext.constraints target) = Ok true
  | Throw e =>
      (exists error, e = ResolutionErr error) \/ provider_raises self e
      \/ exists msg, e = ValueError msg
  | OutOfFuel => True
  end.
Proof.
  revert state. induction targets as [|target rest IH]; intros state Hs Hv.
  - cbn. split; [exact Hs|]. split; [reflexivity|]. split; [reflexivity|]. intros t [].
  - cbn [solve_targets].
    destruct (_resolve_package_contract fuel self (request_of_target target) state)
      as (Hr & Hsound & Ho & Hsel).
    pose proof (_resolve_package_keeps fuel self (request_of_target target) state) as Hk.
    destruct (_resolve_package fuel self (request_of_target target) state)
      as [[selection|e|] state']; cbn [fst snd outcome_ok] in *.
    + destruct (Hsel selection eq_refl) as [Ha Hsat].
      specialize (IH state' (Hsound Hs)). rewrite Ho, Hv in IH. specialize (IH eq_refl).
      destruct (fst (solve_targets fuel self rest state')); [|exact IH|exact I].
      destruct IH as (Hs' & Hr' & Hk' & Ht). split; [exact Hs'|].
      split; [congruence|]. split; [etransitivity; eassumption|].
      intros t [<-|Hin]; [|now apply Ht].
      exists selection. split.
      * eapply lookup_weaken; [exact Ha|exact Hk'].
      * apply Hsat. rewrite Hv. apply not_elem_of_empty.
    + destruct e as [error|msg|msg|msg|key]; [left; eauto|right; exact Ho..].
    + exact I.
Qed.

(** X21. A plan that [solve] returns is sound: it is for the candidate R
    given; every target has a selection in it whose version satisfies
    the constraints of the target; and every selection of the plan is
    made from a version that a source has on offer and whose [r_min], if
    any, is not above the candidate R. An exception of [solve] is a
    [ResolutionError], an exception of the provider, or the
    [ValueError] of an unknown operator. *)
Theorem solve_sound (fuel : nat) (self : EnvironmentSolver.t)
    (targets : list TargetContext.t) (candidate_r : string) :
  match solve fuel self targets candidate_r with
  | Return plan =>
      ResolutionPlan.r_version plan = candidate_r
      /\ (forall target, In target targets ->
            exists selection,
              ResolutionPlan.selections plan !! TargetContext.package target = Some selection
              /\ satisfies_all (PackageSelection.version selection)
                   (TargetContext.constraints target) = Ok true)
      /\ (forall package selection,
            ResolutionPlan.selections plan !! package = Some selection ->
            selection_compatible candidate_r selection = true
            /\ exists request v, offered self request v /\ selection = selection_of v)
  | Throw e =>
      (exists error, e = ResolutionErr error) \/ provider_raises self e
      \/ exists msg, e = ValueError msg
  | OutOfFuel => True
  end.
Proof.
  unfold solve.
  assert (Hinit : sound_state self (initial_state self candidate_r)).
  { intros package selection. cbn. rewrite lookup_empty. discriminate. }
  pose proof (solve_targets_sound fuel self targets (initial_state self candidate_r)
                Hinit eq_refl) as H.
  destruct (solve_targets fuel self targets (initial_state self candidate_r))
    as [[u|e|] state]; cbn [fst snd] in *; [|exact H|exact I].
  destruct H as (Hs & Hr & _ & Ht). cbn [ResolutionPlan.r_version ResolutionPlan.selections].
  split; [reflexivity|]. split; [exact Ht|].
  intros package selection Hsel. destruct (Hs package selection Hsel) as (Hc & _ & Hoff).
  rewrite Hr in Hc. cbn in Hc. auto.
Qed.

(** ** The depth of the recursion *)

Lemma size_visiting_add (universe visiting : gset string) (package : string) :
  package ∈ universe -> package ∉ visiting ->
  size (universe ∖ (visiting ∪ {[package]})) < size (universe ∖ visiting).
Proof.
  intros Hu Hv. apply subset_size. split.
  - intros x. rewrite !elem_of_difference, elem_of_union. intros [Hx Hn].
    split; [exact Hx|]. intros Hx'. apply Hn. now left.
  - intros Hsub. specialize (Hsub package).
    rewrite !elem_of_difference, elem_of_union, elem_of_singleton in Hsub.
    destruct Hsub as [_ Hn]; [split; assumption|]. apply Hn. now right.
Qed.

Lemma keeps_of_contract (fuel : nat) (self : EnvironmentSolver.t) :
  keeps_assignments (_resolve_package fuel self).
Proof. apply _resolve_package_keeps. Qed.

Section Depth.
Variable self : EnvironmentSolver.t.
Variable universe : gset string.
Variable rp :
  PackageRequest.t -> ResolutionState.t -> outcome PackageSelection.t * ResolutionState.t.
Variable depth : nat.
Hypothesis rp_keeps : keeps_assignments rp.
Hypothesis rp_contract : resolve_contract self rp.
Hypothesis rp_answers :
  forall request state,
    PackageRequest.package request ∈ universe ->
    size (universe ∖ ResolutionState.visiting state) < depth ->
    fst (rp request state) <> OutOfFuel.

Lemma resolve_dependency_list_answers (dependencies : list Dependency.t)
    (selection : PackageSelection.t) (request : PackageRequest.t) (state : ResolutionState.t) :
  (forall dep, In dep dependencies -> Dependency.name dep ∈ universe) ->
  size (universe ∖ ResolutionState.visiting state) < depth ->
  fst (resolve_dependency_list self rp dependencies selection request state) <> OutOfFuel.
Proof.
  revert state. induction dependencies as [|d ds IH]; intros state Hin Hsize.
  - discriminate.
  - cbn [resolve_dependency_list].
    destruct (Dependency.optional d && negb (ResolutionState.include_optional state));
      [apply IH; auto; intros dep Hd; apply Hin; now right|].
    pose proof (rp_answers (child_request self selection request d) state) as Ha.
    destruct (rp_contract (child_request self selection request d) state) as (_ & _ & Ho & _).
    destruct (rp (child_request self selection request d) state) as [[sel|e|] st'];
      cbn [fst snd outcome_ok] in *.
    + apply IH; [intros dep Hd; apply Hin; now right|]. now rewrite Ho.
    + discriminate.
    + intros _. exact (Ha (Hin d (or_introl eq_refl)) Hsize eq_refl).
Qed.

Lemma try_candidates_answers (request : PackageRequest.t)
    (aggregated previous : list VersionConstraint.t)
    (all_candidates candidates : list PackageVersion.t) (failures : list ResolutionError.t)
    (state : ResolutionState.t) :
  (forall c dep, In c candidates -> In dep (PackageVersion.dependencies c) ->
     Dependency.name dep ∈ universe) ->
  size (universe ∖ ResolutionState.visiting state) < depth ->
  fst (try_candidates self rp request aggregated previous all_candidates candidates failures
         state) <> OutOfFuel.
Proof.
  revert failures state. induction candidates as [|c cs IH]; intros failures state Hin Hsize.
  - cbn [try_candidates]. unfold exhausted.
    destruct (visiting_remove _ state); [destruct previous|]; discriminate.
  - cbn [try_candidates]. unfold resolve_dependencies_with.
    set (state1 :=
           ResolutionState.set_constraints (insert (PackageRequest.package request) aggregated)
             (ResolutionState.set_assignments
                (insert (PackageRequest.package request) (selection_of c)) state)).
    pose proof (resolve_dependency_list_answers
                  (PackageSelection.dependencies (selection_of c)) (selection_of c) request
                  state1) as Ha.
    destruct (resolve_dependency_list_contract self rp rp_contract
                (PackageSelection.dependencies (selection_of c)) (selection_of c) request
                state1) as (_ & _ & Ho).
    destruct (resolve_dependency_list self rp
                (PackageSelection.dependencies (selection_of c)) (selection_of c) request
                state1) as [[u|e|] st']; cbn [fst snd outcome_ok] in *.
    + destruct (visiting_remove _ st'); discriminate.
    + destruct e as [error|msg|msg|msg|key]; try discriminate.
      destruct (assignments_del _ st') as [st''|e] eqn:Hdel; [|discriminate].
      apply IH; [intros c' dep Hc'; apply Hin; now right|].
      unfold assignments_del in Hdel.
      destruct (ResolutionState.assignments st' !! _); [|discriminate].
      injection Hdel as <-. cbn. now rewrite Ho.
    + intros _. apply Ha; [intros dep Hd; apply (Hin c); [now left|exact Hd]|exact Hsize|].
      reflexivity.
Qed.

Hypothesis closed : closed_under_dependencies self universe.

Lemma resolve_package_body_answers (request : PackageRequest.t) (state : ResolutionState.t) :
  PackageRequest.package request ∈ universe ->
  size (universe ∖ ResolutionState.visiting state) < S depth ->
  fst (resolve_package_body self rp request state) <> OutOfFuel.
Proof.
  intros Hu Hsize. unfold resolve_package_body.
  case_bool_decide as Hvis.
  - destruct (ResolutionState.assignments state !! _); discriminate.
  - destruct (ResolutionState.assignments state !! _) as [existing|].
    + destruct (satisfies_all _ _) as [[|]|e]; try discriminate.
      match goal with |- context [if ?b then _ else _] => destruct b end; discriminate.
    + pose proof (_candidate_versions_members self request state
                    (match ResolutionState.constraints state !! PackageRequest.package request with
                     | Some cs => cs
                     | None => []
                     end ++ PackageRequest.constraints request)) as Hm.
      destruct (_candidate_versions self request state _) as [[|c cs]|e]; try discriminate.
      destruct Hm as [_ Hm]. apply try_candidates_answers.
      * intros c' dep Hc' Hdep. destruct (Hm c' Hc') as (Hoff & _).
        eapply closed; eauto.
      * cbn. pose proof (size_visiting_add universe (ResolutionState.visiting state)
                           (PackageRequest.package request) Hu Hvis). lia.
Qed.
End Depth.

Lemma _resolve_package_answers (self : EnvironmentSolver.t) (universe : gset string)
    (fuel : nat) (request : PackageRequest.t) (state : ResolutionState.t) :
  closed_under_dependencies self universe ->
  PackageRequest.package request ∈ universe ->
  size (universe ∖ ResolutionState.visiting state) < fuel ->
  fst (_resolve_package fuel self request state) <> OutOfFuel.
Proof.
  intros Hclosed. revert request state.
  induction fuel as [|fuel IH]; intros request state Hu Hsize; [lia|].
  cbn [_resolve_package].
  apply (resolve_package_body_answers self universe (_resolve_package fuel self) fuel);
    auto using _resolve_package_keeps, _resolve_package_contract.
Qed.

Lemma solve_targets_answers (self : EnvironmentSolver.t) (universe : gset string)
    (fuel : nat) (targets : list TargetContext.t) (state : ResolutionState.t) :
  closed_under_dependencies self universe ->
  (forall target, In target targets -> TargetContext.package target ∈ universe) ->
  size universe < fuel -> ResolutionState.visiting state = ∅ ->
  fst (solve_targets fuel self targets state) <> OutOfFuel.
Proof.
  intros Hclosed. revert state.
  induction targets as [|target rest IH]; intros state Hin Hsize Hv; [discriminate|].
  cbn [solve_targets].
  pose proof (_resolve_package_answers self universe fuel (request_of_target target) state
                Hclosed) as Ha.
  destruct (_resolve_package_contract fuel self (request_of_target target) state)
    as (_ & _ & Ho & _).
  destruct (_resolve_package fuel self (request_of_target target) state)
    as [[selection|e|] state']; cbn [fst snd outcome_ok] in *.
  - apply IH; [intros t Ht; apply Hin; now right|exact Hsize|]. now rewrite Ho.
  - discriminate.
  - intros _. apply Ha; [apply (Hin target); now left| |reflexivity].
    rewrite Hv. rewrite difference_empty_L. exact Hsize.
Qed.

(** X22. The recursion of the resolver is bounded by the number of
    packages: when the names of a set contain the package asked for and
    whatever a version on offer depends on, [_resolve_package] answers
    (with a selection or an exception) within a depth of one more than
    the names not yet under resolution, and [solve] within one more than
    the size of the set. Dependency cycles cannot make it run on. *)
Theorem resolution_depth_bounded (self : EnvironmentSolver.t) (universe : gset string)
    (closed : closed_under_dependencies self universe) :
  (forall fuel request state,
      PackageRequest.package request ∈ universe ->
      size (universe ∖ ResolutionState.visiting state) < fuel ->
      fst (_resolve_package fuel self request state) <> OutOfFuel)
  /\ (forall fuel targets candidate_r,
        (forall target, In target targets -> TargetContext.package target ∈ universe) ->
        size universe < fuel ->
        solve fuel self targets candidate_r <> OutOfFuel).
Proof.
  split.
  - intros fuel request state. now apply _resolve_package_answers.
  - intros fuel targets candidate_r Hin Hsize. unfold solve.
    pose proof (solve_targets_answers self universe fuel targets
                  (initial_state self candidate_r) closed Hin Hsize eq_refl) as H.
    destruct (solve_targets fuel self targets (initial_state self candidate_r))
      as [[u|e|] state]; cbn [fst] in H; congruence.
Qed.

Lemma table_lookup_In {V : Type} (key : string) (table : list (string * V)) (v : V) :
  table_lookup key table = Some v -> exists key', In (key', v) table.
Proof.
  unfold table_lookup. destruct (List.find _ table) as [[k v']|] eqn:Hf; [|discriminate].
  intros [= <-]. apply List.find_some in Hf. destruct Hf as [Hf _]. eauto.
Qed.

(** What a provider built from tables has on offer is in its tables. *)
Lemma preloaded_offered (cran : list (string * list PackageVersion.t))
    (bioc : list (string * list (string * PackageVersion.t)))
    (include_optional : bool) (prefer : option string) (request : PackageRequest.t)
    (v : PackageVersion.t) :
  offered (EnvironmentSolver.mk (preloaded cran bioc) include_optional prefer) request v ->
  (exists package versions, In (package, versions) cran /\ In v versions)
  \/ (exists release packages package,
        In (release, packages) bioc /\ In (package, v) packages).
Proof.
  intros (source & versions & _ & Hload & Hv).
  unfold _load_versions_for_source, preloaded in Hload. cbn [EnvironmentSolver.metadata] in Hload.
  repeat match type of Hload with
         | (if ?b then _ else _) = _ => destruct b
         | match ?o with Some _ => _ | None => _ end = _ =>
             let E := fresh "E" in destruct o eqn:E
         end; try discriminate; injection Hload as <-.
  all: repeat match goal with
         | E : table_lookup _ _ = Some _ |- _ => apply table_lookup_In in E; destruct E
         end.
  all: try (left; eauto; fail).
  all: try (right; destruct Hv as [<-|[]]; eauto; fail).
Qed.

Lemma cycle_closed : closed_under_dependencies cycle_solver_default {["A"; "B"]}.
Proof.
  intros request v dep Hoff Hdep. apply preloaded_offered in Hoff.
  destruct Hoff as [(package & versions & Hin & Hv)|(release & packages & package & [] & _)].
  simpl in Hin.
  destruct Hin as [[= <- <-]|[[= <- <-]|[]]]; simpl in Hv;
    repeat (destruct Hv as [<-|Hv];
            [simpl in Hdep; destruct Hdep as [<-|[]];
             rewrite elem_of_union, !elem_of_singleton; auto|]);
    destruct Hv.
Qed.

Lemma resolution_depth_bounded_witness :
  (forall fuel request state,
      PackageRequest.package request ∈ ({["A"; "B"]} : gset string) ->
      size (({["A"; "B"]} : gset string) ∖ ResolutionState.visiting state) < fuel ->
      fst (_resolve_package fuel cycle_solver_default request state) <> OutOfFuel)
  /\ (forall fuel targets candidate_r,
        (forall target, In target targets ->
           TargetContext.package target ∈ ({["A"; "B"]} : gset string)) ->
        size ({["A"; "B"]} : gset string) < fuel ->
        solve fuel cycle_solver_default targets candidate_r <> OutOfFuel).
Proof. exact (resolution_depth_bounded cycle_solver_default {["A"; "B"]} cycle_closed). Defined.

(** ** The attempts of compute_resolution *)

Lemma try_r_versions_first (fuel : nat) (solver : EnvironmentSolver.t)
    (targets : list TargetContext.t) (release_requirements : list (string * string))
    (candidates : list RVersion) :
  try_r_versions fuel solver targets release_requirements candidates []
  = match first_compatible release_requirements candidates with
    | Some c => first_attempt (solve fuel solver targets (raw c))
    | None => Return (None, [])
    end.
Proof.
  unfold first_compatible.
  induction candidates as [|c cs IH]; [reflexivity|]. cbn [try_r_versions List.find].
  destruct (incompatible release_requirements (raw c)); cbn [negb]; [exact IH|].
  destruct (solve fuel solver targets (raw c)) as [plan|e|]; [reflexivity| |reflexivity].
  destruct e; reflexivity.
Qed.

Lemma solve_r_version (fuel : nat) (self : EnvironmentSolver.t)
    (targets : list TargetContext.t) (candidate_r : string) (plan : ResolutionPlan.t) :
  solve fuel self targets candidate_r = Return plan ->
  ResolutionPlan.r_version plan = candidate_r.
Proof.
  unfold solve. destruct (solve_targets _ _ _ _) as [[u|e|] state]; try discriminate.
  now intros [= <-].
Qed.

Lemma first_attempt_Return (o : outcome ResolutionPlan.t) (result : option ResolutionPlan.t)
    (conflicts : list Conflict.t) :
  first_attempt o = Return (result, conflicts) ->
  conflicts = [] /\ exists plan, result = Some plan /\ o = Return plan.
Proof.
  destruct o as [plan|e|]; [|destruct e; discriminate|discriminate].
  intros [= <- <-]. eauto.
Qed.

Lemma compute_resolution_attempt (set_order : list RVersion -> list RVersion)
    (fuel : nat) (metadata : provider) (targets : list TargetContext.t)
    (include_optional : bool) (prefer : option string) (locked_r : option string) :
  compute_resolution set_order fuel metadata targets include_optional prefer locked_r
  = (if truthy locked_r
     then first_attempt
            (solve fuel (EnvironmentSolver.mk metadata include_optional prefer)
               (snd (_bioc_release_requirements targets
                       (py_or prefer MetadataProvider.latest_bioconductor_release)))
               (default "" locked_r))
     else match first_compatible
                  (fst (_bioc_release_requirements targets
                          (py_or prefer MetadataProvider.latest_bioconductor_release)))
                  (candidate_r_versions set_order
                     (fst (_bioc_release_requirements targets
                             (py_or prefer MetadataProvider.latest_bioconductor_release)))) with
          | Some c =>
              first_attempt
                (solve fuel (EnvironmentSolver.mk metadata include_optional prefer)
                   (snd (_bioc_release_requirements targets
                           (py_or prefer MetadataProvider.latest_bioconductor_release)))
                   (raw c))
          | None => Return (None, [])
          end).
Proof.
  unfold compute_resolution.
  destruct (_bioc_release_requirements targets _) as [reqs cloned]. cbn [fst snd].
  destruct locked_r as [r|]; [|apply try_r_versions_first].
  destruct (truthy (Some r)); [|apply try_r_versions_first].
  change (default "" (Some r)) with r.
  destruct (solve _ _ cloned r) as [plan|e|]; [reflexivity| |reflexivity].
  destruct e; reflexivity.
Qed.

Lemma compute_resolution_Return (set_order : list RVersion -> list RVersion)
    (fuel : nat) (metadata : provider) (targets : list TargetContext.t)
    (include_optional : bool) (prefer : option string) (locked_r : option string)
    (result : option ResolutionPlan.t) (conflicts : list Conflict.t) :
  compute_resolution set_order fuel metadata targets include_optional prefer locked_r
  = Return (result, conflicts) ->
  conflicts = []
  /\ forall plan, result = Some plan ->
       if truthy locked_r then locked_r = Some (ResolutionPlan.r_version plan)
       else incompatible
              (fst (_bioc_release_requirements targets
                      (py_or prefer MetadataProvider.latest_bioconductor_release)))
              (ResolutionPlan.r_version plan) = false.
Proof.
  rewrite compute_resolution_attempt.
  destruct (truthy locked_r) eqn:Hlocked.
  - intros H. apply first_attempt_Return in H. destruct H as (-> & plan & -> & Hsolve).
    split; [reflexivity|]. intros plan' [= <-]. apply solve_r_version in Hsolve.
    destruct locked_r as [r|]; [|discriminate]. cbn in Hsolve. now rewrite Hsolve.
  - destruct (first_compatible _ _) as [c|] eqn:Hfirst.
    + intros H. apply first_attempt_Return in H. destruct H as (-> & plan & -> & Hsolve).
      split; [reflexivity|]. intros plan' [= <-]. apply solve_r_version in Hsolve.
      rewrite Hsolve. unfold first_compatible in Hfirst. apply List.find_some in Hfirst.
      destruct Hfirst as [_ Hc]. now apply negb_true_iff in Hc.
    + intros [= <- <-]. split; [reflexivity|]. discriminate.
Qed.

(** X23. [compute_resolution] makes one attempt. With a locked R it
    solves for that version; without, for the first candidate R that no
    Bioconductor requirement rules out, and it returns no plan when
    every candidate is ruled out. A plan found is returned with no
    conflicts; a [ResolutionError] of the attempt ends the call with the
    [TypeError] of the [Conflict] it fails to build, so no further
    candidate is tried and no conflict is ever returned. A plan returned
    is for the locked R, or for an R that is below no requirement. *)
Theorem compute_resolution_single_attempt (set_order : list RVersion -> list RVersion)
    (fuel : nat) (metadata : provider) (targets : list TargetContext.t)
    (include_optional : bool) (prefer : option string) (locked_r : option string) :
  let solver := EnvironmentSolver.mk metadata include_optional prefer in
  let requirements :=
    _bioc_release_requirements targets
      (py_or prefer MetadataProvider.latest_bioconductor_release) in
  compute_resolution set_order fuel metadata targets include_optional prefer locked_r
  = (if truthy locked_r
     then first_attempt (solve fuel solver (snd requirements) (default "" locked_r))
     else match first_compatible (fst requirements)
                  (candidate_r_versions set_order (fst requirements)) with
          | Some c => first_attempt (solve fuel solver (snd requirements) (raw c))
          | None => Return (None, [])
          end)
  /\ forall result conflicts,
       compute_resolution set_order fuel metadata targets include_optional prefer locked_r
       = Return (result, conflicts) ->
       conflicts = []
       /\ forall plan, result = Some plan ->
            if truthy locked_r then locked_r = Some (ResolutionPlan.r_version plan)
            else incompatible (fst requirements) (ResolutionPlan.r_version plan) = false.
Proof.
  intros solver requirements. split.
  - apply compute_resolution_attempt.
  - intros result conflicts. apply compute_resolution_Return.
Qed.

(** ** The requirements of Bioconductor releases *)

Lemma _bioc_release_requirements_step (target : TargetContext.t)
    (rest : list TargetContext.t) (default_release : option string)
    (requirements : list (string * string)) :
  _bioc_release_requirements_loop (target :: rest) default_release requirements
  = (fst (_bioc_release_requirements_loop rest default_release
            match required_of default_release target with
            | Some (release, r) => dict_set release r requirements
            | None => requirements
            end),
     with_release default_release target
     :: snd (_bioc_release_requirements_loop rest default_release
               match required_of default_release target with
               | Some (release, r) => dict_set release r requirements
               | None => requirements
               end)).
Proof.
  cbn [_bioc_release_requirements_loop].
  unfold with_release, required_of, is_bioc_source, effective_release.
  destruct (String.eqb (TargetContext.source target) "bioc"
            || String.eqb (TargetContext.source target) "bioconductor"); cbn [negb].
  - destruct (py_or (TargetContext.bioc_release target)
                (py_or default_release MetadataProvider.latest_bioconductor_release))
      as [release|]; [|now destruct (_bioc_release_requirements_loop _ _ _)].
    destruct release as [|c release]; cbn [truthy Str.is_empty negb orb];
      [destruct (MetadataProvider.bioconductor_r_version "");
       now destruct (_bioc_release_requirements_loop _ _ _)|].
    destruct (MetadataProvider.bioconductor_r_version (String c release)) as [r|];
      [|now destruct (_bioc_release_requirements_loop _ _ _)].
    destruct r as [|d r]; cbn [truthy Str.is_empty negb];
      now destruct (_bioc_release_requirements_loop _ _ _).
  - now destruct (_bioc_release_requirements_loop _ _ _).
Qed.

Lemma dict_set_In (key value : string) (d : list (string * string)) (k v : string) :
  In (k, v) (dict_set key value d) -> (k = key /\ v = value) \/ In (k, v) d.
Proof.
  induction d as [|[k' v'] d IH]; cbn [dict_set].
  - intros [[= -> ->]|[]]. auto.
  - destruct (String.eqb_spec k' key) as [->|Hne].
    + intros [[= -> ->]|H]; [auto|]. right. now right.
    + intros [H|H]; [right; now left|]. destruct (IH H) as [?|?]; [auto|]. right. now right.
Qed.

Lemma dict_set_key (key value : string) (d : list (string * string)) :
  In (key, value) (dict_set key value d).
Proof.
  induction d as [|[k' v'] d IH]; cbn [dict_set]; [now left|].
  destruct (String.eqb_spec k' key) as [->|Hne]; [now left|now right].
Qed.

Lemma dict_set_other (key value : string) (d : list (string * string)) (k v : string) :
  In (k, v) d -> k <> key \/ v = value -> In (k, v) (dict_set key value d).
Proof.
  induction d as [|[k' v'] d IH]; cbn [dict_set]; [intros []|].
  destruct (String.eqb_spec k' key) as [->|Hne].
  - intros [[= -> ->]|H] Hk; [|now right]. destruct Hk as [Hk| ->]; [congruence|now left].
  - intros [H|H] Hk; [now left|]. right. now apply IH.
Qed.

Lemma required_of_table (default_release : option string) (target : TargetContext.t)
    (release r : string) :
  required_of default_release target = Some (release, r) ->
  MetadataProvider.bioconductor_r_version release = Some r.
Proof.
  unfold required_of. destruct (is_bioc_source target); [|discriminate].
  destruct (effective_release default_release target) as [rel|]; [|discriminate].
  destruct (MetadataProvider.bioconductor_r_version rel) as [r'|] eqn:E; [|discriminate].
  destruct (Str.is_empty rel || Str.is_empty r'); [discriminate|].
  now intros [= <- <-].
Qed.

Lemma _bioc_release_requirements_loop_spec (targets : list TargetContext.t)
    (default_release : option string) (requirements : list (string * string)) :
  (forall release r, In (release, r) requirements ->
     MetadataProvider.bioconductor_r_version release = Some r) ->
  snd (_bioc_release_requirements_loop targets default_release requirements)
  = List.map (with_release default_release) targets
  /\ forall release r,
       In (release, r) (fst (_bioc_release_requirements_loop targets default_release
                               requirements))
       <-> In (release, r) requirements
           \/ exists target, In target targets
                             /\ required_of default_release target = Some (release, r).
Proof.
  revert requirements. induction targets as [|target rest IH]; intros requirements Htable.
  - cbn. split; [reflexivity|]. intros release r. split; [auto|].
    intros [H|(t & [] & _)]. exact H.
  - rewrite _bioc_release_requirements_step. cbn [fst snd List.map].
    destruct (required_of default_release target) as [[rel req]|] eqn:Hreq.
    + pose proof (required_of_table _ _ _ _ Hreq) as Hrel.
      destruct (IH (dict_set rel req requirements)) as [Hc Hr].
      { intros release r H. apply dict_set_In in H. destruct H as [[-> ->]|H]; auto. }
      split; [now rewrite Hc|]. intros release r. rewrite Hr. split.
      * intros [H|(t & Ht & Hq)].
        -- apply dict_set_In in H. destruct H as [[-> ->]|H]; [|now left].
           right. exists target. split; [now left|exact Hreq].
        -- right. exists t. split; [now right|exact Hq].
      * intros [H|(t & [<-|Ht] & Hq)].
        -- left. apply dict_set_other; [exact H|].
           destruct (String.eqb_spec release rel) as [->|Hne]; [right|now left].
           apply Htable in H. congruence.
        -- left. rewrite Hreq in Hq. injection Hq as <- <-. apply dict_set_key.
        -- right. eauto.
    + destruct (IH requirements Htable) as [Hc Hr]. split; [now rewrite Hc|].
      intros release r. rewrite Hr. split.
      * intros [H|(t & Ht & Hq)]; [now left|]. right. exists t. split; [now right|exact Hq].
      * intros [H|(t & [<-|Ht] & Hq)]; [now left|congruence|]. right. eauto.
Qed.

(** X24. [_bioc_release_requirements] collects, for every Bioconductor
    target whose release (its own, else the default, else the latest)
    the table knows, that release with the R version of the table, and
    nothing else; the targets come back in their order, those with a
    requirement carrying the release, the others untouched. So a
    candidate R is ruled out exactly when it is below the R version of
    the release of some such target. *)
Theorem _bioc_release_requirements_collects (targets : list TargetContext.t)
    (default_release : option string) :
  snd (_bioc_release_requirements targets default_release)
  = List.map (with_release default_release) targets
  /\ (forall release r,
        In (release, r) (fst (_bioc_release_requirements targets default_release))
        <-> exists target, In target targets
                           /\ required_of default_release target = Some (release, r))
  /\ (forall release r,
        In (release, r) (fst (_bioc_release_requirements targets default_release)) ->
        MetadataProvider.bioconductor_r_version release = Some r /\ release <> "" /\ r <> "")
  /\ (forall candidate,
        incompatible (fst (_bioc_release_requirements targets default_release)) candidate
        = true
        <-> exists target release r,
              In target targets
              /\ required_of default_release target = Some (release, r)
              /\ (compare_versions candidate r < 0)%Z).
Proof.
  unfold _bioc_release_requirements.
  destruct (_bioc_release_requirements_loop_spec targets default_release [])
    as [Hc Hr]; [intros release r []|].
  assert (Hreqs : forall release r,
             In (release, r) (fst (_bioc_release_requirements_loop targets default_release []))
             <-> exists target, In target targets
                                /\ required_of default_release target = Some (release, r)).
  { intros release r. rewrite Hr. split; [intros [[]|H]; exact H|auto]. }
  split; [exact Hc|]. split; [exact Hreqs|]. split.
  - intros release r H. apply Hreqs in H. destruct H as (t & _ & Hq).
    split; [now apply required_of_table in Hq|].
    unfold required_of in Hq. destruct (is_bioc_source t); [|discriminate].
    destruct (effective_release default_release t) as [rel|]; [|discriminate].
    destruct (MetadataProvider.bioconductor_r_version rel) as [r'|]; [|discriminate].
    destruct rel, r'; try discriminate. injection Hq as <- <-. split; discriminate.
  - intros candidate. unfold incompatible. rewrite existsb_exists. split.
    + intros ([release r] & Hin & Hlt). apply Hreqs in Hin. destruct Hin as (t & Ht & Hq).
      exists t, release, r. split; [exact Ht|]. split; [exact Hq|]. now apply Z.ltb_lt.
    + intros (t & release & r & Ht & Hq & Hlt). exists (release, r). split.
      * apply Hreqs. eauto.
      * now apply Z.ltb_lt.
Qed.

(** X27. A report of [build_report] never holds a conflict, for the
    minimal search or the locked one. Its locked plan, if any, is for
    the locked R asked for, and there is one whenever a locked R was
    asked for; its minimal plan, if any, is for an R below no
    Bioconductor requirement. The minimal search comes first: when it
    raises, the call raises that exception and the locked search is not
    made. *)
Theorem build_report_no_conflicts (set_order : list RVersion -> list RVersion) (fuel : nat)
    (metadata : provider) (targets : list TargetContext.t) (include_optional : bool)
    (prefer : option string) (locked_r : option string) :
  match build_report set_order fuel metadata targets include_optional prefer locked_r with
  | Return report =>
      ResolutionReport.conflicts report = []
      /\ ResolutionReport.locked_conflicts report = []
      /\ ResolutionReport.r_version_locked report = locked_r
      /\ (if truthy locked_r
          then exists plan, ResolutionReport.locked_plan report = Some plan
                            /\ locked_r = Some (ResolutionPlan.r_version plan)
          else ResolutionReport.locked_plan report = None)
      /\ forall plan,
           ResolutionReport.minimal_plan report = Some plan ->
           incompatible
             (fst (_bioc_release_requirements targets
                     (py_or prefer MetadataProvider.latest_bioconductor_release)))
             (ResolutionPlan.r_version plan) = false
  | Throw e =>
      compute_resolution set_order fuel metadata targets include_optional prefer None = Throw e
      \/ (truthy locked_r = true
          /\ compute_resolution set_order fuel metadata targets include_optional prefer locked_r
             = Throw e)
  | OutOfFuel => True
  end
  /\ forall e,
       compute_resolution set_order fuel metadata targets include_optional prefer None = Throw e ->
       build_report set_order fuel metadata targets include_optional prefer locked_r = Throw e.
Proof.
  split; [|intros e H; unfold build_report; now rewrite H].
  unfold build_report.
  pose proof (compute_resolution_Return set_order fuel metadata targets include_optional prefer
                None) as Hmin.
  destruct (compute_resolution set_order fuel metadata targets include_optional prefer None)
    as [[minimal_plan minimal_conflicts]|e|]; [|now left|exact I].
  destruct (Hmin _ _ eq_refl) as [-> Hplan]. cbn [truthy] in Hplan.
  pose proof (compute_resolution_Return set_order fuel metadata targets include_optional prefer
                locked_r) as Hlock.
  pose proof (compute_resolution_attempt set_order fuel metadata targets include_optional prefer
                locked_r) as Hatt.
  destruct (truthy locked_r) eqn:Hlocked.
  - destruct (compute_resolution set_order fuel metadata targets include_optional prefer
                locked_r) as [[locked_plan locked_conflicts]|e|]; [|now right|exact I].
    destruct (Hlock _ _ eq_refl) as [-> Hlplan].
    cbn [ResolutionReport.conflicts ResolutionReport.locked_conflicts
         ResolutionReport.r_version_locked ResolutionReport.locked_plan
         ResolutionReport.minimal_plan].
    split; [reflexivity|]. split; [reflexivity|]. split; [reflexivity|]. split; [|exact Hplan].
    symmetry in Hatt. apply first_attempt_Return in Hatt.
    destruct Hatt as (_ & plan & -> & _). exists plan. split; [reflexivity|]. now apply Hlplan.
  - cbn [ResolutionReport.conflicts ResolutionReport.locked_conflicts
         ResolutionReport.r_version_locked ResolutionReport.locked_plan
         ResolutionReport.minimal_plan].
    auto.
Qed.
(** ** Targets *)

Section TargetFacts.
Variable net :
  list fetch_call -> string -> string -> option string -> option string -> res GithubDescriptor.t.





End TargetFacts.


(** X26. [solve] does not hand the slug of a GitHub target on to its
    request, so the GitHub source is asked for the package name, which
    has no slash: a provider that refuses such names, as [get_versions]
    does, is never a source of candidates for the target. Its
    candidates all come from CRAN or Bioconductor under the name of the
    DESCRIPTION. *)
Theorem github_target_candidates (self : EnvironmentSolver.t) (target : TargetContext.t)
    (refuses : refuses_plain_github self)
    (from_github : TargetContext.source target = "github")
    (plain : no_slash (TargetContext.package target) = true) :
  PackageRequest.github_slug (request_of_target target) = None
  /\ source_order_of (request_of_target target) = ["github"; "cran"; "bioc"]
  /\ (exists msg,
        _load_versions_for_source self (request_of_target target) "github"
        = Raise (MetadataFetchError msg))
  /\ forall state constraints candidates v,
       _candidate_versions self (request_of_target target) state constraints = Ok candidates ->
       In v candidates ->
       exists source versions,
         (source = "cran" \/ source = "bioc")
         /\ _load_versions_for_source self (request_of_target target) source = Ok versions
         /\ In v versions.
Proof.
  assert (Hload : exists msg,
             _load_versions_for_source self (request_of_target target) "github"
             = Raise (MetadataFetchError msg)).
  { unfold _load_versions_for_source. cbn. apply refuses. exact plain. }
  assert (Horder : source_order_of (request_of_target target) = ["github"; "cran"; "bioc"]).
  { unfold source_order_of, request_of_target. cbn [PackageRequest.source].
    rewrite from_github. reflexivity. }
  split; [reflexivity|]. split; [exact Horder|]. split; [exact Hload|].
  intros state constraints candidates v Hc Hv.
  pose proof (_candidate_versions_members self (request_of_target target) state constraints)
    as Hm.
  rewrite Hc in Hm. destruct Hm as [_ Hm].
  destruct (Hm v Hv) as ((source & versions & Hsrc & Hl & Hin) & _).
  rewrite Horder in Hsrc. destruct Hsrc as [<-|[<-|[<-|[]]]].
  - destruct Hload as [msg Hload]. congruence.
  - exists "cran", versions. auto.
  - exists "bioc", versions. auto.
Qed.

Lemma orphan_refuses_plain_github : refuses_plain_github orphan_solver.
Proof. intros package release ref token _. cbn. eauto. Qed.

Lemma github_target_candidates_witness :
  PackageRequest.github_slug (request_of_target (github_target "P")) = None
  /\ source_order_of (request_of_target (github_target "P")) = ["github"; "cran"; "bioc"]
  /\ (exists msg,
        _load_versions_for_source orphan_solver (request_of_target (github_target "P")) "github"
        = Raise (MetadataFetchError msg))
  /\ forall state constraints candidates v,
       _candidate_versions orphan_solver (request_of_target (github_target "P")) state
         constraints = Ok candidates ->
       In v candidates ->
       exists source versions,
         (source = "cran" \/ source = "bioc")
         /\ _load_versions_for_source orphan_solver (request_of_target (github_target "P"))
              source = Ok versions
         /\ In v versions.
Proof.
  exact (github_target_candidates orphan_solver (github_target "P")
           orphan_refuses_plain_github eq_refl eq_refl).
Defined.

(** ** Fetching a Bioconductor release *)

Section DictFacts.
Context {V : Type}.

Lemma dict_get_put (key : string) (value : V) (d : list (string * V)) (k : string) :
  dict_get k (dict_put key value d)
  = if String.eqb key k then Some value else dict_get k d.
Proof.
  induction d as [|[k' v'] d IH]; cbn [dict_put dict_get].
  - reflexivity.
  - destruct (String.eqb_spec k' key) as [->|Hne]; cbn [dict_get].
    + destruct (String.eqb key k); reflexivity.
    + rewrite IH. destruct (String.eqb_spec k' k) as [->|Hk]; [|reflexivity].
      destruct (String.eqb_spec key k) as [->|_]; [congruence|reflexivity].
Qed.

Lemma dict_put_keys (key : string) (value : V) (d : list (string * V)) :
  (In key (List.map fst d) /\ List.map fst (dict_put key value d) = List.map fst d)
  \/ (~ In key (List.map fst d)
      /\ List.map fst (dict_put key value d) = List.map fst d ++ [key]).
Proof.
  induction d as [|[k' v'] d IH]; cbn [dict_put List.map fst].
  - right. split; [intros []|reflexivity].
  - destruct (String.eqb_spec k' key) as [->|Hne]; cbn [List.map fst].
    + left. split; [now left|reflexivity].
    + destruct IH as [[Hin E]|[Hnot E]].
      * left. split; [now right|]. now rewrite E.
      * right. split; [intros [H|H]; contradiction|]. now rewrite E.
Qed.

Lemma dict_put_NoDup (key : string) (value : V) (d : list (string * V)) :
  List.NoDup (List.map fst d) -> List.NoDup (List.map fst (dict_put key value d)).
Proof.
  intros Hd. destruct (dict_put_keys key value d) as [[_ ->]|[Hnot ->]]; [exact Hd|].
  apply List.NoDup_app; [exact Hd|repeat constructor; intros []|].
  intros a Ha [<-|[]]. contradiction.
Qed.

Lemma dict_put_nonempty (key : string) (value : V) (d : list (string * V)) :
  dict_put key value d <> [].
Proof.
  destruct d as [|[k v] d]; cbn [dict_put]; [discriminate|].
  destruct (String.eqb k key); discriminate.
Qed.

Lemma dict_get_app (k : string) (a b : list (string * V)) :
  dict_get k (a ++ b) = match dict_get k a with Some v => Some v | None => dict_get k b end.
Proof.
  induction a as [|[k' v'] a IH]; cbn [app dict_get]; [reflexivity|].
  destruct (String.eqb k' k); [reflexivity|exact IH].
Qed.

Lemma dict_get_In (k : string) (v : V) (d : list (string * V)) :
  List.NoDup (List.map fst d) -> (In (k, v) d <-> dict_get k d = Some v).
Proof.
  induction d as [|[k' v'] d IH]; cbn [List.map fst dict_get].
  - intros _. split; [intros []|discriminate].
  - intros Hd. apply List.NoDup_cons_iff in Hd. destruct Hd as [Hnot Hd].
    destruct (String.eqb_spec k' k) as [->|Hne].
    + split.
      * intros [[= ->]|H]; [reflexivity|]. exfalso. apply Hnot.
        apply in_map_iff. exists (k, v). auto.
      * intros [= ->]. now left.
    + rewrite <- (IH Hd). split; [intros [[= -> _]|H]; [congruence|exact H]|now right].
Qed.
End DictFacts.

Lemma add_category_get (category : string) (data aggregated : list (string * Payload.t))
    (name : string) :
  dict_get name (add_category category data aggregated)
  = match dict_get name (List.rev data) with
    | Some payload => Some (tag_category category payload)
    | None => dict_get name aggregated
    end.
Proof.
  unfold add_category. revert aggregated.
  induction data as [|[n p] data IH]; intros aggregated; [reflexivity|].
  cbn [List.fold_left List.rev]. rewrite IH, dict_get_app, dict_get_put.
  destruct (dict_get name (List.rev data)); [reflexivity|]. cbn [dict_get].
  destruct (String.eqb n name); reflexivity.
Qed.

Lemma add_category_NoDup (category : string) (data aggregated : list (string * Payload.t)) :
  List.NoDup (List.map fst aggregated) ->
  List.NoDup (List.map fst (add_category category data aggregated)).
Proof.
  unfold add_category. revert aggregated.
  induction data as [|[n p] data IH]; intros aggregated H; [exact H|].
  cbn [List.fold_left]. apply IH, dict_put_NoDup, H.
Qed.

Lemma add_category_empty (category : string) (data aggregated : list (string * Payload.t)) :
  add_category category data aggregated = [] <-> data = [] /\ aggregated = [].
Proof.
  unfold add_category. revert aggregated.
  induction data as [|[n p] data IH]; intros aggregated.
  - cbn. split; [auto|intros [_ H]; exact H].
  - cbn [List.fold_left]. rewrite IH. split.
    + intros [_ H]. now apply dict_put_nonempty in H.
    + intros [[=] _].
Qed.

Section FetchFacts.
Variable get : string -> Response.t (list (string * Payload.t)).

Lemma _request_json_raises {A : Type} (g : string -> Response.t A) (url : string) (e : exn) :
  _request_json g url = Raise e -> exists msg, e = MetadataFetchError msg.
Proof.
  unfold _request_json. destruct (400 <=? _)%N; [intros [= <-]; eauto|].
  destruct (Response.json (g url)); [discriminate|]. intros [= <-]. eauto.
Qed.

Lemma package_in_app (release name : string) (a b : list string) :
  package_in get release name (a ++ b)
  = match package_in get release name a with
    | Some payload => Some payload
    | None => package_in get release name b
    end.
Proof.
  induction a as [|c a IH]; cbn [app package_in]; [reflexivity|].
  destruct (listing get release c) as [data|]; [|exact IH].
  destruct (dict_get name (List.rev data)); [reflexivity|exact IH].
Qed.

Lemma fetch_categories_spec (release : string) (categories : list string)
    (aggregated : list (string * Payload.t)) :
  exists result,
    fetch_categories get release categories aggregated = Ok result
    /\ (List.NoDup (List.map fst aggregated) -> List.NoDup (List.map fst result))
    /\ (forall name,
          dict_get name result
          = match package_in get release name (List.rev categories) with
            | Some payload => Some payload
            | None => dict_get name aggregated
            end)
    /\ (result = []
        <-> aggregated = []
            /\ forall category, In category categories ->
                 listing get release category = None
                 \/ listing get release category = Some []).
Proof.
  revert aggregated. induction categories as [|c cs IH]; intros aggregated.
  - exists aggregated. cbn. split; [reflexivity|]. split; [auto|]. split; [reflexivity|].
    split; [intros ->; split; [reflexivity|intros ? []]|intros [H _]; exact H].
  - cbn [fetch_categories].
    pose proof (_request_json_raises get (category_url release c)) as Hr.
    assert (Hlist : listing get release c
                    = match _request_json get (category_url release c) with
                      | Ok data => Some data
                      | Raise _ => None
                      end) by reflexivity.
    destruct (_request_json get (category_url release c)) as [data|e].
    + destruct (IH (add_category c data aggregated)) as (result & E & Hnd & Hget & Hempty).
      exists result. split; [exact E|]. split; [auto using add_category_NoDup|]. split.
      * intros name. rewrite Hget, add_category_get. cbn [List.rev].
        rewrite package_in_app. cbn [package_in]. rewrite Hlist.
        destruct (package_in get release name (List.rev cs)); [reflexivity|].
        destruct (dict_get name (List.rev data)); reflexivity.
      * rewrite Hempty, add_category_empty. split.
        -- intros [[-> ->] Hall]. split; [reflexivity|].
           intros category [<-|Hin]; [right; exact Hlist|now apply Hall].
        -- intros [-> Hall]. split.
           ++ split; [|reflexivity]. destruct (Hall c (or_introl eq_refl)) as [H|H];
                rewrite Hlist in H; congruence.
           ++ intros category Hin. apply Hall. now right.
    + destruct (Hr e eq_refl) as [msg ->].
      destruct (IH aggregated) as (result & E & Hnd & Hget & Hempty).
      exists result. split; [exact E|]. split; [exact Hnd|]. split.
      * intros name. rewrite Hget. cbn [List.rev]. rewrite package_in_app.
        cbn [package_in]. rewrite Hlist.
        destruct (package_in get release name (List.rev cs)); reflexivity.
      * rewrite Hempty. split.
        -- intros [-> Hall]. split; [reflexivity|].
           intros category [<-|Hin]; [left; exact Hlist|now apply Hall].
        -- intros [-> Hall]. split; [reflexivity|]. intros category Hin. apply Hall. now right.
Qed.

Lemma package_in_category (release name : string) (categories : list string)
    (payload : Payload.t) :
  package_in get release name categories = Some payload ->
  exists category, In category categories
                   /\ Payload.get payload ".category" = Some category.
Proof.
  induction categories as [|c cs IH]; cbn [package_in]; [discriminate|].
  assert (Hrest : package_in get release name cs = Some payload ->
                  exists category, In category (c :: cs)
                                   /\ Payload.get payload ".category" = Some category).
  { intros H. destruct (IH H) as (category & Hin & Hc). exists category. split; [now right|auto]. }
  destruct (listing get release c) as [data|]; [|exact Hrest].
  destruct (dict_get name (List.rev data)) as [p|]; [|exact Hrest].
  intros [= <-]. exists c. split; [now left|].
  unfold Payload.get, tag_category. cbn [Payload.fields]. apply lookup_insert_eq.
Qed.
End FetchFacts.

(** X28. [fetch_bioconductor_release] asks for the four categories in
    order and passes over those whose request fails. It raises, a
    [MetadataFetchError], exactly when every category fails or lists
    nothing. Otherwise it returns each package once, with the payload of
    the last category that lists it and that category noted under
    [.category]: a package of several categories is reported under the
    last of them. *)
Theorem fetch_bioconductor_release_last_category
    (get : string -> Response.t (list (string * Payload.t))) (release : string) :
  match fetch_bioconductor_release get release with
  | Ok aggregated =>
      aggregated <> []
      /\ List.NoDup (List.map fst aggregated)
      /\ (forall name payload,
            In (name, payload) aggregated
            <-> package_in get release name (List.rev _BIOC_CATEGORIES) = Some payload)
      /\ forall name payload,
           In (name, payload) aggregated ->
           exists category, In category _BIOC_CATEGORIES
                            /\ Payload.get payload ".category" = Some category
  | Raise e =>
      e = MetadataFetchError ("No packages found for Bioconductor release " ++ release)%string
      /\ forall category, In category _BIOC_CATEGORIES ->
           listing get release category = None \/ listing get release category = Some []
  end.
Proof.
  unfold fetch_bioconductor_release.
  destruct (fetch_categories_spec get release _BIOC_CATEGORIES [])
    as (result & -> & Hnd & Hget & Hempty).
  specialize (Hnd (List.NoDup_nil _)).
  assert (Hin : forall name payload,
             In (name, payload) result
             <-> package_in get release name (List.rev _BIOC_CATEGORIES) = Some payload).
  { intros name payload. rewrite (dict_get_In name payload result Hnd), Hget.
    destruct (package_in get release name (List.rev _BIOC_CATEGORIES)); [reflexivity|].
    cbn [dict_get]. reflexivity. }
  destruct result as [|entry result].
  - split; [reflexivity|]. now apply Hempty.
  - split; [discriminate|]. split; [exact Hnd|]. split; [exact Hin|].
    intros name payload H. apply Hin in H.
    apply package_in_category in H. destruct H as (category & Hc & Hp).
    exists category. split; [|exact Hp]. apply in_rev. exact Hc.
Qed.

(** A package that two categories list: it is reported once, with the
    payload and under the name of the later category. *)
Example limma_reported_under_workflows :
  fetch_bioconductor_release two_categories "3.19"
  = Ok [("limma", tag_category "workflows" (payload_with SecAbsent (SecStr "methods")))].
Proof. vm_compute. reflexivity. Qed.

(** ** The option include_optional *)

Section IncludeOptional.
Variable metadata : provider.
Variable prefer : option string.
Variable b : bool.

Local Abbreviation self1 := (EnvironmentSolver.mk metadata b prefer).
Local Abbreviation self0 := (EnvironmentSolver.mk metadata false prefer).

Lemma collect_sources_flag (request : PackageRequest.t) (candidate_r : string)
    (constraints : list VersionConstraint.t) (sources : list string)
    (seen : list (string * string)) (results : list PackageVersion.t) :
  collect_sources self1 request candidate_r constraints sources seen results
  = collect_sources self0 request candidate_r constraints sources seen results.
Proof.
  revert seen results. induction sources as [|source rest IH]; intros seen results;
    [reflexivity|].
  cbn [collect_sources].
  change (_load_versions_for_source self1 request source)
    with (_load_versions_for_source self0 request source).
  destruct (_load_versions_for_source self0 request source) as [versions|e].
  - destruct (collect_versions candidate_r constraints versions seen results)
      as [[seen' results']|e]; [apply IH|reflexivity].
  - destruct e; try reflexivity. apply IH.
Qed.

Lemma _candidate_versions_flag (request : PackageRequest.t) (state : ResolutionState.t)
    (constraints : list VersionConstraint.t) :
  _candidate_versions self1 request (set_include_optional b state) constraints
  = _candidate_versions self0 request state constraints.
Proof.
  unfold _candidate_versions. cbn [set_include_optional ResolutionState.candidate_r].
  now rewrite collect_sources_flag.
Qed.

Variable rp1 rp0 :
  PackageRequest.t -> ResolutionState.t -> outcome PackageSelection.t * ResolutionState.t.
Hypothesis related :
  forall request state,
    ResolutionState.include_optional state = false ->
    rp1 request (set_include_optional b state)
    = (fst (rp0 request state), set_include_optional b (snd (rp0 request state)))
    /\ ResolutionState.include_optional (snd (rp0 request state)) = false.

Lemma resolve_dependency_list_flag (dependencies : list Dependency.t)
    (selection : PackageSelection.t) (request : PackageRequest.t) (state : ResolutionState.t) :
  (forall dep, In dep dependencies -> Dependency.optional dep = false) ->
  ResolutionState.include_optional state = false ->
  resolve_dependency_list self1 rp1 dependencies selection request
    (set_include_optional b state)
  = (fst (resolve_dependency_list self0 rp0 dependencies selection request state),
     set_include_optional b
       (snd (resolve_dependency_list self0 rp0 dependencies selection request state)))
  /\ ResolutionState.include_optional
       (snd (resolve_dependency_list self0 rp0 dependencies selection request state)) = false.
Proof.
  revert state. induction dependencies as [|d ds IH]; intros state Hreq Hflag.
  - cbn. auto.
  - cbn [resolve_dependency_list]. rewrite (Hreq d (or_introl eq_refl)). cbn [andb].
    change (child_request self1 selection request d)
      with (child_request self0 selection request d).
    destruct (related (child_request self0 selection request d) state Hflag) as [E Hf].
    rewrite E.
    destruct (rp0 (child_request self0 selection request d) state) as [[sel|e|] st'];
      cbn [fst snd] in *; [|auto..].
    apply IH; [intros dep Hd; apply Hreq; now right|exact Hf].
Qed.

Lemma try_candidates_flag (request : PackageRequest.t)
    (aggregated previous : list VersionConstraint.t)
    (all_candidates candidates : list PackageVersion.t) (failures : list ResolutionError.t)
    (state : ResolutionState.t) :
  (forall c dep, In c candidates -> In dep (PackageVersion.dependencies c) ->
     Dependency.optional dep = false) ->
  ResolutionState.include_optional state = false ->
  try_candidates self1 rp1 request aggregated previous all_candidates candidates failures
    (set_include_optional b state)
  = (fst (try_candidates self0 rp0 request aggregated previous all_candidates candidates
            failures state),
     set_include_optional b
       (snd (try_candidates self0 rp0 request aggregated previous all_candidates candidates
               failures state)))
  /\ ResolutionState.include_optional
       (snd (try_candidates self0 rp0 request aggregated previous all_candidates candidates
               failures state)) = false.
Proof.
  revert failures state. induction candidates as [|c cs IH]; intros failures state Hreq Hflag.
  - cbn [try_candidates]. unfold exhausted, visiting_remove.
    cbn [set_include_optional ResolutionState.visiting].
    destruct (bool_decide (PackageRequest.package request ∈ ResolutionState.visiting state));
      [destruct previous|]; cbn; auto.
  - cbn [try_candidates]. unfold resolve_dependencies_with.
    set (state1 :=
           ResolutionState.set_constraints (insert (PackageRequest.package request) aggregated)
             (ResolutionState.set_assignments
                (insert (PackageRequest.package request) (selection_of c)) state)).
    change (ResolutionState.set_constraints (insert (PackageRequest.package request) aggregated)
              (ResolutionState.set_assignments
                 (insert (PackageRequest.package request) (selection_of c))
                 (set_include_optional b state)))
      with (set_include_optional b state1).
    destruct (resolve_dependency_list_flag (PackageSelection.dependencies (selection_of c))
                (selection_of c) request state1) as [E Hf];
      [intros dep Hd; apply (Hreq c); [now left|exact Hd]|exact Hflag|].
    rewrite E.
    destruct (resolve_dependency_list self0 rp0 (PackageSelection.dependencies (selection_of c))
                (selection_of c) request state1) as [[u|e|] st']; cbn [fst snd] in *.
    + unfold visiting_remove. cbn [set_include_optional ResolutionState.visiting].
      destruct (bool_decide (PackageRequest.package request ∈ ResolutionState.visiting st'));
        cbn; auto.
    + destruct e as [error|msg|msg|msg|key]; cbn [fst snd]; auto.
      unfold assignments_del. cbn [set_include_optional ResolutionState.assignments].
      destruct (ResolutionState.assignments st' !! PackageRequest.package request);
        cbn [fst snd]; [|auto].
      change (ResolutionState.set_assignments (delete (PackageRequest.package request))
                (set_include_optional b st'))
        with (set_include_optional b
                (ResolutionState.set_assignments (delete (PackageRequest.package request))
                   st')).
      apply IH; [intros c' dep Hc'; apply Hreq; now right|exact Hf].
    + auto.
Qed.

Hypothesis required : offers_required_only metadata prefer.

Lemma resolve_package_body_flag (request : PackageRequest.t) (state : ResolutionState.t) :
  ResolutionState.include_optional state = false ->
  resolve_package_body self1 rp1 request (set_include_optional b state)
  = (fst (resolve_package_body self0 rp0 request state),
     set_include_optional b (snd (resolve_package_body self0 rp0 request state)))
  /\ ResolutionState.include_optional (snd (resolve_package_body self0 rp0 request state))
     = false.
Proof.
  intros Hflag. unfold resolve_package_body.
  cbn [set_include_optional ResolutionState.visiting ResolutionState.assignments
       ResolutionState.constraints ResolutionState.candidate_r].
  destruct (bool_decide (PackageRequest.package request ∈ ResolutionState.visiting state)).
  - destruct (ResolutionState.assignments state !! PackageRequest.package request);
      cbn [fst snd]; auto.
  - destruct (ResolutionState.assignments state !! PackageRequest.package request)
      as [existing|].
    + destruct (satisfies_all (PackageSelection.version existing) _) as [[|]|e];
        cbn [fst snd]; auto.
      match goal with |- context [if ?c then _ else _] => destruct c end; cbn [fst snd]; auto.
    + rewrite _candidate_versions_flag.
      pose proof (_candidate_versions_members self0 request state
                    (match ResolutionState.constraints state !! PackageRequest.package request with
                     | Some cs => cs
                     | None => []
                     end ++ PackageRequest.constraints request)) as Hm.
      destruct (_candidate_versions self0 request state _) as [[|c cs]|e]; cbn [fst snd]; auto.
      destruct Hm as [_ Hm].
      apply (try_candidates_flag request _ _ (c :: cs) (c :: cs) []
               (ResolutionState.set_visiting
                  (fun v => v ∪ {[PackageRequest.package request]}) state)).
      * intros c' dep Hc' Hdep. destruct (Hm c' Hc') as (Hoff & _).
        eapply required; eauto.
      * exact Hflag.
Qed.
End IncludeOptional.

Lemma _resolve_package_flag (metadata : provider) (prefer : option string) (b : bool)
    (fuel : nat) (request : PackageRequest.t) (state : ResolutionState.t) :
  offers_required_only metadata prefer ->
  ResolutionState.include_optional state = false ->
  _resolve_package fuel (EnvironmentSolver.mk metadata b prefer) request
    (set_include_optional b state)
  = (fst (_resolve_package fuel (EnvironmentSolver.mk metadata false prefer) request state),
     set_include_optional b
       (snd (_resolve_package fuel (EnvironmentSolver.mk metadata false prefer) request state)))
  /\ ResolutionState.include_optional
       (snd (_resolve_package fuel (EnvironmentSolver.mk metadata false prefer) request state))
     = false.
Proof.
  intros Hreq. revert request state. induction fuel as [|fuel IH]; intros request state Hflag.
  - cbn. auto.
  - cbn [_resolve_package]. now apply resolve_package_body_flag.
Qed.

Lemma solve_targets_flag (metadata : provider) (prefer : option string) (b : bool)
    (fuel : nat) (targets : list TargetContext.t) (state : ResolutionState.t) :
  offers_required_only metadata prefer ->
  ResolutionState.include_optional state = false ->
  solve_targets fuel (EnvironmentSolver.mk metadata b prefer) targets
    (set_include_optional b state)
  = (fst (solve_targets fuel (EnvironmentSolver.mk metadata false prefer) targets state),
     set_include_optional b
       (snd (solve_targets fuel (EnvironmentSolver.mk metadata false prefer) targets state))).
Proof.
  intros Hreq. revert state. induction targets as [|target rest IH]; intros state Hflag.
  - reflexivity.
  - cbn [solve_targets].
    destruct (_resolve_package_flag metadata prefer b fuel (request_of_target target) state
                Hreq Hflag) as [E Hf].
    rewrite E.
    destruct (_resolve_package fuel (EnvironmentSolver.mk metadata false prefer)
                (request_of_target target) state) as [[sel|e|] st']; cbn [fst snd] in *;
      [now apply IH|reflexivity..].
Qed.

Lemma solve_flag (metadata : provider) (prefer : option string) (b : bool)
    (fuel : nat) (targets : list TargetContext.t) (candidate_r : string) :
  offers_required_only metadata prefer ->
  solve fuel (EnvironmentSolver.mk metadata b prefer) targets candidate_r
  = solve fuel (EnvironmentSolver.mk metadata false prefer) targets candidate_r.
Proof.
  intros Hreq. unfold solve.
  change (initial_state (EnvironmentSolver.mk metadata b prefer) candidate_r)
    with (set_include_optional b
            (initial_state (EnvironmentSolver.mk metadata false prefer) candidate_r)).
  rewrite solve_targets_flag by (auto; reflexivity).
  destruct (solve_targets fuel (EnvironmentSolver.mk metadata false prefer) targets
              (initial_state (EnvironmentSolver.mk metadata false prefer) candidate_r))
    as [[u|e|] state]; reflexivity.
Qed.

(** X29. With a provider whose versions have no optional dependency, as
    the normalisers of the package build them, the option
    [include_optional] changes nothing: [solve], [compute_resolution]
    and [build_report] give the same result with it as without. *)
Theorem include_optional_without_effect (metadata : provider) (prefer : option string)
    (required : offers_required_only metadata prefer) :
  (forall fuel include_optional targets candidate_r,
      solve fuel (EnvironmentSolver.mk metadata include_optional prefer) targets candidate_r
      = solve fuel (EnvironmentSolver.mk metadata false prefer) targets candidate_r)
  /\ (forall set_order fuel include_optional targets locked_r,
        compute_resolution set_order fuel metadata targets include_optional prefer locked_r
        = compute_resolution set_order fuel metadata targets false prefer locked_r)
  /\ (forall set_order fuel include_optional targets locked_r,
        build_report set_order fuel metadata targets include_optional prefer locked_r
        = build_report set_order fuel metadata targets false prefer locked_r).
Proof.
  assert (Hsolve : forall fuel include_optional targets candidate_r,
             solve fuel (EnvironmentSolver.mk metadata include_optional prefer) targets
               candidate_r
             = solve fuel (EnvironmentSolver.mk metadata false prefer) targets candidate_r)
    by (intros; now apply solve_flag).
  assert (Hcompute : forall set_order fuel include_optional targets locked_r,
             compute_resolution set_order fuel metadata targets include_optional prefer
               locked_r
             = compute_resolution set_order fuel metadata targets false prefer locked_r).
  { intros. rewrite !compute_resolution_attempt. rewrite !Hsolve.
    destruct (truthy locked_r); [reflexivity|].
    destruct (first_compatible _ _); [|reflexivity]. now rewrite Hsolve. }
  split; [exact Hsolve|]. split; [exact Hcompute|].
  intros. unfold build_report. now rewrite !(Hcompute set_order fuel include_optional).
Qed.

Lemma orphan_required_only : offers_required_only orphan_provider None.
Proof.
  intros request v dep Hoff Hdep. apply preloaded_offered in Hoff.
  destruct Hoff as [(package & versions & Hin & Hv)|(release & packages & package & [] & _)].
  simpl in Hin.
  repeat (destruct Hin as [[= <- <-]|Hin];
          [simpl in Hv;
           repeat (destruct Hv as [<-|Hv];
                   [simpl in Hdep; repeat (destruct Hdep as [<-|Hdep]; [reflexivity|]);
                    destruct Hdep|]);
           destruct Hv|]).
  destruct Hin.
Qed.

Lemma include_optional_without_effect_witness :
  (forall fuel include_optional targets candidate_r,
      solve fuel (EnvironmentSolver.mk orphan_provider include_optional None) targets
        candidate_r
      = solve fuel (EnvironmentSolver.mk orphan_provider false None) targets candidate_r)
  /\ (forall set_order fuel include_optional targets locked_r,
        compute_resolution set_order fuel orphan_provider targets include_optional None
          locked_r
        = compute_resolution set_order fuel orphan_provider targets false None locked_r)
  /\ (forall set_order fuel include_optional targets locked_r,
        build_report set_order fuel orphan_provider targets include_optional None locked_r
        = build_report set_order fuel orphan_provider targets false None locked_r).
Proof. exact (include_optional_without_effect orphan_provider None orphan_required_only). Defined.

(** ** Where a dependency is looked up *)

Lemma py_or_truthy (x y : option string) : truthy y = true -> truthy (py_or x y) = true.
Proof. unfold py_or. destruct (truthy x) eqn:E; auto. Qed.

Lemma lookup_release_truthy (self : EnvironmentSolver.t) (request : PackageRequest.t) :
  truthy (lookup_release self request) = true.
Proof. unfold lookup_release. apply py_or_truthy, py_or_truthy. reflexivity. Qed.

(** X30. Where [_resolve_dependencies] looks a dependency up. The
    request for a dependency carries its name and constraints, the chain
    of requirers extended by the selection, and neither GitHub reference
    nor slug. For a selection from Bioconductor the sources are
    Bioconductor, then CRAN, and the release is that of the selection,
    else of the request, else the preferred one; for any other selection
    they are CRAN, then Bioconductor, without release. GitHub is never a
    source of a dependency. A lookup on Bioconductor always names a
    release, the latest of the table at last, so the error for a missing
    release is never raised. *)
Theorem child_request_lookup (self : EnvironmentSolver.t) (selection : PackageSelection.t)
    (request : PackageRequest.t) (dependency : Dependency.t) :
  PackageRequest.package (child_request self selection request dependency)
  = Dependency.name dependency
  /\ PackageRequest.constraints (child_request self selection request dependency)
     = Dependency.constraints dependency
  /\ PackageRequest.required_by (child_request self selection request dependency)
     = PackageRequest.required_by request ++ [PackageSelection.package selection]
  /\ PackageRequest.github_slug (child_request self selection request dependency) = None
  /\ (if String.eqb (Str.lower (PackageSelection.repo selection)) "bioconductor"
      then source_order_of (child_request self selection request dependency)
           = ["bioc"; "cran"]
           /\ PackageRequest.bioc_release (child_request self selection request dependency)
              = py_or (PackageSelection.bioc_release selection)
                  (py_or (PackageRequest.bioc_release request)
                     (EnvironmentSolver.prefer_bioc_release self))
      else source_order_of (child_request self selection request dependency)
           = ["cran"; "bioc"]
           /\ PackageRequest.bioc_release (child_request self selection request dependency)
              = None)
  /\ ~ In "github" (source_order_of (child_request self selection request dependency))
  /\ (forall any_request,
        truthy (lookup_release self any_request) = true
        /\ _load_versions_for_source self any_request "bioc"
           = EnvironmentSolver.metadata self (PackageRequest.package any_request) "bioc"
               (lookup_release self any_request) None None
        /\ _load_versions_for_source self any_request "cran"
           = EnvironmentSolver.metadata self (PackageRequest.package any_request) "cran"
               None None None).
Proof.
  split; [reflexivity|]. split; [reflexivity|]. split; [reflexivity|]. split; [reflexivity|].
  assert (Horder : if String.eqb (Str.lower (PackageSelection.repo selection)) "bioconductor"
                   then source_order_of (child_request self selection request dependency)
                        = ["bioc"; "cran"]
                   else source_order_of (child_request self selection request dependency)
                        = ["cran"; "bioc"]).
  { unfold source_order_of, child_request, _infer_source. cbn [PackageRequest.source].
    destruct (String.eqb (Str.lower (PackageSelection.repo selection)) "bioconductor");
      [reflexivity|].
    destruct (String.eqb (Str.lower (PackageSelection.repo selection)) "github"); reflexivity. }
  split; [|split].
  - unfold child_request at 2 4, _infer_bioc_release. cbn [PackageRequest.bioc_release].
    destruct (String.eqb (Str.lower (PackageSelection.repo selection)) "bioconductor"); auto.
  - destruct (String.eqb (Str.lower (PackageSelection.repo selection)) "bioconductor");
      rewrite Horder; intros [H|[H|[]]]; discriminate.
  - intros any_request. pose proof (lookup_release_truthy self any_request) as Ht.
    split; [exact Ht|]. split; [|reflexivity].
    unfold _load_versions_for_source. cbn [Str.lower Str.lower_char String.eqb Ascii.eqb
      Bool.eqb orb]. fold (lookup_release self any_request).
    change (Str.lower "bioc") with "bioc". cbn [String.eqb Ascii.eqb Bool.eqb orb].
    now rewrite Ht.
Qed.
